(** * vitest-vscode: the test tree and the test runner

    A shallow embedding of [src/testTree.ts] and [src/runner/runner.ts].

    The editor objects ([vscode.TestItem], [vscode.TestItemCollection],
    [vscode.TestRun]) are mutable and shared by reference: the tree's index
    maps, the children collections and the runner all hold the same objects.
    They are therefore kept in a store (a finite map from references to
    records) that every operation threads through explicitly. *)

From Stdlib Require Import ZArith Ascii String List Lia.
From stdpp Require Import base option list gmap strings fin_maps.

Local Open Scope string_scope.

(** ** Host data: what the editor API hands to the extension *)

Module Host.

(** Object references of test items. *)
Abbreviation ref := nat.

(** A JavaScript number as the code uses it for lines, columns and
    durations: an integer, or [NaN]. *)
Inductive number :=
  | Num (z : Z)
  | NaN.

Definition isNaN (n : number) : bool :=
  match n with NaN => true | Num _ => false end.

(** [n - 1] *)
Definition pred_number (n : number) : number :=
  match n with Num z => Num (z - 1) | NaN => NaN end.

(** [vscode.Uri], through the only part the code reads, [fsPath]. *)
Record Uri := mkUri { fsPath : string }.

#[global] Instance Uri_eq_dec : EqDecision Uri.
Proof. solve_decision. Defined.

(** [vscode.Uri.file(path)] *)
Definition Uri_file (path : string) : Uri := mkUri path.

(** [uri.toString()] *)
Definition Uri_toString (u : Uri) : string := "file://" ++ fsPath u.

(** [vscode.Position], [vscode.Range], [vscode.Location] *)
Record Position := mkPosition { line : number; character : number }.
Record Range := mkRange { range_start : Position; range_end : Position }.
Record Location := mkLocation { loc_uri : Uri; loc_range : Position }.

(** [vscode.TestTag]: tags are compared by object identity; a tag object is
    identified here by its id. *)
Record TestTag := mkTag { tag_id : string }.

#[global] Instance TestTag_eq_dec : EqDecision TestTag.
Proof. solve_decision. Defined.

(** The [children] property of a test item is a reference to a collection.
    Items made by [createTestItem] own a fresh collection; the inline root
    folder of [getOrCreateInlineFolderItem] is an object literal whose
    [children] IS the controller's top-level collection. *)
Inductive Children :=
  | OwnChildren (m : gmap string ref)
  | ControllerItems.

(** [vscode.TestItem] *)
Record TestItem := mkTestItem {
  ti_id : string;
  ti_label : string;
  ti_uri : Uri;
  ti_children : Children;
  ti_parent : option ref;
  ti_tags : list TestTag;
  ti_range : option Range;
  ti_error : option string;
  ti_sortText : option string;
  ti_canResolveChildren : bool;
  ti_busy : bool
}.

Definition set_label (v : string) (it : TestItem) : TestItem :=
  mkTestItem (ti_id it) v (ti_uri it) (ti_children it) (ti_parent it)
    (ti_tags it) (ti_range it) (ti_error it) (ti_sortText it)
    (ti_canResolveChildren it) (ti_busy it).

Definition set_children (v : Children) (it : TestItem) : TestItem :=
  mkTestItem (ti_id it) (ti_label it) (ti_uri it) v (ti_parent it)
    (ti_tags it) (ti_range it) (ti_error it) (ti_sortText it)
    (ti_canResolveChildren it) (ti_busy it).

Definition set_parent (v : option ref) (it : TestItem) : TestItem :=
  mkTestItem (ti_id it) (ti_label it) (ti_uri it) (ti_children it) v
    (ti_tags it) (ti_range it) (ti_error it) (ti_sortText it)
    (ti_canResolveChildren it) (ti_busy it).

Definition set_tags (v : list TestTag) (it : TestItem) : TestItem :=
  mkTestItem (ti_id it) (ti_label it) (ti_uri it) (ti_children it)
    (ti_parent it) v (ti_range it) (ti_error it) (ti_sortText it)
    (ti_canResolveChildren it) (ti_busy it).

Definition set_range (v : option Range) (it : TestItem) : TestItem :=
  mkTestItem (ti_id it) (ti_label it) (ti_uri it) (ti_children it)
    (ti_parent it) (ti_tags it) v (ti_error it) (ti_sortText it)
    (ti_canResolveChildren it) (ti_busy it).

Definition set_error (v : option string) (it : TestItem) : TestItem :=
  mkTestItem (ti_id it) (ti_label it) (ti_uri it) (ti_children it)
    (ti_parent it) (ti_tags it) (ti_range it) v (ti_sortText it)
    (ti_canResolveChildren it) (ti_busy it).

Definition set_sortText (v : option string) (it : TestItem) : TestItem :=
  mkTestItem (ti_id it) (ti_label it) (ti_uri it) (ti_children it)
    (ti_parent it) (ti_tags it) (ti_range it) (ti_error it) v
    (ti_canResolveChildren it) (ti_busy it).

Definition set_canResolveChildren (v : bool) (it : TestItem) : TestItem :=
  mkTestItem (ti_id it) (ti_label it) (ti_uri it) (ti_children it)
    (ti_parent it) (ti_tags it) (ti_range it) (ti_error it) (ti_sortText it)
    v (ti_busy it).

Definition set_busy (v : bool) (it : TestItem) : TestItem :=
  mkTestItem (ti_id it) (ti_label it) (ti_uri it) (ti_children it)
    (ti_parent it) (ti_tags it) (ti_range it) (ti_error it) (ti_sortText it)
    (ti_canResolveChildren it) v.

(** [vscode.TestMessage]; [TestMessage.diff] fills the two outputs. *)
Record TestMessage := mkTestMessage {
  tm_message : string;
  tm_expectedOutput : option string;
  tm_actualOutput : option string;
  tm_location : option Location
}.

Definition TestMessage_new (message : string) : TestMessage :=
  mkTestMessage message None None None.

Definition TestMessage_diff (message expected actual : string) : TestMessage :=
  mkTestMessage message (Some expected) (Some actual) None.

Definition set_location (l : Location) (m : TestMessage) : TestMessage :=
  mkTestMessage (tm_message m) (tm_expectedOutput m) (tm_actualOutput m) (Some l).



(** The calls a [vscode.TestRun] object receives, in order. *)
Inductive RunCall :=
  | Enqueued (test : ref)
  | Started (test : ref)
  | Passed (test : ref) (duration : option number)
  | Failed (test : ref) (messages : list TestMessage) (duration : option number)
  | Skipped (test : ref)
  | AppendOutput (output : string).

Definition is_pass_or_fail (c : RunCall) : bool :=
  match c with
  | Passed _ _ | Failed _ _ _ => true
  | _ => false
  end.

End Host.

(** ** Runner data: what the vitest process reports *)

Module Vitest.
Import Host.

Record ParsedStack := mkParsedStack {
  ps_file : string;
  ps_line : number;
  ps_column : number
}.

Record TestError := mkTestError {
  te_message : string;
  te_stack : option string;
  te_actual : option string;
  te_expected : option string;
  te_stacks : option (list ParsedStack)
}.

Record TaskResult := mkTaskResult {
  tr_state : string;
  tr_errors : option (list TestError);
  tr_duration : option number
}.

Record TaskLocation := mkTaskLocation { tl_line : number; tl_column : number }.

(** A task; [task_tasks] is present exactly when ['tasks' in task]. *)
#[warnings="-register-all"]
Inductive Task := mkTask {
  task_id : string;
  task_name : string;
  task_type : string;
  task_mode : string;
  task_location : option TaskLocation;
  task_result : option TaskResult;
  task_tasks : option (list Task)
}.

(** A collected file (the [File] task). *)
Record File := mkFile {
  file_id : string;
  file_filepath : string;
  file_projectName : option string;
  file_tasks : list Task;
  file_result : option TaskResult
}.

End Vitest.

(** ** The node wrappers of [testTreeData] *)

Module TestTreeData.
Import Host.

(** [VitestFolderAPI], through what the tree and the runner read. *)
Record VitestFolderAPI := mkAPI {
  api_tag : TestTag;
  api_workspaceFolder : Uri
}.

Record TestFileData := mkTestFileData {
  tf_parent : ref;
  filepath : string;
  tf_api : VitestFolderAPI;
  project : string
}.

(** Modelled from the spec: the module [testTreeData] ([TestFolder],
    [TestFile], [TestSuite], [TestCase], [getTestData]) is not among the
    sources.  Per the design notes a node's kind is "tagged-variant data
    attached by identity, with a lookup function from identity to variant";
    [register] attaches the variant built from its arguments and
    [getTestData] looks it up. *)
Inductive TestData :=
  | TestFolder (parent : option ref)
  | TestFile (d : TestFileData)
  | TestSuite (parent : ref) (file : TestFileData)
  | TestCase (parent : ref) (file : TestFileData).

Definition isTestFolder (d : TestData) : bool :=
  match d with TestFolder _ => true | _ => false end.

Definition isTestFile (d : TestData) : bool :=
  match d with TestFile _ => true | _ => false end.

Definition isTestCase (d : TestData) : bool :=
  match d with TestCase _ _ => true | _ => false end.

End TestTreeData.

(** ** The test tree ([src/testTree.ts]) *)

Module TestTree.
Import Host Vitest TestTreeData.

(** The fields of [TestTree], together with the objects they point to:
    [heap] holds the test item objects, [next] is the next free reference,
    [testData] is the side table of [testTreeData], and [controllerItems] is
    the collection [controller.items]. *)
Record State := mkState {
  heap : gmap ref TestItem;
  next : ref;
  testData : gmap ref TestData;
  controllerItems : gmap string ref;
  loaderItem : ref;
  flatTestItems : gmap string ref;
  fileItems : gmap string ref;
  folderItems : gmap string ref;
  testItemsByFile : gmap string (list ref);
  watcherByFolder : list Uri
}.

Definition with_heap (v : gmap ref TestItem) (st : State) : State :=
  mkState v (next st) (testData st) (controllerItems st) (loaderItem st)
    (flatTestItems st) (fileItems st) (folderItems st) (testItemsByFile st)
    (watcherByFolder st).

Definition with_next (v : ref) (st : State) : State :=
  mkState (heap st) v (testData st) (controllerItems st) (loaderItem st)
    (flatTestItems st) (fileItems st) (folderItems st) (testItemsByFile st)
    (watcherByFolder st).

Definition with_testData (v : gmap ref TestData) (st : State) : State :=
  mkState (heap st) (next st) v (controllerItems st) (loaderItem st)
    (flatTestItems st) (fileItems st) (folderItems st) (testItemsByFile st)
    (watcherByFolder st).

Definition with_controllerItems (v : gmap string ref) (st : State) : State :=
  mkState (heap st) (next st) (testData st) v (loaderItem st)
    (flatTestItems st) (fileItems st) (folderItems st) (testItemsByFile st)
    (watcherByFolder st).

Definition with_flatTestItems (v : gmap string ref) (st : State) : State :=
  mkState (heap st) (next st) (testData st) (controllerItems st) (loaderItem st)
    v (fileItems st) (folderItems st) (testItemsByFile st)
    (watcherByFolder st).

Definition with_fileItems (v : gmap string ref) (st : State) : State :=
  mkState (heap st) (next st) (testData st) (controllerItems st) (loaderItem st)
    (flatTestItems st) v (folderItems st) (testItemsByFile st)
    (watcherByFolder st).

Definition with_folderItems (v : gmap string ref) (st : State) : State :=
  mkState (heap st) (next st) (testData st) (controllerItems st) (loaderItem st)
    (flatTestItems st) (fileItems st) v (testItemsByFile st)
    (watcherByFolder st).

Definition with_testItemsByFile (v : gmap string (list ref)) (st : State) : State :=
  mkState (heap st) (next st) (testData st) (controllerItems st) (loaderItem st)
    (flatTestItems st) (fileItems st) (folderItems st) v
    (watcherByFolder st).

Definition with_watcherByFolder (v : list Uri) (st : State) : State :=
  mkState (heap st) (next st) (testData st) (controllerItems st) (loaderItem st)
    (flatTestItems st) (fileItems st) (folderItems st) (testItemsByFile st)
    v.

(** *** The editor's operations on test items

    These follow the contract documented in [vscode.d.ts]:
    - [createTestItem] returns a new item with an empty children collection
      of its own and no parent;
    - [collection.add(item)] stores the item under its id, replacing an item
      with the same id; an item's [parent] "is set automatically, and is
      undefined [for] top-level items in the [TestController.items]";
    - [collection.delete(id)] removes the entry with that id;
    - a collection is keyed by the read-only id of its items, so in
      [forEach] the id of the visited child is the key of its entry. *)

(** A write to a property of the object behind [r]. *)
Definition upd (r : ref) (f : TestItem → TestItem) (st : State) : State :=
  with_heap (alter f r (heap st)) st.

Definition createTestItem (id label : string) (uri : Uri) (st : State)
  : ref * State :=
  let r := next st in
  (r, with_next (S r)
        (with_heap (<[r := mkTestItem id label uri (OwnChildren ∅) None []
                              None None None false false]> (heap st)) st)).

(** The collection behind a [children] property. *)
Definition collection (st : State) (c : Children) : gmap string ref :=
  match c with
  | OwnChildren m => m
  | ControllerItems => controllerItems st
  end.

(** [item.children], as the map from ids to items it currently is. *)
Definition children_of (st : State) (r : ref) : gmap string ref :=
  match heap st !! r with
  | Some it => collection st (ti_children it)
  | None => ∅
  end.

Definition map_own (f : gmap string ref → gmap string ref) (it : TestItem)
  : TestItem :=
  match ti_children it with
  | OwnChildren m => set_children (OwnChildren (f m)) it
  | ControllerItems => it
  end.

(** A write to the collection behind [p.children]. *)
Definition upd_children (p : ref) (f : gmap string ref → gmap string ref)
    (st : State) : State :=
  match heap st !! p with
  | Some pit =>
      match ti_children pit with
      | OwnChildren _ => upd p (map_own f) st
      | ControllerItems => with_controllerItems (f (controllerItems st)) st
      end
  | None => st
  end.

(** The item a child of [p.children] gets as its [parent]. *)
Definition owner (st : State) (p : ref) : option ref :=
  match heap st !! p with
  | Some pit =>
      match ti_children pit with
      | OwnChildren _ => Some p
      | ControllerItems => None
      end
  | None => None
  end.

(** [p.children.add(c)] *)
Definition children_add (p c : ref) (st : State) : State :=
  match heap st !! c with
  | Some cit =>
      upd_children p (insert (ti_id cit) c) (upd c (set_parent (owner st p)) st)
  | None => st
  end.

(** [p.children.delete(id)] *)
Definition children_delete (p : ref) (id : string) (st : State) : State :=
  upd_children p (delete id) st.

(** [p.children.size] *)
Definition children_size (st : State) (p : ref) : nat :=
  size (children_of st p).

(** [TestX.register(item, ...)] and [getTestData(item)] *)
Definition register (r : ref) (d : TestData) (st : State) : State :=
  with_testData (<[r := d]> (testData st)) st.

Definition getTestData (st : State) (r : ref) : option TestData :=
  testData st !! r.

(** [p.children.replace(items)] *)
Definition children_replace (p : ref) (items : list ref) (st : State) : State :=
  let entries := omap (λ c, (λ it, (ti_id it, c)) <$> heap st !! c) items in
  upd_children p (λ _, list_to_map entries)
    (foldl (λ s c, upd c (set_parent (owner st p)) s) st items).

(** [controller.items.replace(items)] *)
Definition controller_replace (items : list ref) (st : State) : State :=
  let entries := omap (λ c, (λ it, (ti_id it, c)) <$> heap st !! c) items in
  with_controllerItems (list_to_map entries)
    (foldl (λ s c, upd c (set_parent None) s) st items).

(** [Array.from(new Set(l))]: the first occurrence of each element, in order. *)
Fixpoint dedupe_from {A} `{EqDecision A} (seen l : list A) : list A :=
  match l with
  | [] => []
  | x :: l' =>
      if bool_decide (x ∈ seen) then dedupe_from seen l'
      else x :: dedupe_from (x :: seen) l'
  end.

Definition dedupe {A} `{EqDecision A} (l : list A) : list A := dedupe_from [] l.

Definition newline : string := String (ascii_of_nat 10) EmptyString.

(** [l.join('\n')] *)
Definition join_lines (l : list string) : string := String.concat newline l.

Section Paths.

(** [normalize], [dirname] and [basename] of the [pathe] package. *)
Variables normalize dirname basename : string → string.

(** *** Queries *)

Definition getFileTestItems (fsPath : string) (st : State) : list ref :=
  default [] (testItemsByFile st !! normalize fsPath).

Definition getAllFileItems (st : State) : list ref :=
  (map_to_list (fileItems st)).*2.

Definition getTestItemByTaskId (taskId : string) (st : State) : option ref :=
  flatTestItems st !! taskId.

(** [getTestItemByTask], for a task that is a file ([filepath] present and
    non-empty) or not. *)
Definition getTestItemByTask (id : string) (filepath : option string)
    (projectName : option string) (st : State) : option ref :=
  match flatTestItems st !! id with
  | Some cachedItem => Some cachedItem
  | None =>
      match filepath with
      | Some fp =>
          if (fp =? "")%string then None
          else fileItems st !! (fp ++ default "" projectName)
      | None => None
      end
  end.

(** *** Folders and files *)

Definition getOrCreateInlineFolderItem (folderUri : Uri) (st : State)
  : ref * State :=
  let id := normalize (fsPath folderUri) in
  match folderItems st !! id with
  | Some cached => (cached, st)
  | None =>
      let r := next st in
      let item := mkTestItem (Uri_toString folderUri) "<root>" folderUri
                    ControllerItems None [] None None None false false in
      let st := with_next (S r) (with_heap (<[r := item]> (heap st)) st) in
      let st := register r (TestFolder None) st in
      (r, with_folderItems (<[id := r]> (folderItems st)) st)
  end.

Definition _createFolderItem (folderUri : Uri) (parentItem : option ref)
    (st : State) : ref * State :=
  let folderFsPath := normalize (fsPath folderUri) in
  let '(folderItem, st) :=
    createTestItem folderFsPath (basename folderFsPath) folderUri st in
  let st := register folderItem (TestFolder parentItem) st in
  (folderItem, upd folderItem (set_canResolveChildren false) st).

Definition getOrCreateWorkspaceFolderItem (folderUri : Uri) (st : State)
  : ref * State :=
  let folderId := normalize (fsPath folderUri) in
  match folderItems st !! folderId with
  | Some cached => (cached, st)
  | None =>
      let '(folderItem, st) := _createFolderItem folderUri None st in
      (folderItem, with_folderItems (<[folderId := folderItem]> (folderItems st)) st)
  end.

(** [cached.tags.includes(tag)] and the tag merge of a cached folder. *)
Definition merge_tag (tag : TestTag) (it : TestItem) : TestItem :=
  if bool_decide (tag ∈ ti_tags it) then it
  else set_tags (ti_tags it ++ [tag])%list it.

(** The recursion climbs [dirname] until it meets a registered folder; the
    source has no other exit ("otherwise it will go into an infinite loop"),
    so the embedding counts the climb down from [fuel] and answers [None]
    when it is used up. *)
Fixpoint getOrCreateFolderTestItem (fuel : nat) (api : VitestFolderAPI)
    (normalizedFolder : string) (st : State) : option (ref * State) :=
  match folderItems st !! normalizedFolder with
  | Some cached => Some (cached, upd cached (merge_tag (api_tag api)) st)
  | None =>
      match fuel with
      | O => None
      | S fuel' =>
          let folderUri := Uri_file normalizedFolder in
          match getOrCreateFolderTestItem fuel' api (dirname normalizedFolder) st with
          | None => None
          | Some (parentItem, st) =>
              let '(folderItem, st) :=
                _createFolderItem folderUri (Some parentItem) st in
              let st := upd folderItem (set_tags [api_tag api]) st in
              let st := children_add parentItem folderItem st in
              Some (folderItem,
                    with_folderItems
                      (<[normalizedFolder := folderItem]> (folderItems st)) st)
          end
      end
  end.

(** The label of a file node: [project ? `[${project}] ${basename(file)}`
    : basename(file)]. *)
Definition file_label (project file : string) : string :=
  if (project =? "")%string then basename file
  else "[" ++ project ++ "] " ++ basename file.

Definition getOrCreateFileTestItem (fuel : nat) (api : VitestFolderAPI)
    (project file : string) (st : State) : option (ref * State) :=
  let normalizedFile := normalize file in
  let fileId := normalizedFile ++ project in
  match fileItems st !! fileId with
  | Some cached => Some (cached, st)
  | None =>
      let fileUri := Uri_file file in
      match getOrCreateFolderTestItem fuel api (dirname file) st with
      | None => None
      | Some (parentItem, st) =>
          let label := file_label project file in
          let '(testFileItem, st) := createTestItem fileId label fileUri st in
          let st := upd testFileItem (set_tags [api_tag api]) st in
          let st := upd testFileItem (set_canResolveChildren true) st in
          let st := register testFileItem
                      (TestFile (mkTestFileData parentItem normalizedFile api project)) st in
          let st := children_add parentItem testFileItem st in
          let st := with_fileItems (<[fileId := testFileItem]> (fileItems st)) st in
          let cachedItems := default [] (testItemsByFile st !! normalizedFile) in
          let cachedItems := (cachedItems ++ [testFileItem])%list in
          let st := with_testItemsByFile
                      (<[normalizedFile := cachedItems]> (testItemsByFile st)) st in
          Some (testFileItem, st)
      end
  end.

(** [reset(workspaceFolders)] *)
Definition reset (workspaceFolders : list Uri) (st : State) : State :=
  let st := with_folderItems ∅ st in
  let st := with_testItemsByFile ∅ st in
  let st := with_fileItems ∅ st in
  let st := with_flatTestItems ∅ st in
  let st := with_watcherByFolder [] st in
  let st := upd (loaderItem st) (set_busy true) st in
  match workspaceFolders with
  | [x] =>
      let '(rootItem, st) := getOrCreateInlineFolderItem x st in
      children_replace rootItem [loaderItem st] st
  | _ =>
      let '(items, st) :=
        foldl (λ '(acc, s) x,
                 let '(item, s) := getOrCreateWorkspaceFolderItem x s in
                 let s := children_replace item [] s in
                 let s := upd item (set_busy true) s in
                 ((acc ++ [item])%list, s))
              ([], st) workspaceFolders in
      controller_replace items st
  end.

(** [discoverAllTestFiles(api, files)], with [files] a list of
    [(project, file)] pairs. *)
Fixpoint discover_loop (fuel : nat) (api : VitestFolderAPI)
    (files : list (string * string)) (st : State) : option State :=
  match files with
  | [] => Some st
  | (project, file) :: rest =>
      match getOrCreateFileTestItem fuel api project file st with
      | None => None
      | Some (_, st) => discover_loop fuel api rest st
      end
  end.

Definition discoverAllTestFiles (fuel : nat) (api : VitestFolderAPI)
    (files : list (string * string)) (st : State) : option State :=
  let st :=
    match folderItems st !! normalize (fsPath (api_workspaceFolder api)) with
    | Some folderItem => upd folderItem (set_busy false) st
    | None => st
    end in
  discover_loop fuel api files st.

(** *** Deletion *)

(** The body of [recursiveDelete(item)] between its guard and its last
    test: the item leaves its parent's children and the index maps. *)
Definition detach (item : ref) (it : TestItem) (parent : ref) (st : State)
  : State :=
  let st := children_delete parent (ti_id it) st in
  let st := with_flatTestItems (delete (ti_id it) (flatTestItems st)) st in
  let data := getTestData st item in
  let st :=
    match data with
    | Some (TestFile d) =>
        let st := with_testItemsByFile
                    (delete (filepath d) (testItemsByFile st)) st in
        with_fileItems (delete (ti_id it) (fileItems st)) st
    | _ => st
    end in
  match data with
  | Some (TestFolder _) =>
      with_folderItems (delete (ti_id it) (folderItems st)) st
  | _ => st
  end.

(** [recursiveDelete(item)] climbs the [parent] links; [fuel] bounds the
    climb and [None] means it was used up before the climb ended. *)
Fixpoint recursiveDelete (fuel : nat) (item : ref) (st : State) : option State :=
  match fuel with
  | O => None
  | S fuel' =>
      match heap st !! item with
      | None => Some st
      | Some it =>
          match ti_parent it with
          | None => Some st
          | Some parent =>
              let st := detach item it parent st in
              if Nat.eqb (children_size st parent) 0
              then recursiveDelete fuel' parent st
              else Some st
          end
      end
  end.

(** The callback of [watcher.onDidDelete]: [forEach] walks the array that
    was looked up, whatever [recursiveDelete] does to the map meanwhile. *)
Fixpoint deleteEach (fuel : nat) (items : list ref) (st : State) : option State :=
  match items with
  | [] => Some st
  | item :: rest =>
      match recursiveDelete fuel item st with
      | None => None
      | Some st => deleteEach fuel rest st
      end
  end.

Definition onDidDelete (fuel : nat) (file : Uri) (st : State) : option State :=
  match testItemsByFile st !! normalize (fsPath file) with
  | Some items => deleteEach fuel items st
  | None => Some st
  end.

(** [watchTestFilesInWorkspace(api, testFiles)]; the callback it installs
    is [onDidDelete]. *)
Definition watchTestFilesInWorkspace (fuel : nat) (api : VitestFolderAPI)
    (testFiles : list (string * string)) (st : State) : option State :=
  match discoverAllTestFiles fuel api testFiles st with
  | None => None
  | Some st =>
      if bool_decide (api_workspaceFolder api ∈ watcherByFolder st) then Some st
      else Some (with_watcherByFolder
                   (watcherByFolder st ++ [api_workspaceFolder api])%list st)
  end.

(** *** Collection *)

(** [parent.uri] and [parent.tags] *)
Definition uri_of (st : State) (r : ref) : Uri :=
  from_option ti_uri (mkUri "") (heap st !! r).

Definition tags_of (st : State) (r : ref) : list TestTag :=
  from_option ti_tags [] (heap st !! r).

(** [new vscode.Position(location.line - 1, location.column)] *)
Definition task_position (location : TaskLocation) : Position :=
  mkPosition (pred_number (tl_line location)) (tl_column location).

(** [task.result?.errors] *)
Definition result_errors (result : option TaskResult) : option (list TestError) :=
  match result with
  | Some r => tr_errors r
  | None => None
  end.

(** [errors.map(error => error.stack).join('\n')]; an undefined stack joins
    as the empty string. *)
Definition joined_stacks (errors : list TestError) : string :=
  join_lines (map (λ error, default "" (te_stack error)) errors).

(** [error.stack || error.message]: an empty stack is falsy too. *)
Definition stack_or_message (error : TestError) : string :=
  match te_stack error with
  | Some s => if (s =? "")%string then te_message error else s
  | None => te_message error
  end.

(** The closing loop of [collectTasks]: delete every child whose id is not
    reported. *)
Definition prune (parent : ref) (ids : list string) (st : State) : State :=
  upd_children parent (filter (λ kv, kv.1 ∈ ids)) st.

(** One turn of the [for] loop of [collectTasks], up to the recursive
    call: the task's item is found or made, refreshed, indexed and added to
    the parent's children. *)
Definition collectNode (tag : TestTag) (fileData : TestFileData) (parent : ref)
    (task : Task) (st : State) : ref * State :=
  let '(testItem, st) :=
    match flatTestItems st !! task_id task with
    | Some cached => (cached, st)
    | None => createTestItem (task_id task) (task_name task) (uri_of st parent) st
    end in
  let st := upd testItem (set_tags (dedupe (tags_of st parent ++ [tag])%list)) st in
  let st := upd testItem (set_error None) st in
  let st := upd testItem (set_label (task_name task)) st in
  let st :=
    match task_location task with
    | Some location =>
        let position := task_position location in
        upd testItem (set_range (Some (mkRange position position))) st
    | None => upd testItem (set_sortText (Some (task_id task))) st
    end in
  let st :=
    if (task_type task =? "suite")%string
    then register testItem (TestSuite parent fileData) st
    else if ((task_type task =? "test") || (task_type task =? "custom"))%string
    then register testItem (TestCase parent fileData) st
    else st in
  let st := with_flatTestItems (<[task_id task := testItem]> (flatTestItems st)) st in
  let st := children_add parent testItem st in
  let st :=
    match result_errors (task_result task) with
    | Some errors => upd testItem (set_error (Some (joined_stacks errors))) st
    | None => st
    end in
  (testItem, st).

(** One turn of the [for] loop of [collectTasks], with the recursive call
    on the task's own sub-tasks when it has the [tasks] property. *)
Fixpoint collectTask (tag : TestTag) (fileData : TestFileData) (parent : ref)
    (task : Task) (st : State) {struct task} : State :=
  let '(testItem, st) := collectNode tag fileData parent task st in
  match task_tasks task with
  | Some tasks =>
      prune testItem (map task_id tasks)
        ((fix loop (l : list Task) (st : State) : State :=
            match l with
            | [] => st
            | x :: l' => loop l' (collectTask tag fileData testItem x st)
            end) tasks st)
  | None => st
  end.

Definition collectLoop (tag : TestTag) (fileData : TestFileData) (parent : ref)
    (tasks : list Task) (st : State) : State :=
  foldl (λ st task, collectTask tag fileData parent task st) st tasks.

Definition collectTasks (tag : TestTag) (fileData : TestFileData)
    (tasks : list Task) (parent : ref) (st : State) : State :=
  prune parent (map task_id tasks) (collectLoop tag fileData parent tasks st).

(** [collectFile(api, file)].  The cast [getTestData(fileTestItem) as
    TestFile] is a typing assertion; the embedding answers [None] where the
    data is not a [TestFile] (and where the folder climb runs out). *)
Definition collectFile (fuel : nat) (api : VitestFolderAPI) (file : File)
    (st : State) : option State :=
  match getOrCreateFileTestItem fuel api (default "" (file_projectName file))
          (file_filepath file) st with
  | None => None
  | Some (fileTestItem, st) =>
      let st := upd fileTestItem (set_error None) st in
      let st := with_flatTestItems
                  (<[file_id file := fileTestItem]> (flatTestItems st)) st in
      match getTestData st fileTestItem with
      | Some (TestFile data) =>
          let st := collectTasks (api_tag api) data (file_tasks file) fileTestItem st in
          let st :=
            match result_errors (file_result file) with
            | Some errors =>
                let error := join_lines (map stack_or_message errors) in
                upd fileTestItem (set_error (Some error)) st
            | None =>
                if Nat.eqb (length (file_tasks file)) 0
                then upd fileTestItem
                       (set_error (Some ("No tests found in " ++ file_filepath file))) st
                else st
            end in
          Some (upd fileTestItem (set_canResolveChildren false) st)
      | _ => None
      end
  end.

End Paths.

End TestTree.

(** ** The test runner ([src/runner/runner.ts]): results and failures *)

Module TestRunner.
Import Host Vitest TestTreeData TestTree.

Record DebuggerLocation := mkDebuggerLocation {
  dl_path : string;
  dl_line : number;
  dl_column : number
}.

(** [s.replace(/\//g, sep)] *)
Fixpoint replace_slashes (sep s : string) : string :=
  match s with
  | EmptyString => EmptyString
  | String c s' =>
      if Ascii.eqb c "/"%char then sep ++ replace_slashes sep s'
      else String c (replace_slashes sep s')
  end.

(** What the runner touches besides its own fields: the tree, the calls
    received by the run object it was handed, and the lines given to
    [log.error]. *)
Record World := mkWorld {
  tree : State;
  calls : list RunCall;
  logged_errors : list string
}.

Definition with_tree (v : State) (w : World) : World :=
  mkWorld v (calls w) (logged_errors w).

Definition call (c : RunCall) (w : World) : World :=
  mkWorld (tree w) (calls w ++ [c])%list (logged_errors w).

Definition log_error (msg : string) (w : World) : World :=
  mkWorld (tree w) (calls w) (logged_errors w ++ [msg])%list.

Section Resolver.

(** [stripAnsi] of the [strip-ansi] package and [path.sep] of the host. *)
Variable stripAnsi : string → string.
Variable path_sep : string.

Definition getSourceFilepathAndLocationFromStack (stack : ParsedStack)
  : string * number * number :=
  (replace_slashes path_sep (ps_file stack), ps_line stack, ps_column stack).

(** The [for] loop of [parseLocationFromStacks]. *)
Fixpoint scanStacks (targetFilepath : string) (stacks : list ParsedStack)
  : option DebuggerLocation :=
  match stacks with
  | [] => None
  | stack :: rest =>
      let '(sourceFilepath, line, column) :=
        getSourceFilepathAndLocationFromStack stack in
      if negb (sourceFilepath =? targetFilepath)%string
         || isNaN column || isNaN line
      then scanStacks targetFilepath rest
      else Some (mkDebuggerLocation sourceFilepath line column)
  end.

Definition parseLocationFromStacks (testItem : TestItem)
    (stacks : list ParsedStack) : option DebuggerLocation :=
  match stacks with
  | [] => None
  | _ => scanStacks (fsPath (ti_uri testItem)) stacks
  end.

(** [error.actual != null && error.expected != null &&
     error.actual !== 'undefined' && error.expected !== 'undefined'] *)
Definition has_diff (error : TestError) : option (string * string) :=
  match te_actual error, te_expected error with
  | Some actual, Some expected =>
      if negb (actual =? "undefined")%string
         && negb (expected =? "undefined")%string
      then Some (expected, actual)
      else None
  | _, _ => None
  end.

Definition testMessageForTestError (testItem : TestItem)
    (error : option TestError) : TestMessage :=
  match error with
  | None => TestMessage_new "Unknown error"
  | Some error =>
      let testMessage :=
        match has_diff error with
        | Some (expected, actual) =>
            TestMessage_diff (stripAnsi (te_message error)) expected actual
        | None => TestMessage_new (stripAnsi (te_message error))
        end in
      match parseLocationFromStacks testItem (default [] (te_stacks error)) with
      | Some location =>
          let position :=
            mkPosition (pred_number (dl_line location))
                       (pred_number (dl_column location)) in
          set_location (mkLocation (Uri_file (dl_path location)) position)
            testMessage
      | None => testMessage
      end
  end.

(** [markSuite(_testRun, test, result)] *)
Definition markSuite (test : ref) (result : option TaskResult) (w : World)
  : World :=
  match result with
  | None => w
  | Some result =>
      if (tr_state result =? "fail")%string then
        match tr_errors result with
        | None | Some [] => w
        | Some errors =>
            with_tree
              (upd test
                 (set_error (Some (join_lines (map stack_or_message errors))))
                 (tree w)) w
        end
      else w
  end.

(** [markTestCase(testRun, test, result)].  [test] is a live object; the
    branch for a dangling reference is never taken. *)
Definition markTestCase (test : ref) (result : TaskResult) (w : World) : World :=
  match heap (tree w) !! test with
  | None => w
  | Some testItem =>
      let state := tr_state result in
      if (state =? "fail")%string then
        let errors :=
          match tr_errors result with
          | Some errs =>
              map (λ err, testMessageForTestError testItem (Some err)) errs
          | None => []
          end in
        if Nat.eqb (length errors) 0 then w
        else call (Failed test errors (tr_duration result)) w
      else if (state =? "pass")%string then
        call (Passed test (tr_duration result)) w
      else if ((state =? "todo") || (state =? "skip"))%string then
        call (Skipped test) w
      else if ((state =? "only") || (state =? "run"))%string then
        call (Started test) w
      else
        log_error ("Unknown test result for " ++ ti_label testItem ++ ": " ++ state) w
  end.

(** [markResult(testRun, test, result)] *)
Definition markResult (test : ref) (result : option TaskResult) (w : World)
  : World :=
  let isTestCase :=
    match getTestData (tree w) test with
    | Some d => isTestCase d
    | None => false
    end in
  if negb isTestCase then markSuite test result w
  else
    match result with
    | None => call (Started test) w
    | Some result => markTestCase test result w
    end.

End Resolver.

End TestRunner.

(** ** The test runner: the life cycle of the active run *)

Module RunLifecycle.

(** Run requests: one made by the user, or the aggregate that
    [createContinuousRequest] builds from the continuous ones. *)
Inductive Request :=
  | UserRequest (n : nat)
  | AggregateRequest (members : list nat).

(** Identities of the [vscode.TestRun] objects and of the deferred
    completion signals ([Promise.withResolvers()]). *)
Definition RunId := nat.
Definition DeferId := nat.

(** A [vscode.TestRun] object: what it was created for, the files whose
    items were enqueued on it, and whether [end()] was called. *)
Record Run := mkRun {
  run_request : Request;
  run_files : list string;
  run_enqueued : list string;
  run_open : bool
}.

(** An [async] call parked at an [await]:
    - [StartAwait signal files request] is a [startTestRun] at
      [await this.testRunDefer?.promise], with the signal it read (none
      when [testRunDefer] was undefined);
    - [RunItemsAwait signal request] is a [runTestItems] at
      [await this.testRunDefer.promise];
    - [FinishedAwait] is the [onFinished] callback at
      [await this.reportCoverage(files)]. *)
Inductive Parked :=
  | StartAwait (signal : option DeferId) (files : list string) (request : Request)
  | RunItemsAwait (signal : DeferId) (request : Request)
  | FinishedAwait.

(** The runner's fields, the run objects and signals made so far (an
    identity is an index), and the parked calls. *)
Record Runner := mkRunner {
  continuousRequests : list nat;
  nonContinuousRequest : option Request;
  testRun : option RunId;
  testRunDefer : option DeferId;
  runs : list Run;
  signals : list bool;
  parked : list Parked
}.

Definition init : Runner := mkRunner [] None None None [] [] [].

Definition with_continuousRequests (v : list nat) (rn : Runner) : Runner :=
  mkRunner v (nonContinuousRequest rn) (testRun rn) (testRunDefer rn)
    (runs rn) (signals rn) (parked rn).

Definition with_nonContinuousRequest (v : option Request) (rn : Runner) : Runner :=
  mkRunner (continuousRequests rn) v (testRun rn) (testRunDefer rn)
    (runs rn) (signals rn) (parked rn).

Definition with_testRun (v : option RunId) (rn : Runner) : Runner :=
  mkRunner (continuousRequests rn) (nonContinuousRequest rn) v (testRunDefer rn)
    (runs rn) (signals rn) (parked rn).

Definition with_testRunDefer (v : option DeferId) (rn : Runner) : Runner :=
  mkRunner (continuousRequests rn) (nonContinuousRequest rn) (testRun rn) v
    (runs rn) (signals rn) (parked rn).

Definition with_runs (v : list Run) (rn : Runner) : Runner :=
  mkRunner (continuousRequests rn) (nonContinuousRequest rn) (testRun rn)
    (testRunDefer rn) v (signals rn) (parked rn).

Definition with_signals (v : list bool) (rn : Runner) : Runner :=
  mkRunner (continuousRequests rn) (nonContinuousRequest rn) (testRun rn)
    (testRunDefer rn) (runs rn) v (parked rn).

Definition with_parked (v : list Parked) (rn : Runner) : Runner :=
  mkRunner (continuousRequests rn) (nonContinuousRequest rn) (testRun rn)
    (testRunDefer rn) (runs rn) (signals rn) v.

Definition park (p : Parked) (rn : Runner) : Runner :=
  with_parked (parked rn ++ [p])%list rn.

(** [run.end()] and [defer.resolve()] *)
Definition end_run (r : RunId) (rn : Runner) : Runner :=
  with_runs (alter (λ run, mkRun (run_request run) (run_files run)
                             (run_enqueued run) false) r (runs rn)) rn.

Definition resolve (d : DeferId) (rn : Runner) : Runner :=
  with_signals (<[d := true]> (signals rn)) rn.

Definition resolved (rn : Runner) (d : DeferId) : bool :=
  default false (signals rn !! d).

(** The run objects on which [end()] has not been called. *)
Definition open_runs (rn : Runner) : list RunId :=
  filter (λ i, (run_open <$> runs rn !! i) = Some true) (seq 0 (length (runs rn))).

(** [endTestRun()] *)
Definition endTestRun (rn : Runner) : Runner :=
  let rn := match testRun rn with Some r => end_run r rn | None => rn end in
  let rn := match testRunDefer rn with Some d => resolve d rn | None => rn end in
  let rn := with_testRun None rn in
  with_testRunDefer None rn.

(** The disposer given to [super] in the constructor. *)
Definition dispose (rn : Runner) : Runner :=
  let rn := match testRun rn with Some r => end_run r rn | None => rn end in
  let rn := with_testRun None rn in
  let rn := match testRunDefer rn with Some d => resolve d rn | None => rn end in
  let rn := with_testRunDefer None rn in
  let rn := with_nonContinuousRequest None rn in
  with_continuousRequests [] rn.

(** [createContinuousRequest()] *)
Definition createContinuousRequest (rn : Runner) : option Request :=
  match continuousRequests rn with
  | [] => None
  | members => Some (AggregateRequest members)
  end.

(** [file[file.length - 1] === '/'] *)
Fixpoint ends_with_slash (file : string) : bool :=
  match file with
  | EmptyString => false
  | String c EmptyString => Ascii.eqb c "/"%char
  | String _ rest => ends_with_slash rest
  end.

Section Lifecycle.

(** [getTestFilesInFolder(path)], and the test of the loop of
    [startTestRun] that a file takes part in the request
    ([!request.include || isFileIncluded(file, request.include)]); both
    read the tree only. *)
Variable getTestFilesInFolder : string → list string.
Variable included : Request → string → bool.

(** [startTestRun] from [createTestRun] on.  A folder path makes a nested
    [startTestRun(files, request)], which is not awaited: it finds its
    request given and [this.testRun] set (assigned just above; nothing in
    the loop clears it), so it parks at its [await]. The enqueue calls go to
    the new run object. *)
Definition openRun (files : list string) (request : Request) (rn : Runner)
  : Runner :=
  let run := length (runs rn) in
  let rn := with_runs (runs rn ++ [mkRun request files [] true])%list rn in
  let rn := with_testRun (Some run) rn in
  foldl (λ rn file,
           if ends_with_slash file then
             park (StartAwait (testRunDefer rn) (getTestFilesInFolder file) request) rn
           else if included request file then
             with_runs (alter (λ r, mkRun (run_request r) (run_files r)
                                      (run_enqueued r ++ [file])%list (run_open r))
                              run (runs rn)) rn
           else rn)
        rn files.

(** [startTestRun(files, primaryRequest)] up to its first [await]. *)
Definition startTestRun (files : list string) (primaryRequest : option Request)
    (rn : Runner) : Runner :=
  let request :=
    match primaryRequest with
    | Some r => Some r
    | None =>
        match nonContinuousRequest rn with
        | Some r => Some r
        | None => createContinuousRequest rn
        end
    end in
  match request with
  | None => rn
  | Some request =>
      match testRun rn with
      | Some _ => park (StartAwait (testRunDefer rn) files request) rn
      | None => openRun files request rn
      end
  end.

(** [startTestRun] after its [await]. *)
Definition startTestRun_resumed (files : list string) (request : Request)
    (rn : Runner) : Runner :=
  openRun files request (endTestRun rn).

(** [this.testRunDefer = Promise.withResolvers()] *)
Definition newDefer (rn : Runner) : Runner :=
  let d := length (signals rn) in
  with_testRunDefer (Some d) (with_signals (signals rn ++ [false])%list rn).

(** [runTestItems(request)] up to its first [await], and after it. *)
Definition runTestItems (request : Request) (rn : Runner) : Runner :=
  match testRunDefer rn with
  | Some d => park (RunItemsAwait d request) rn
  | None => newDefer rn
  end.

Definition runTestItems_resumed (request : Request) (rn : Runner) : Runner :=
  newDefer rn.

(** What the event loop can run next. *)
Inductive Event :=
  | WatcherRerun (files : list string) (collecting : bool)
  | RunTests (request : Request)
  | RunTestsReturned
  | WatchContinuous (request : nat)
  | CancelContinuous (request : nat)
  | CancelRun
  | Finished (collecting : bool)
  | Dispose
  | Resume (k : nat).

(** An [await] lets its call go on once the awaited promise is settled;
    awaiting [undefined] is settled at once, and the coverage report comes
    at a time of its own. *)
Definition settled (rn : Runner) (p : Parked) : bool :=
  match p with
  | StartAwait None _ _ => true
  | StartAwait (Some d) _ _ => resolved rn d
  | RunItemsAwait d _ => resolved rn d
  | FinishedAwait => true
  end.

(** One turn of the event loop; [None] when the event cannot happen. *)
Definition step (e : Event) (rn : Runner) : option Runner :=
  match e with
  | WatcherRerun files collecting =>
      Some (if collecting then rn else startTestRun files None rn)
  | RunTests request =>
      Some (runTestItems request (with_nonContinuousRequest (Some request) rn))
  | RunTestsReturned => Some (with_nonContinuousRequest None rn)
  | WatchContinuous request =>
      Some (with_continuousRequests
              (if bool_decide (request ∈ continuousRequests rn)
               then continuousRequests rn
               else (continuousRequests rn ++ [request])%list) rn)
  | CancelContinuous request =>
      let rn := with_continuousRequests
                  (filter (λ r, r ≠ request) (continuousRequests rn)) rn in
      Some (match continuousRequests rn with
            | [] => endTestRun rn
            | _ => rn
            end)
  | CancelRun => Some (with_nonContinuousRequest None (endTestRun rn))
  | Finished collecting =>
      Some (match testRun rn with
            | Some _ => if collecting then endTestRun rn else park FinishedAwait rn
            | None => rn
            end)
  | Dispose => Some (dispose rn)
  | Resume k =>
      match parked rn !! k with
      | Some p =>
          if settled rn p then
            let rn := with_parked (delete k (parked rn)) rn in
            Some (match p with
                  | StartAwait _ files request => startTestRun_resumed files request rn
                  | RunItemsAwait _ request => runTestItems_resumed request rn
                  | FinishedAwait => endTestRun rn
                  end)
          else None
      | None => None
      end
  end.

Fixpoint exec (events : list Event) (rn : Runner) : option Runner :=
  match events with
  | [] => Some rn
  | e :: rest =>
      match step e rn with
      | Some rn => exec rest rn
      | None => None
      end
  end.

End Lifecycle.

End RunLifecycle.

(** * The invariant of the run lifecycle *)

Module RunLifecycleSpec.
Import RunLifecycle.

(** The run objects that are open are the one in [this.testRun]. *)
Record Exclusive (rn : Runner) : Prop := mkExclusive {
  open_is_current :
    ∀ i run, runs rn !! i = Some run → run_open run = true → testRun rn = Some i;
  current_is_open :
    ∀ i, testRun rn = Some i → run_open <$> runs rn !! i = Some true
}.

(** Every run made so far has ended. *)
Definition all_ended (rn : Runner) : Prop :=
  ∀ i run, runs rn !! i = Some run → run_open run = false.

End RunLifecycleSpec.

(** ** The properties claimed of the runner's results, in the spec's words *)

Module RunnerSpec.
Import Host Vitest TestTreeData TestTree TestRunner.


(** A frame "whose path [after normalizing file separators to the host
    separator] equals the target node's file path and whose line and column
    are both valid numbers". *)
Definition frame_matches (path_sep : string) (testItem : TestItem)
    (frame : ParsedStack) : bool :=
  (replace_slashes path_sep (ps_file frame) =? fsPath (ti_uri testItem))%string
  && negb (isNaN (ps_line frame)) && negb (isNaN (ps_column frame)).



(** The errors of a result, none when the field is absent. *)
Definition reported_errors (result : TaskResult) : list TestError :=
  default [] (tr_errors result).

(** The errors a suite result carries when "its result is [fail] and it
    carries discovery-time errors". *)
Definition discovery_errors (result : option TaskResult)
  : option (list TestError) :=
  match result with
  | Some r =>
      if (tr_state r =? "fail")%string then
        match reported_errors r with
        | [] => None
        | errors => Some errors
        end
      else None
  | None => None
  end.

End RunnerSpec.

(** ** The properties claimed of the tree, and what their statements need *)

Module TreeSpec.
Import Host Vitest TestTreeData TestTree.

(** The [parent] and the [id] of the object behind a reference. *)
Definition parent_of (st : State) (r : ref) : option ref :=
  heap st !! r ≫= ti_parent.

Definition id_of (st : State) (r : ref) : option string :=
  ti_id <$> heap st !! r.

(** The ancestors of an item, nearest first, up to the one without a
    parent; [None] when [fuel] links do not reach it. *)
Fixpoint ancestors (fuel : nat) (st : State) (item : ref) : option (list ref) :=
  match fuel with
  | O => None
  | S fuel' =>
      match heap st !! item with
      | None => None
      | Some it =>
          match ti_parent it with
          | None => Some []
          | Some p => (λ l, p :: l) <$> ancestors fuel' st p
          end
      end
  end.

(** [x] is the child that [p.children] holds under [x.id]. *)
Definition child_of (st : State) (x p : ref) : Prop :=
  ∃ it, heap st !! x = Some it ∧ children_of st p !! ti_id it = Some x.

(** Every item of the path [x :: chain] is a child of the next one. *)
Fixpoint linked (st : State) (x : ref) (chain : list ref) : Prop :=
  match chain with
  | [] => True
  | p :: rest => child_of st x p ∧ linked st p rest
  end.

(** The item owns its children collection. *)
Definition is_own (it : TestItem) : bool :=
  match ti_children it with
  | OwnChildren _ => true
  | ControllerItems => false
  end.

(** The tasks of a report, each before its sub-tasks, and their ids. *)
Fixpoint subtasks (t : Task) : list Task :=
  t :: match task_tasks t with
       | Some ts => flat_map subtasks ts
       | None => []
       end.

Definition all_tasks (tasks : list Task) : list Task := flat_map subtasks tasks.

Definition ids_task (t : Task) : list string := map task_id (subtasks t).

Definition ids_forest (tasks : list Task) : list string :=
  map task_id (all_tasks tasks).

(** Every object of the store was made by an allocation. *)
Definition heap_wf (st : State) : Prop :=
  map_Forall (λ x _, (x < next st)%nat) (heap st).

(** What [flatTestItems] holds under the task id [k], if anything, is a
    task node: an item with that id and a children collection of its own. *)
Definition reusable (st : State) (k : string) : bool :=
  match flatTestItems st !! k with
  | None => true
  | Some r =>
      match heap st !! r with
      | Some it => (ti_id it =? k)%string && is_own it
      | None => false
      end
  end.

(** The state and the report fit [collectTasks(tag, fileData, tasks,
    parent)]: task ids are identities (no id twice in the report, none the
    parent's), and the nodes they name are task nodes. *)
Definition ready (st : State) (parent : ref) (ids : list string) : Prop :=
  NoDup ids
  ∧ heap_wf st
  ∧ (∃ pit, heap st !! parent = Some pit ∧ is_own pit = true ∧ ti_id pit ∉ ids)
  ∧ Forall (λ k, reusable st k = true) ids.



(** The writes of [collectTasks] to the item of a task, in order. *)
Definition settle (tag : TestTag) (parentTags : list TestTag)
    (parent : option ref) (t : Task) (it : TestItem) : TestItem :=
  let it := set_tags (dedupe (parentTags ++ [tag])%list) it in
  let it := set_error None it in
  let it := set_label (task_name t) it in
  let it :=
    match task_location t with
    | Some location =>
        set_range (Some (mkRange (task_position location) (task_position location))) it
    | None => set_sortText (Some (task_id t)) it
    end in
  let it := set_parent parent it in
  match result_errors (task_result t) with
  | Some errors => set_error (Some (joined_stacks errors)) it
  | None => it
  end.

(** The side-table entry [collectTasks] registers for a task, if any. *)
Definition task_data (fileData : TestFileData) (parent : ref) (t : Task)
  : option TestData :=
  if (task_type t =? "suite")%string then Some (TestSuite parent fileData)
  else if ((task_type t =? "test") || (task_type t =? "custom"))%string
  then Some (TestCase parent fileData)
  else None.

(** The node [r] of task [t] under parent [p] is as [collectTasks] leaves
    it: indexed, a child of [p], refreshed (another pass through the writes
    changes no field), and registered. *)
Definition node_settled (tag : TestTag) (fileData : TestFileData) (st : State)
    (p : ref) (t : Task) (r : ref) : Prop :=
  flatTestItems st !! task_id t = Some r
  ∧ children_of st p !! task_id t = Some r
  ∧ p ≠ r
  ∧ (∃ pit, heap st !! p = Some pit ∧ is_own pit = true)
  ∧ (∃ it, heap st !! r = Some it
           ∧ settle tag (tags_of st p) (Some p) t it = it
           ∧ ti_id it = task_id t ∧ is_own it = true)
  ∧ (∀ d, task_data fileData p t = Some d → testData st !! r = Some d).

(** The same for the task and, when it reports sub-tasks, for them under
    its node, whose children are then exactly theirs. *)
#[warnings="-register-all"]
Inductive settled (tag : TestTag) (fileData : TestFileData) (st : State)
  : ref → Task → Prop :=
  | settled_node p t r :
      node_settled tag fileData st p t r →
      (∀ ts, task_tasks t = Some ts →
             dom (children_of st r) = list_to_set (map task_id ts)
             ∧ Forall (settled tag fileData st r) ts) →
      settled tag fileData st p t.

(** How [collectTasks] on [p] with tasks of ids [ids] moves the store from
    [st] to [st']. *)
Record Evolves (st st' : State) (p : ref) (ids : list string) : Prop :=
  mkEvolves {
  ev_next : (next st ≤ next st')%nat;
  ev_wf : heap_wf st';
  (** the index changes at the reported ids only, to old or new items *)
  ev_flat : ∀ k, k ∉ ids → flatTestItems st' !! k = flatTestItems st !! k;
  ev_fresh :
    ∀ k (r : ref), flatTestItems st' !! k = Some r →
           flatTestItems st !! k = Some r ∨ (next st ≤ r)%nat;
  (** no item changes its id or the kind of its collection *)
  ev_kind :
    ∀ (x : ref) it, heap st !! x = Some it →
            ∃ it', heap st' !! x = Some it'
                   ∧ ti_id it' = ti_id it ∧ is_own it' = is_own it;
  (** items that are neither [p] nor named by a reported id are as before *)
  ev_frame :
    ∀ x : ref, (x < next st)%nat →
         (∀ k, k ∈ ids → flatTestItems st !! k ≠ Some x) → x ≠ p →
         heap st' !! x = heap st !! x ∧ testData st' !! x = testData st !! x;
  (** of [p] only the children change *)
  ev_parent :
    ∀ pit, heap st !! p = Some pit →
           ∃ c, heap st' !! p = Some (set_children c pit);
  ev_parent_data : testData st' !! p = testData st !! p;
  (** the rest of the tree's fields is as before *)
  ev_rest :
    controllerItems st' = controllerItems st
    ∧ fileItems st' = fileItems st ∧ folderItems st' = folderItems st
    ∧ testItemsByFile st' = testItemsByFile st
    ∧ loaderItem st' = loaderItem st ∧ watcherByFolder st' = watcherByFolder st
}.






(** What a deletion that climbs from [item] through [chain] leaves: the
    path [item :: chain] splits into the items taken out of their parent's
    children, [deleted], and the rest, [kept]. *)
Record Pruned (st : State) (item : ref) (chain : list ref) (st' : State)
    (deleted kept : list ref) : Prop := mkPruned {
  (** the deleted items are the first of the path, the last is kept *)
  pruned_split : (item :: chain = deleted ++ kept)%list;
  pruned_root_kept : kept ≠ [];
  (** an item with a parent is deleted; one without is left as it is *)
  pruned_node : chain ≠ [] → item ∈ deleted;
  pruned_noop : chain = [] → st' = st;
  (** a deleted item is gone from the children of the next on the path *)
  pruned_gone :
    ∀ i x p key,
      (i < length deleted)%nat →
      (item :: chain) !! i = Some x → (item :: chain) !! S i = Some p →
      id_of st x = Some key →
      children_of st' p !! key = None;
  (** the ancestors that were deleted had become childless *)
  pruned_childless :
    ∀ x, x ∈ deleted → x ≠ item → children_of st' x = ∅;
  (** the climb stopped at an item without parent or with children left *)
  pruned_stop :
    ∀ k, head kept = Some k →
         parent_of st k = None ∨ children_of st' k ≠ ∅;
  (** what is kept is still where it was, and nothing was added *)
  pruned_kept :
    ∀ x q key, x ∈ kept → children_of st q !! key = Some x →
               children_of st' q !! key = Some x;
  pruned_mono :
    ∀ q key y, children_of st' q !! key = Some y →
               children_of st q !! key = Some y
}.

(** ** Auxiliary notions of the proofs *)

(** The id and the parent of every object, which deletion never writes. *)
Definition shape (st : State) (r : ref) : option (string * option ref) :=
  (λ it, (ti_id it, ti_parent it)) <$> heap st !! r.

(** Deletion takes entries out of the index maps and puts none in. *)
Definition shrinks (st st' : State) : Prop :=
  (∀ k v, fileItems st' !! k = Some v → fileItems st !! k = Some v)
  ∧ (∀ k v, testItemsByFile st' !! k = Some v → testItemsByFile st !! k = Some v)
  ∧ testData st' = testData st.

(** The id and the label of an item, which only its creation sets here. *)
Definition face (it : TestItem) : string * string := (ti_id it, ti_label it).

(** The state after one node, given the item the task id finds or makes. *)
Definition refreshed (tag : TestTag) (fileData : TestFileData) (p : ref)
    (pit : TestItem) (t : Task) (r : ref) (rit : TestItem) (nxt : ref)
    (st : State) : State :=
  mkState
    (<[p := map_own (insert (ti_id rit) r) pit]>
       (<[r := settle tag (ti_tags pit) (Some p) t rit]> (heap st)))
    nxt
    (match task_data fileData p t with
     | Some d => <[r := d]> (testData st)
     | None => testData st
     end)
    (controllerItems st) (loaderItem st)
    (<[task_id t := r]> (flatTestItems st))
    (fileItems st) (folderItems st) (testItemsByFile st) (watcherByFolder st).

(** The item [createTestItem(task.id, task.name, parent.uri)] makes. *)
Definition fresh_item (pit : TestItem) (t : Task) : TestItem :=
  mkTestItem (task_id t) (task_name t) (ti_uri pit) (OwnChildren ∅) None []
    None None None false false.

(** What is to be shown of one task, of the loop over a list of tasks, and
    of [collectTasks] on the list. *)
Definition settles_task (t : Task) : Prop :=
  ∀ tag fd p st,
    ready st p (ids_task t) →
    let st' := collectTask tag fd p t st in
    settled tag fd st' p t
    ∧ Evolves st st' p (ids_task t)
    ∧ (∀ k, k ≠ task_id t → children_of st' p !! k = children_of st p !! k).

Definition settles_loop (ts : list Task) : Prop :=
  ∀ tag fd p st,
    ready st p (ids_forest ts) →
    let st' := collectLoop tag fd p ts st in
    Forall (settled tag fd st' p) ts
    ∧ Evolves st st' p (ids_forest ts)
    ∧ (∀ k, k ∉ map task_id ts → children_of st' p !! k = children_of st p !! k).

Definition settles_tasks (ts : list Task) : Prop :=
  ∀ tag fd p st,
    ready st p (ids_forest ts) →
    let st' := collectTasks tag fd ts p st in
    Forall (settled tag fd st' p) ts
    ∧ dom (children_of st' p) = list_to_set (map task_id ts)
    ∧ Evolves st st' p (ids_forest ts).

End TreeSpec.

(** ** Concrete inputs *)

Module Examples.
Import Host Vitest TestTreeData TestTree.

(** [pathe] on POSIX paths that are already normal: [normalize] leaves
    them alone, [dirname] drops the last segment and [basename] is it. *)
Definition normalize (p : string) : string := p.

Fixpoint before_last_slash (s : string) : option string :=
  match s with
  | EmptyString => None
  | String c s' =>
      match before_last_slash s' with
      | Some d => Some (String c d)
      | None => if Ascii.eqb c "/"%char then Some EmptyString else None
      end
  end.

Definition dirname (p : string) : string :=
  match before_last_slash p with
  | Some EmptyString => "/"
  | Some d => d
  | None => "."
  end.

Fixpoint basename (p : string) : string :=
  match p with
  | EmptyString => EmptyString
  | String c s' =>
      match before_last_slash s' with
      | Some _ => basename s'
      | None => if Ascii.eqb c "/"%char then s' else String c s'
      end
  end.

Definition stripAnsi (s : string) : string := s.

(** A tree just constructed: the store holds the loader item only. *)
Definition fresh : State :=
  mkState
    {[ 0 := mkTestItem "_resolving" "Resolving Vitest..." (mkUri "") (OwnChildren ∅)
              None [] None None None false false ]}
    1 ∅ ∅ 0 ∅ ∅ ∅ ∅ [].

Definition ws : Uri := mkUri "/ws".
Definition api : VitestFolderAPI := mkAPI (mkTag "vitest") ws.

(** One workspace folder [/ws]. *)
Definition single : State := reset normalize basename [ws] fresh.

(** Two workspace folders [/ws] and [/lib]. *)
Definition multi : State := reset normalize basename [ws; mkUri "/lib"] fresh.

(** A test file right in the workspace folder, and one in a sub-folder. *)
Definition root_file : string := "/ws/a.test.js".
Definition nested_file : string := "/ws/src/a.test.js".

Definition add_file (project file : string) (st : State) : State :=
  from_option snd st
    (getOrCreateFileTestItem normalize dirname basename 5 api project file st).

Definition item_of (st : State) (r : ref) : TestItem :=
  default (mkTestItem "" "" (mkUri "") (OwnChildren ∅) None [] None None None
             false false)
          (heap st !! r).

(** With one workspace folder the file node (object 2) goes into
    [controller.items], the children of the inline root (object 1). *)
Definition rooted : State := add_file "" root_file single.

(** With two, the file node (object 4) is under the folder node of
    [/ws/src] (object 3), which is under that of [/ws] (object 1); a second
    project gives the same file another node (object 5). *)
Definition nested : State := add_file "" nested_file multi.
Definition nested_twice : State := add_file "unit" nested_file nested.

(** A report for [root_file]: a suite of two tests, one with a location,
    the other failed; and a later report without the second test. *)
Definition failure : TestError :=
  mkTestError "expected 1 to be 2" (Some "AssertionError: expected 1 to be 2")
    (Some "1") (Some "2")
    (Some [mkParsedStack "/ws/node_modules/chai.js" (Num 1) (Num 1);
           mkParsedStack root_file (Num 10) (Num 3);
           mkParsedStack root_file (Num 20) (Num 5)]).

Definition failed : TaskResult := mkTaskResult "fail" (Some [failure]) (Some (Num 12)).

Definition sum_test : Task :=
  mkTask "t1" "adds" "test" "run" (Some (mkTaskLocation (Num 10) (Num 3))) None None.

Definition product_test : Task :=
  mkTask "t2" "multiplies" "test" "run" None (Some failed) None.

Definition math_suite (tasks : list Task) : Task :=
  mkTask "s1" "math" "suite" "run" None None (Some tasks).

Definition first_report : list Task := [math_suite [sum_test; product_test]].
Definition second_report : list Task := [math_suite [sum_test]].

Definition root_data : TestFileData := mkTestFileData 1 root_file api "".

Definition report : File := mkFile "f1" root_file None first_report None.


(** The tree after [collectFile] of the report: the suite is object 3, the
    tests are objects 4 and 5. *)
Definition collected : State :=
  default rooted (collectFile normalize dirname basename 5 api report single).

Definition world : TestRunner.World := TestRunner.mkWorld collected [] [].

(** Runs: the user runs tests, a first rerun opens a run, a second one
    waits; the run finishes and its coverage is reported. *)
Definition files_in (folder : string) : list string := [].
Definition all_included (request : RunLifecycle.Request) (file : string) : bool := true.

Definition events : list RunLifecycle.Event :=
  [RunLifecycle.RunTests (RunLifecycle.UserRequest 0);
   RunLifecycle.WatcherRerun [root_file] false;
   RunLifecycle.WatcherRerun [nested_file] false;
   RunLifecycle.Finished false;
   RunLifecycle.Resume 1].

Definition waiting : RunLifecycle.Runner :=
  default RunLifecycle.init
    (RunLifecycle.exec files_in all_included events RunLifecycle.init).


End Examples.

(** * More of the runner ([src/runner/runner.ts]): texts and requests *)

Module RunnerText.
Import Host Vitest TestTreeData TestTree.

Definition CR : ascii := ascii_of_nat 13.
Definition LF : ascii := ascii_of_nat 10.

(** [output.replace(/(?<!\r)\n/g, '\r\n')]: every line feed that does not
    follow a carriage return in [output] becomes the pair; [after_cr] tells
    whether the character read just before was a carriage return. *)
Fixpoint formatFrom (after_cr : bool) (output : string) : string :=
  match output with
  | EmptyString => EmptyString
  | String c rest =>
      if Ascii.eqb c LF && negb after_cr
      then String CR (String LF (formatFrom false rest))
      else String c (formatFrom (Ascii.eqb c CR) rest)
  end.

Definition formatTestOutput (output : string) : string :=
  formatFrom false output.

Section Paths.

Variable normalize : string → string.

(** The path [getTestFiles] gives one test item: its normalized [fsPath],
    with a closing slash for a folder. *)
Definition test_path (st : State) (test : ref) : string :=
  let fsPath := normalize (fsPath (uri_of st test)) in
  match getTestData st test with
  | Some (TestFolder _) => fsPath ++ "/"
  | _ => fsPath
  end.

(** [getTestFiles(tests)]; [filter(Boolean)] drops the empty strings. *)
Definition getTestFiles (tests : list ref) (st : State) : list string :=
  dedupe (filter (λ p, p ≠ "") (map (test_path st) tests)).

End Paths.

End RunnerText.

(** * More of the runner: the listeners set up by the constructor *)

Module RunnerEvents.
Import Host Vitest TestTreeData TestTree TestRunner.

Section Handlers.

Variable stripAnsi : string → string.
Variable path_sep : string.

(** The listener given to [api.onTaskUpdate], run on [packs] of
    [[testId, result]]; [testRun] tells whether [this.testRun] is set, and
    the calls of [markResult] go to that run. *)
Definition onTaskUpdate (testRun : bool)
    (packs : list (string * option TaskResult)) (w : World) : World :=
  foldl (λ w pack,
           match getTestItemByTaskId pack.1 (tree w) with
           | None =>
               log_error ("Cannot find task during onTaskUpdate " ++ pack.1) w
           | Some test =>
               if testRun then markResult stripAnsi path_sep test pack.2 w
               else w
           end)
        w packs.

End Handlers.

End RunnerEvents.

(** ** What the further theorems speak of *)

Module TextSpec.
Import RunnerText.

(** The text without its carriage returns. *)
Fixpoint strip_cr (s : string) : string :=
  match s with
  | EmptyString => EmptyString
  | String c rest =>
      if Ascii.eqb c CR then strip_cr rest else String c (strip_cr rest)
  end.

(** Every line feed of the text comes right after a carriage return. *)
Definition crlf_only (s : string) : Prop :=
  ∀ i, String.get i s = Some LF →
       ∃ j, i = S j ∧ String.get j s = Some CR.

End TextSpec.

Module EventSpec.
Import Host Vitest TestTreeData TestTree TestRunner.

(** The test item a call on the run is about. *)
Definition call_target (c : RunCall) : option ref :=
  match c with
  | Enqueued test | Started test | Passed test _ | Failed test _ _
  | Skipped test => Some test
  | AppendOutput _ => None
  end.

(** The node is registered as a test case. *)
Definition is_test_case (st : State) (test : ref) : bool :=
  from_option isTestCase false (getTestData st test).

(** The ids of the packs that name no item of the tree. *)
Definition unknown_ids (st : State) (packs : list (string * option TaskResult))
  : list string :=
  (filter (λ pack : string * option TaskResult, flatTestItems st !! pack.1 = None) packs).*1.

End EventSpec.

Module SignalSpec.
Import RunLifecycle.

(** A completion signal that was made, is not resolved, and is not the one
    in [this.testRunDefer] any more. *)
Definition orphaned (rn : Runner) (d : DeferId) : Prop :=
  (d < length (signals rn))%nat
  ∧ resolved rn d = false
  ∧ testRunDefer rn ≠ Some d.

(** The signal a parked call waits for, if any. *)
Definition awaited (p : Parked) : option DeferId :=
  match p with
  | StartAwait signal _ _ => signal
  | RunItemsAwait signal _ => Some signal
  | FinishedAwait => None
  end.


(** The signals made are within the list, and so is the current one. *)
Definition signals_wf (rn : Runner) : Prop :=
  ∀ d, testRunDefer rn = Some d → (d < length (signals rn))%nat.


End SignalSpec.

Module IndexSpec.
Import Host Vitest TestTreeData TestTree.

(** From [st] to [st'] the maps of task ids and of folders lose entries
    and gain none. *)
Definition forgets (st st' : State) : Prop :=
  (∀ k v, flatTestItems st' !! k = Some v → flatTestItems st !! k = Some v)
  ∧ (∀ k v, folderItems st' !! k = Some v → folderItems st !! k = Some v).


End IndexSpec.

Module ResetSpec.
Import Host Vitest TestTreeData TestTree.

Section Paths.

Variables normalize basename : string → string.

(** The callback of the [map] over the workspace folders in [reset],
    with the items collected so far. *)
Definition reset_folder : list ref * State → Uri → list ref * State :=
  λ '(acc, s) x,
    let '(item, s) := getOrCreateWorkspaceFolderItem normalize basename x s in
    let s := children_replace item [] s in
    let s := upd item (set_busy true) s in
    ((acc ++ [item])%list, s).

End Paths.

(** A node of a workspace folder as [reset] leaves it before it is put
    among the controller's items. *)
Definition folder_node (key : string) (it : TestItem) : Prop :=
  ti_id it = key ∧ ti_busy it = true ∧ ti_children it = OwnChildren ∅.

(** What holds of the items collected and the state while [reset]
    goes through the workspace folders. *)
Definition reset_inv (acc : list ref) (s : State) : Prop :=
  TreeSpec.heap_wf s
  ∧ fileItems s = ∅ ∧ flatTestItems s = ∅ ∧ testItemsByFile s = ∅
  ∧ watcherByFolder s = []
  ∧ (∀ k r, folderItems s !! k = Some r →
            r ∈ acc ∧ ∃ it, heap s !! r = Some it ∧ folder_node k it)
  ∧ (∀ r, r ∈ acc → ∃ k, folderItems s !! k = Some r).

End ResetSpec.

(** * Further examples *)

Module MoreExamples.
Import Host Vitest TestTreeData TestTree Examples.

(** Three overlapping runs of tests: the second and the third wait for the
    signal of the first; when both have gone on, the signal made by the
    second is replaced by that of the third while a rerun waits for it. *)
Definition overlapping : list RunLifecycle.Event :=
  [RunLifecycle.RunTests (RunLifecycle.UserRequest 0);
   RunLifecycle.RunTests (RunLifecycle.UserRequest 1);
   RunLifecycle.RunTests (RunLifecycle.UserRequest 2);
   RunLifecycle.WatcherRerun [root_file] false;
   RunLifecycle.Finished true;
   RunLifecycle.Resume 0;
   RunLifecycle.WatcherRerun [root_file] false;
   RunLifecycle.WatcherRerun [nested_file] false;
   RunLifecycle.Resume 0].

Definition stuck : RunLifecycle.Runner :=
  default RunLifecycle.init
    (RunLifecycle.exec files_in all_included overlapping RunLifecycle.init).

Definition afterwards : list RunLifecycle.Event :=
  [RunLifecycle.Finished true; RunLifecycle.CancelRun].

Definition later : RunLifecycle.Runner :=
  default stuck (RunLifecycle.exec files_in all_included afterwards stuck).


(** The tree after the first report of [Examples] was collected under the
    file node. *)
Definition once : State :=
  collectTasks (api_tag api) root_data first_report 2 rooted.

(** Discovery of two files in the single workspace folder. *)
Definition found : list (string * string) :=
  [("", root_file); ("unit", nested_file)].

Definition discovered : State :=
  default single
    (discoverAllTestFiles normalize dirname basename 5 api found single).

Definition watched : State :=
  default single
    (watchTestFilesInWorkspace normalize dirname basename 5 api found single).


End MoreExamples.

(** * Theorems *)

(** ** Results and failures *)

Module RunnerFacts.
Import Host Vitest TestTreeData TestTree TestRunner RunnerSpec.

Section Resolver.

Variable stripAnsi : string → string.
Variable path_sep : string.

Lemma scanStacks_find testItem stacks :
  scanStacks path_sep (fsPath (ti_uri testItem)) stacks
  = (λ f, mkDebuggerLocation (replace_slashes path_sep (ps_file f))
            (ps_line f) (ps_column f))
    <$> List.find (frame_matches path_sep testItem) stacks.
Proof.
  induction stacks as [|f rest IH]; [reflexivity|].
  cbn [scanStacks List.find getSourceFilepathAndLocationFromStack].
  unfold frame_matches at 1.
  destruct (replace_slashes path_sep (ps_file f) =? fsPath (ti_uri testItem))%string;
    cbn [negb orb andb]; [|exact IH].
  destruct (isNaN (ps_column f)), (isNaN (ps_line f)); cbn; auto.
Qed.

Lemma parseLocationFromStacks_find testItem stacks :
  parseLocationFromStacks path_sep testItem stacks
  = (λ f, mkDebuggerLocation (replace_slashes path_sep (ps_file f))
            (ps_line f) (ps_column f))
    <$> List.find (frame_matches path_sep testItem) stacks.
Proof.
  destruct stacks as [|f rest]; [reflexivity|].
  unfold parseLocationFromStacks. apply scanStacks_find.
Qed.






(** C7.  For a node that is not a test case, [markResult] makes no call on
    the run at all, hence no [passed] and no [failed]; it assigns the node's
    [error] exactly when the result is in state [fail] and carries at least
    one error (the joined [stack || message] lines), and otherwise leaves
    the tree, and so the error the node had, as it was. *)
Theorem markResult_not_test_case (test : ref) (result : option TaskResult)
    (w : World) :
  from_option isTestCase false (getTestData (tree w) test) = false →
  let w' := markResult stripAnsi path_sep test result w in
  calls w' = calls w
  ∧ filter (λ c, is_pass_or_fail c = true) (calls w')
    = filter (λ c, is_pass_or_fail c = true) (calls w)
  ∧ logged_errors w' = logged_errors w
  ∧ tree w'
    = match discovery_errors result with
      | Some errors =>
          upd test (set_error (Some (join_lines (map stack_or_message errors))))
            (tree w)
      | None => tree w
      end
  ∧ (∀ testItem, heap (tree w) !! test = Some testItem →
       ti_error <$> heap (tree w') !! test
       = Some match discovery_errors result with
              | Some errors => Some (join_lines (map stack_or_message errors))
              | None => ti_error testItem
              end).
Proof.
  intros Hk. cbn zeta. unfold markResult.
  replace (match getTestData (tree w) test with
           | Some d => isTestCase d | None => false end) with false
    by (destruct (getTestData (tree w) test); cbn in Hk; congruence).
  cbn [negb].
  assert (Hw : ∀ errors testItem, heap (tree w) !! test = Some testItem →
            ti_error <$> heap (upd test (set_error (Some errors)) (tree w)) !! test
            = Some (Some errors)).
  { intros errors testItem Hit. unfold upd. cbn.
    rewrite lookup_alter, decide_True by done. by rewrite Hit. }
  unfold markSuite, discovery_errors, reported_errors.
  destruct result as [r|];
    [|repeat split; try done; by intros testItem ->].
  destruct (tr_state r =? "fail")%string;
    [|repeat split; try done; by intros testItem ->].
  destruct (tr_errors r) as [[|e errs]|]; cbn;
    repeat split; try done; try (by intros testItem ->).
  intros testItem Hit. by apply (Hw _ testItem).
Qed.

End Resolver.

End RunnerFacts.

(** ** The life cycle of the active run *)

Module RunLifecycleFacts.
Import RunLifecycle RunLifecycleSpec.

Lemma Exclusive_init : Exclusive init.
Proof. split; cbn; intros; simplify_eq; by rewrite ?lookup_nil in *. Qed.

Lemma Exclusive_no_run rn :
  testRun rn = None → all_ended rn → Exclusive rn.
Proof.
  intros Hn Hall. split.
  - intros i run Hi Ho. apply Hall in Hi. congruence.
  - intros i Hi. congruence.
Qed.

Lemma end_run_all_ended rn r :
  Exclusive rn → testRun rn = Some r → all_ended (end_run r rn).
Proof.
  intros [Ho _] Hr i run. unfold end_run. cbn.
  rewrite list_lookup_alter. case_decide as Heq.
  - intros Hi. apply fmap_Some in Hi as (old & _ & ->). done.
  - intros Hi. destruct (run_open run) eqn:E; [|done].
    specialize (Ho _ _ Hi E). congruence.
Qed.

Lemma no_run_all_ended rn :
  Exclusive rn → testRun rn = None → all_ended rn.
Proof.
  intros [Ho _] Hn i run Hi. destruct (run_open run) eqn:E; [|done].
  specialize (Ho _ _ Hi E). congruence.
Qed.

Lemma endTestRun_spec rn :
  Exclusive rn →
  let rn' := endTestRun rn in
  testRun rn' = None ∧ testRunDefer rn' = None ∧ all_ended rn'
  ∧ length (runs rn') = length (runs rn) ∧ parked rn' = parked rn
  ∧ nonContinuousRequest rn' = nonContinuousRequest rn
  ∧ continuousRequests rn' = continuousRequests rn.
Proof.
  intros Hex. cbn zeta. unfold endTestRun.
  assert (Hall : all_ended (match testRun rn with
                            | Some r => end_run r rn | None => rn end)).
  { destruct (testRun rn) as [r|] eqn:E.
    - by apply end_run_all_ended.
    - by apply no_run_all_ended. }
  assert (Hlen : length (runs (match testRun rn with
                               | Some r => end_run r rn | None => rn end))
                 = length (runs rn)).
  { destruct (testRun rn); cbn; [|done]. by rewrite length_alter. }
  assert (Hpk : parked (match testRun rn with
                        | Some r => end_run r rn | None => rn end)
                = parked rn) by (by destruct (testRun rn)).
  assert (Hnc : nonContinuousRequest (match testRun rn with
                        | Some r => end_run r rn | None => rn end)
                = nonContinuousRequest rn) by (by destruct (testRun rn)).
  assert (Hcr : continuousRequests (match testRun rn with
                        | Some r => end_run r rn | None => rn end)
                = continuousRequests rn) by (by destruct (testRun rn)).
  set (rn1 := match testRun rn with Some r => end_run r rn | None => rn end) in *.
  destruct (testRunDefer rn1); cbn; repeat split; auto.
Qed.

Lemma endTestRun_Exclusive rn : Exclusive rn → Exclusive (endTestRun rn).
Proof.
  intros Hex. destruct (endTestRun_spec rn Hex) as (? & _ & ? & _).
  by apply Exclusive_no_run.
Qed.

Lemma dispose_Exclusive rn : Exclusive rn → Exclusive (dispose rn).
Proof.
  intros Hex. unfold dispose.
  assert (Hall : all_ended (match testRun rn with
                            | Some r => end_run r rn | None => rn end)).
  { destruct (testRun rn) as [r|] eqn:E.
    - by apply end_run_all_ended.
    - by apply no_run_all_ended. }
  set (rn1 := match testRun rn with Some r => end_run r rn | None => rn end) in *.
  apply Exclusive_no_run.
  - by destruct (testRunDefer (with_testRun None rn1)).
  - intros i run. destruct (testRunDefer (with_testRun None rn1)); cbn; apply Hall.
Qed.

Lemma dispose_runs rn : length (runs (dispose rn)) = length (runs rn).
Proof.
  unfold dispose.
  destruct (testRun rn) as [r|]; cbn;
    (destruct (testRunDefer rn); cbn; by rewrite ?length_alter).
Qed.

Section Lifecycle.

Variable getTestFilesInFolder : string → list string.
Variable included : Request → string → bool.

Abbreviation openRun := (openRun getTestFilesInFolder included).
Abbreviation startTestRun := (startTestRun getTestFilesInFolder included).
Abbreviation step := (step getTestFilesInFolder included).
Abbreviation exec := (exec getTestFilesInFolder included).

(** The loop of [startTestRun] parks nested calls and enqueues on the new
    run; it opens and ends nothing. *)
Lemma openRun_loop request run files rn :
  let rn' :=
    foldl (λ rn file,
             if ends_with_slash file then
               park (StartAwait (testRunDefer rn) (getTestFilesInFolder file) request) rn
             else if included request file then
               with_runs (alter (λ r, mkRun (run_request r) (run_files r)
                                        (run_enqueued r ++ [file])%list (run_open r))
                                run (runs rn)) rn
             else rn)
          rn files in
  testRun rn' = testRun rn ∧ testRunDefer rn' = testRunDefer rn
  ∧ signals rn' = signals rn
  ∧ length (runs rn') = length (runs rn)
  ∧ ∀ i, run_open <$> runs rn' !! i = run_open <$> runs rn !! i.
Proof.
  cbn zeta. revert rn. induction files as [|file files IH]; intros rn; [done|].
  cbn [foldl].
  match goal with |- context [foldl _ ?r files] => specialize (IH r) end.
  destruct IH as (H1 & H2 & H3 & H4 & H5).
  rewrite H1, H2, H3, H4.
  destruct (ends_with_slash file); [cbn; repeat split; auto|].
  destruct (included request file); [|repeat split; auto].
  cbn. rewrite length_alter. repeat split; auto.
  intros i. rewrite H5. cbn. rewrite list_lookup_alter.
  case_decide as Hi; [|done]. rewrite <- Hi. by destruct (runs rn !! run).
Qed.

Lemma openRun_spec files request rn :
  testRun rn = None → all_ended rn →
  let rn' := openRun files request rn in
  Exclusive rn'
  ∧ testRun rn' = Some (length (runs rn))
  ∧ length (runs rn') = S (length (runs rn))
  ∧ (∀ i, i < length (runs rn) →
       run_open <$> runs rn' !! i = run_open <$> runs rn !! i)
  ∧ signals rn' = signals rn.
Proof.
  intros Hn Hall. cbn zeta. unfold openRun.
  match goal with |- context [foldl ?f ?r files] =>
    pose proof (openRun_loop request (length (runs rn)) files r) as Hl;
    cbn zeta in Hl; set (rn' := foldl f r files) in * end.
  cbn in Hl. destruct Hl as (H1 & H2 & H3 & H4 & H5).
  rewrite length_app in H4. cbn in H4.
  assert (Hopen : ∀ i, run_open <$> runs rn' !! i
                       = if decide (i = length (runs rn)) then Some true
                         else run_open <$> runs rn !! i).
  { intros i. rewrite H5. case_decide as Hd.
    - subst. rewrite lookup_app_r by lia. by rewrite Nat.sub_diag.
    - destruct (decide (i < length (runs rn))).
      + by rewrite lookup_app_l.
      + rewrite !lookup_ge_None_2; [done| lia |].
        rewrite length_app. cbn. lia. }
  repeat split; auto; try lia.
  - intros i run Hi Ho. rewrite H1. f_equal.
    assert (Ht : run_open <$> runs rn' !! i = Some true)
      by (rewrite Hi; cbn; by rewrite Ho).
    rewrite Hopen in Ht. case_decide; [done|].
    apply fmap_Some in Ht as (old & E & Hold).
    apply Hall in E. congruence.
  - intros i Hi. rewrite H1 in Hi. simplify_eq. rewrite Hopen.
    by rewrite decide_True.
  - intros i Hi. rewrite Hopen. case_decide; [lia|done].
Qed.


Lemma Exclusive_same_runs rn rn' :
  runs rn' = runs rn → testRun rn' = testRun rn → Exclusive rn → Exclusive rn'.
Proof. intros Hr Ht [H1 H2]. split; rewrite Hr, Ht; auto. Qed.

Ltac same_runs H :=
  eapply Exclusive_same_runs; [| |exact H]; reflexivity.

Lemma startTestRun_spec files primary rn :
  Exclusive rn →
  let rn' := startTestRun files primary rn in
  Exclusive rn'
  ∧ (length (runs rn) < length (runs rn') →
       testRun rn = None
       ∧ testRun rn' = Some (length (runs rn))
       ∧ length (runs rn') = S (length (runs rn))
       ∧ ∀ i run, i < length (runs rn) → runs rn' !! i = Some run →
                  run_open run = false).
Proof.
  intros Hex. cbn zeta. unfold startTestRun.
  set (request := match primary with
                  | Some r => Some r
                  | None => match nonContinuousRequest rn with
                            | Some r => Some r
                            | None => createContinuousRequest rn
                            end
                  end).
  destruct request as [request|]; [|split; [done|lia]].
  destruct (testRun rn) as [r|] eqn:Hr.
  - split; [|cbn; lia]. eapply Exclusive_same_runs; [| |exact Hex]; done.
  - pose proof (no_run_all_ended _ Hex Hr) as Hall.
    destruct (openRun_spec files request rn Hr Hall) as (Hex' & Ht & Hl & Ho & _).
    split; [done|]. intros _. split; [done|]. split; [done|]. split; [done|].
    intros i run Hi Hrun. specialize (Ho i Hi).
    destruct (run_open run) eqn:Hopen; [|done].
    assert (Hopn : run_open <$> runs (openRun files request rn) !! i = Some true)
      by (rewrite Hrun; cbn; by rewrite Hopen).
    rewrite Ho in Hopn.
    apply fmap_Some in Hopn as (old & E & Hold).
    apply Hall in E. congruence.
Qed.

Lemma startTestRun_resumed_spec files request rn :
  Exclusive rn →
  let rn' := startTestRun_resumed getTestFilesInFolder included files request rn in
  Exclusive rn'
  ∧ testRun rn' = Some (length (runs rn))
  ∧ length (runs rn') = S (length (runs rn))
  ∧ ∀ i run, i < length (runs rn) → runs rn' !! i = Some run →
             run_open run = false.
Proof.
  intros Hex. cbn zeta. unfold startTestRun_resumed.
  destruct (endTestRun_spec rn Hex) as (Hn & _ & Hall & Hlen & _).
  destruct (openRun_spec files request _ Hn Hall) as (Hex' & Ht & Hl & Ho & _).
  rewrite Hlen in *. split; [done|]. split; [done|]. split; [done|].
  intros i run Hi Hrun. specialize (Ho i Hi).
  destruct (run_open run) eqn:Hopen; [|done].
  assert (Hopn : run_open <$> runs (openRun files request (endTestRun rn)) !! i
               = Some true)
    by (rewrite Hrun; cbn; by rewrite Hopen).
  rewrite Ho in Hopn.
  apply fmap_Some in Hopn as (old & E & Hold).
  apply Hall in E. congruence.
Qed.

Lemma runTestItems_runs request rn :
  runs (runTestItems request rn) = runs rn
  ∧ testRun (runTestItems request rn) = testRun rn.
Proof. unfold runTestItems. by destruct (testRunDefer rn). Qed.

(** What one turn of the event loop does to the run objects. *)
Lemma step_spec e rn rn' :
  Exclusive rn → step e rn = Some rn' →
  Exclusive rn'
  ∧ (length (runs rn) < length (runs rn') →
       testRun rn' = Some (length (runs rn))
       ∧ length (runs rn') = S (length (runs rn))
       ∧ ∀ i run, i < length (runs rn) → runs rn' !! i = Some run →
                  run_open run = false).
Proof.
  intros Hex Hstep. destruct e; cbn in Hstep; simplify_eq.
  - destruct collecting; [split; [done|lia]|].
    destruct (startTestRun_spec files None rn Hex) as (H1 & H2).
    split; [done|]. intros Hlt. by destruct (H2 Hlt) as (_ & ? & ? & ?).
  - destruct (runTestItems_runs request
                (with_nonContinuousRequest (Some request) rn)) as [Hr Ht].
    split; [exact (Exclusive_same_runs rn _ Hr Ht Hex)|]. rewrite Hr. cbn. lia.
  - split; [same_runs Hex|]. cbn. lia.
  - split; [same_runs Hex|]. cbn. lia.
  - set (rn1 := with_continuousRequests _ rn).
    assert (Hex1 : Exclusive rn1)
      by same_runs Hex.
    change (filter (λ r : nat, r ≠ request) (continuousRequests rn))
      with (continuousRequests rn1).
    destruct (continuousRequests rn1).
    + split; [by apply endTestRun_Exclusive|].
      destruct (endTestRun_spec rn1 Hex1) as (_ & _ & _ & -> & _). cbn. lia.
    + split; [done|]. cbn. lia.
  - destruct (endTestRun_spec rn Hex) as (_ & _ & _ & Hl & _).
    split; [|cbn in *; lia].
    pose proof (endTestRun_Exclusive rn Hex) as Hex'. same_runs Hex'.
  - destruct (testRun rn) eqn:Hr; [|split; [done|lia]].
    destruct collecting.
    + destruct (endTestRun_spec rn Hex) as (_ & _ & _ & Hl & _).
      split; [by apply endTestRun_Exclusive|]. rewrite Hl. lia.
    + split; [same_runs Hex|]. cbn. lia.
  - split; [by apply dispose_Exclusive|]. rewrite dispose_runs. lia.
  - destruct (parked rn !! k) as [p|] eqn:Hp; [|done].
    destruct (settled rn p) eqn:Hs; [|done]. simplify_eq.
    set (rn1 := with_parked _ rn).
    assert (Hex1 : Exclusive rn1)
      by same_runs Hex.
    destruct p as [signal files request|signal request|].
    + destruct (startTestRun_resumed_spec files request rn1 Hex1) as (? & ? & ? & ?).
      split; [done|]. intros _. split; [done|]. split; done.
    + split; [same_runs Hex1|]. cbn. lia.
    + destruct (endTestRun_spec rn1 Hex1) as (_ & _ & _ & Hl & _).
      split; [by apply endTestRun_Exclusive|]. rewrite Hl. cbn. lia.
Qed.

Lemma exec_Exclusive events rn rn' :
  Exclusive rn → exec events rn = Some rn' → Exclusive rn'.
Proof.
  revert rn. induction events as [|e events IH]; intros rn Hex Hrun; cbn in Hrun.
  - by simplify_eq.
  - destruct (step e rn) as [rn1|] eqn:Hs; [|done].
    eapply IH; [|done]. by eapply step_spec.
Qed.

Lemma open_runs_elem rn i :
  i ∈ open_runs rn ↔ run_open <$> runs rn !! i = Some true.
Proof.
  unfold open_runs. rewrite list_elem_of_filter, elem_of_seq. split; [tauto|].
  intros H. split; [done|]. split; [lia|]. cbn.
  destruct (runs rn !! i) eqn:E; [|done]. by apply lookup_lt_Some in E.
Qed.

Lemma Exclusive_open_runs rn i :
  Exclusive rn → i ∈ open_runs rn ↔ testRun rn = Some i.
Proof.
  intros [H1 H2]. rewrite open_runs_elem. split; [|apply H2].
  destruct (runs rn !! i) as [run|] eqn:E; [|done]. cbn. intros [=]. eauto.
Qed.




End Lifecycle.

End RunLifecycleFacts.

(** ** The test tree *)

Module TreeFacts.
Import Host Vitest TestTreeData TestTree TreeSpec.

Local Open Scope list_scope.
Local Open Scope nat_scope.

(** *** The store *)

Lemma heap_upd r f st x :
  heap (upd r f st) !! x
  = if decide (x = r) then f <$> heap st !! x else heap st !! x.
Proof.
  unfold upd. cbn. rewrite lookup_alter.
  case_decide; case_decide; subst; congruence.
Qed.

Lemma heap_upd_eq r f st : heap (upd r f st) !! r = f <$> heap st !! r.
Proof. rewrite heap_upd. by rewrite decide_True. Qed.

Lemma heap_upd_ne r f st x : x ≠ r → heap (upd r f st) !! x = heap st !! x.
Proof. intros. rewrite heap_upd. by rewrite decide_False. Qed.

(** What a write to a children collection leaves alone in an item. *)
Lemma map_own_parent f it : ti_parent (map_own f it) = ti_parent it.
Proof. unfold map_own. by destruct (ti_children it). Qed.

Lemma map_own_id f it : ti_id (map_own f it) = ti_id it.
Proof. unfold map_own. by destruct (ti_children it). Qed.

Lemma heap_upd_children p f st x :
  heap (upd_children p f st) !! x
  = if decide (x = p) then map_own f <$> heap st !! x else heap st !! x.
Proof.
  unfold upd_children. destruct (heap st !! p) as [pit|] eqn:Hp.
  - destruct (ti_children pit) eqn:Hc.
    + apply heap_upd.
    + cbn. case_decide; [|done]. subst. rewrite Hp. cbn.
      unfold map_own. by rewrite Hc.
  - case_decide; [|done]. subst. by rewrite Hp.
Qed.

Lemma parent_of_upd_children p f st x :
  parent_of (upd_children p f st) x = parent_of st x.
Proof.
  unfold parent_of. rewrite heap_upd_children. case_decide; [|done].
  destruct (heap st !! x); cbn; [|done]. apply map_own_parent.
Qed.

Lemma id_of_upd_children p f st x :
  id_of (upd_children p f st) x = id_of st x.
Proof.
  unfold id_of. rewrite heap_upd_children. case_decide; [|done].
  destruct (heap st !! x); cbn; [|done]. f_equal. apply map_own_id.
Qed.

(** The collection read back after a write to it. *)
Lemma children_of_upd_children p f st :
  is_Some (heap st !! p) →
  children_of (upd_children p f st) p = f (children_of st p).
Proof.
  intros [pit Hp]. unfold children_of.
  rewrite heap_upd_children, decide_True by done. rewrite Hp. cbn.
  unfold upd_children. rewrite Hp. unfold map_own.
  destruct (ti_children pit) eqn:Hc; cbn; [done|]. by rewrite Hc.
Qed.

(** Two items share a collection only when both hold the controller's. *)
Lemma children_of_upd_children_other p f st q :
  q ≠ p →
  children_of (upd_children p f st) q = children_of st q
  ∨ (children_of st q = children_of st p
     ∧ children_of (upd_children p f st) q = f (children_of st p)).
Proof.
  intros Hne. unfold children_of.
  rewrite heap_upd_children, decide_False by done.
  destruct (heap st !! q) as [qit|] eqn:Hq; [|by left].
  unfold upd_children. destruct (heap st !! p) as [pit|] eqn:Hp; [|by left].
  destruct (ti_children pit) eqn:Hc.
  - left. by destruct (ti_children qit).
  - destruct (ti_children qit); [by left|]. right. by cbn.
Qed.

Lemma children_of_ext st1 st2 q :
  heap st1 = heap st2 → controllerItems st1 = controllerItems st2 →
  children_of st1 q = children_of st2 q.
Proof. intros Hh Hc. unfold children_of, collection. by rewrite Hh, Hc. Qed.

(** *** [children.delete] *)

Lemma children_delete_gone p key st :
  is_Some (heap st !! p) →
  children_of (children_delete p key st) p !! key = None.
Proof.
  intros Hp. unfold children_delete.
  rewrite children_of_upd_children by done. apply lookup_delete_eq.
Qed.

Lemma children_delete_mono p key st q k y :
  children_of (children_delete p key st) q !! k = Some y →
  children_of st q !! k = Some y.
Proof.
  unfold children_delete. destruct (decide (q = p)) as [->|Hne].
  - destruct (heap st !! p) as [pit|] eqn:Hp.
    + rewrite children_of_upd_children by done.
      intros H. by apply lookup_delete_Some in H as [_ H].
    + unfold upd_children. by rewrite Hp.
  - destruct (children_of_upd_children_other p (delete key) st q Hne)
      as [-> | [Heq ->]]; [done|].
    rewrite Heq. intros H. by apply lookup_delete_Some in H as [_ H].
Qed.

Lemma children_delete_keeps p key st q k y :
  children_of st q !! k = Some y →
  children_of st p !! key ≠ Some y →
  children_of (children_delete p key st) q !! k = Some y.
Proof.
  intros Hq Hp. unfold children_delete.
  assert (Hdel : ∀ m : gmap string ref,
             m !! k = Some y → m !! key ≠ Some y → delete key m !! k = Some y).
  { intros m Hk Hkey. rewrite lookup_delete_ne; [done|]. congruence. }
  destruct (decide (q = p)) as [->|Hne].
  - destruct (heap st !! p) as [pit|] eqn:Hpp.
    + rewrite children_of_upd_children by done. by apply Hdel.
    + unfold upd_children. by rewrite Hpp.
  - destruct (children_of_upd_children_other p (delete key) st q Hne)
      as [-> | [Heq ->]]; [done|].
    apply Hdel; [|done]. by rewrite <- Heq.
Qed.

Lemma children_delete_other_key p key st q k :
  k ≠ key →
  children_of (children_delete p key st) q !! k = children_of st q !! k.
Proof.
  intros Hk. unfold children_delete. destruct (decide (q = p)) as [->|Hne].
  - destruct (heap st !! p) as [pit|] eqn:Hpp.
    + rewrite children_of_upd_children by done. by rewrite lookup_delete_ne.
    + unfold upd_children. by rewrite Hpp.
  - destruct (children_of_upd_children_other p (delete key) st q Hne)
      as [-> | [Heq ->]]; [done|].
    rewrite Heq. by rewrite lookup_delete_ne.
Qed.

(** *** [recursiveDelete] *)

Lemma heap_detach item it p st :
  heap (detach item it p st) = heap (children_delete p (ti_id it) st).
Proof.
  unfold detach.
  by destruct (getTestData _ item) as [[]|].
Qed.

Lemma controllerItems_detach item it p st :
  controllerItems (detach item it p st)
  = controllerItems (children_delete p (ti_id it) st).
Proof.
  unfold detach.
  by destruct (getTestData _ item) as [[]|].
Qed.

Lemma children_of_detach item it p st q :
  children_of (detach item it p st) q
  = children_of (children_delete p (ti_id it) st) q.
Proof.
  apply children_of_ext; [apply heap_detach|apply controllerItems_detach].
Qed.

Lemma shape_detach item it p st r :
  shape (detach item it p st) r = shape st r.
Proof.
  unfold shape. rewrite heap_detach. unfold children_delete.
  rewrite heap_upd_children. case_decide; [|done].
  destruct (heap st !! r); cbn; [|done].
  by rewrite map_own_id, map_own_parent.
Qed.

Lemma shape_heap st1 st2 r :
  shape st1 r = shape st2 r →
  match heap st1 !! r, heap st2 !! r with
  | Some it1, Some it2 => ti_id it1 = ti_id it2 ∧ ti_parent it1 = ti_parent it2
  | None, None => True
  | _, _ => False
  end.
Proof.
  unfold shape. destruct (heap st1 !! r), (heap st2 !! r); cbn; try done.
  intros [=]. done.
Qed.

Lemma ancestors_ext fuel st1 st2 x :
  (∀ r, shape st1 r = shape st2 r) →
  ancestors fuel st1 x = ancestors fuel st2 x.
Proof.
  intros Hs. revert x. induction fuel as [|fuel IH]; intros x; [done|]. cbn.
  pose proof (shape_heap _ _ _ (Hs x)) as Hx.
  destruct (heap st1 !! x) as [it1|], (heap st2 !! x) as [it2|]; try done.
  destruct Hx as [_ ->]. destruct (ti_parent it2); [|done]. by rewrite IH.
Qed.

Lemma ancestors_fuel fuel fuel' st x chain :
  ancestors fuel st x = Some chain → fuel ≤ fuel' →
  ancestors fuel' st x = Some chain.
Proof.
  revert fuel' x chain. induction fuel as [|fuel IH]; intros fuel' x chain; [done|].
  intros H Hle. destruct fuel' as [|fuel']; [lia|]. cbn in *.
  destruct (heap st !! x) as [it|]; [|done].
  destruct (ti_parent it) as [p|]; [|done].
  destruct (ancestors fuel st p) as [l|] eqn:E; [|done].
  rewrite (IH fuel' p l); [done|done|lia].
Qed.

Lemma ancestors_length fuel st x chain :
  ancestors fuel st x = Some chain → length chain < fuel.
Proof.
  revert x chain. induction fuel as [|fuel IH]; intros x chain; [done|].
  cbn. destruct (heap st !! x) as [it|]; [|done].
  destruct (ti_parent it) as [p|]; [|intros [= <-]; cbn; lia].
  destruct (ancestors fuel st p) as [l|] eqn:E; [|done].
  intros [= <-]. cbn. apply IH in E. lia.
Qed.

Lemma ancestors_suffix fuel st x chain i y :
  ancestors fuel st x = Some chain → chain !! i = Some y →
  ancestors fuel st y = Some (drop (S i) chain).
Proof.
  revert x chain i. induction fuel as [|fuel IH]; intros x chain i; [done|].
  intros H Hi. cbn in H.
  destruct (heap st !! x) as [it|]; [|done].
  destruct (ti_parent it) as [p|]; [|by simplify_eq].
  destruct (ancestors fuel st p) as [l|] eqn:E; [|done].
  cbn in H. simplify_eq. rewrite skipn_cons. destruct i as [|i]; cbn in Hi.
  - simplify_eq. rewrite drop_0.
    apply (ancestors_fuel fuel); [done|lia].
  - apply (ancestors_fuel fuel); [by eapply IH|lia].
Qed.

Lemma ancestors_not_self fuel st x chain :
  ancestors fuel st x = Some chain → x ∉ chain.
Proof.
  intros H Hin. apply list_elem_of_lookup in Hin as [i Hi].
  pose proof (ancestors_suffix _ _ _ _ _ _ H Hi) as H'.
  rewrite H in H'. injection H' as H'.
  apply (f_equal length) in H'. rewrite length_drop in H'.
  apply lookup_lt_Some in Hi. lia.
Qed.

Lemma ancestors_step fuel st x it p rest :
  heap st !! x = Some it → ti_parent it = Some p →
  ancestors (S fuel) st x = Some (p :: rest) →
  ancestors fuel st p = Some rest.
Proof.
  intros Hx Hp. cbn. rewrite Hx, Hp.
  destruct (ancestors fuel st p); cbn; congruence.
Qed.

Lemma linked_keeps st st1 x chain :
  (∀ r, shape st1 r = shape st r) →
  (∀ y q k, y ∈ x :: chain → children_of st q !! k = Some y →
            children_of st1 q !! k = Some y) →
  linked st x chain → linked st1 x chain.
Proof.
  intros Hs. revert x. induction chain as [|p rest IH]; intros x Hk; [done|].
  cbn. intros [(it & Hit & Hc) Hl]. split.
  - pose proof (shape_heap _ _ _ (Hs x)) as Hx. rewrite Hit in Hx.
    destruct (heap st1 !! x) as [it1|] eqn:E; [|done]. destruct Hx as [Hid _].
    exists it1. split; [done|]. rewrite Hid. apply Hk; [left|done].
  - apply IH; [|done]. intros y q k Hy. apply Hk. by right.
Qed.

Lemma id_of_shape st1 st2 x :
  shape st1 x = shape st2 x → id_of st1 x = id_of st2 x.
Proof.
  unfold shape, id_of.
  destruct (heap st1 !! x), (heap st2 !! x); cbn; congruence.
Qed.

Lemma parent_of_shape st1 st2 x :
  shape st1 x = shape st2 x → parent_of st1 x = parent_of st2 x.
Proof.
  unfold shape, parent_of.
  destruct (heap st1 !! x), (heap st2 !! x); cbn; congruence.
Qed.

Lemma children_of_empty st q :
  (∀ key y, children_of st q !! key = Some y → False) → children_of st q = ∅.
Proof.
  intros H. apply map_empty. intros key.
  destruct (children_of st q !! key) eqn:E; [|done]. by apply H in E.
Qed.

Lemma recursiveDelete_climb fuel st item chain :
  ancestors fuel st item = Some chain → linked st item chain →
  ∃ st' deleted kept,
    recursiveDelete fuel item st = Some st'
    ∧ Pruned st item chain st' deleted kept
    ∧ (∀ r, shape st' r = shape st r).
Proof.
  revert st item chain.
  induction fuel as [|fuel IH]; intros st item chain Hanc Hlink; [done|].
  pose proof (ancestors_not_self _ _ _ _ Hanc) as Hself.
  cbn in Hanc. cbn [recursiveDelete].
  destruct (heap st !! item) as [it|] eqn:Hit; [|done].
  destruct (ti_parent it) as [p|] eqn:Hp.
  2:{ simplify_eq. exists st, [], [item]. split; [done|]. split; [|done].
      split; try done.
      - intros x Hx. by apply elem_of_nil in Hx.
      - intros k [= <-]. left. unfold parent_of. rewrite Hit. by cbn. }
  destruct (ancestors fuel st p) as [rest|] eqn:Hrest; [|done].
  cbn in Hanc. simplify_eq. destruct Hlink as [(it' & Hit' & Hchild) Hlink].
  rewrite Hit in Hit'. simplify_eq.
  set (st1 := detach item it' p st).
  assert (Hshape : ∀ r, shape st1 r = shape st r)
    by (intros r; apply shape_detach).
  assert (Hpsome : is_Some (heap st !! p)).
  { unfold children_of in Hchild. destruct (heap st !! p); [eauto|].
    by rewrite lookup_empty in Hchild. }
  assert (Hgone : children_of st1 p !! ti_id it' = None).
  { unfold st1. rewrite children_of_detach. by apply children_delete_gone. }
  assert (Hmono : ∀ q key y, children_of st1 q !! key = Some y →
                             children_of st q !! key = Some y).
  { intros q key y. unfold st1. rewrite children_of_detach.
    apply children_delete_mono. }
  assert (Hkeep : ∀ x q key, x ≠ item → children_of st q !! key = Some x →
                             children_of st1 q !! key = Some x).
  { intros x q key Hne Hq. unfold st1. rewrite children_of_detach.
    apply children_delete_keeps; [done|]. rewrite Hchild. congruence. }
  assert (Hidit : id_of st item = Some (ti_id it'))
    by (unfold id_of; by rewrite Hit).
  destruct (Nat.eqb (children_size st1 p) 0) eqn:Hsize.
  - apply Nat.eqb_eq in Hsize. unfold children_size in Hsize.
    apply map_size_empty_inv in Hsize.
    destruct (IH st1 p rest) as (st' & deleted & kept & Hrun & HP & Hshape').
    { rewrite (ancestors_ext _ _ st); done. }
    { apply (linked_keeps st); [done| |done].
      intros y q k Hy. apply Hkeep. intros ->. by apply Hself. }
    destruct HP as [Hsplit Hroot Hnode Hnoop Hgone' Hchildless Hstop Hkept Hmono'].
    exists st', (item :: deleted), kept. split; [done|]. split.
    2:{ intros r. by rewrite Hshape'. }
    split.
    + cbn. by rewrite Hsplit.
    + done.
    + intros _. left.
    + done.
    + intros i x q key Hi Hx Hq Hid. destruct i as [|i]; cbn in Hx, Hq.
      * injection Hx as <-. injection Hq as <-.
        rewrite Hidit in Hid. injection Hid as <-.
        destruct (children_of st' p !! ti_id it') as [y|] eqn:E; [|done].
        apply Hmono' in E. congruence.
      * apply (Hgone' i x q key); [cbn in Hi; lia|done|done|].
        rewrite <- Hid. by apply id_of_shape.
    + intros x Hx Hne. apply elem_of_cons in Hx as [->|Hx]; [done|].
      destruct (decide (x = p)) as [->|Hxp]; [|by apply Hchildless].
      apply children_of_empty. intros key y Hy. apply Hmono' in Hy.
      by rewrite Hsize, lookup_empty in Hy.
    + intros k Hk. destruct (Hstop k Hk) as [Hn|Hn]; [|by right].
      left. rewrite <- Hn. symmetry. by apply parent_of_shape.
    + intros x q key Hx Hq. apply Hkept; [done|]. apply Hkeep; [|done].
      intros ->. apply Hself. rewrite Hsplit. apply elem_of_app. by right.
    + intros q key y Hy. by apply Hmono, Hmono'.
  - exists st1, [item], (p :: rest). split; [done|]. split; [|done].
    apply Nat.eqb_neq in Hsize. split.
    + done.
    + done.
    + intros _. left.
    + done.
    + intros i x q key Hi Hx Hq Hid. cbn in Hi.
      assert (i = 0) as -> by lia. cbn in Hx, Hq.
      injection Hx as <-. injection Hq as <-.
      rewrite Hidit in Hid. by injection Hid as <-.
    + intros x Hx Hne. apply list_elem_of_singleton in Hx. done.
    + intros k [= <-]. right. intros Hemp. apply Hsize.
      unfold children_size. rewrite Hemp. apply map_size_empty.
    + intros x q key Hx Hq. apply Hkeep; [|done]. intros ->. by apply Hself.
    + done.
Qed.

Lemma shrinks_refl st : shrinks st st.
Proof. by repeat split. Qed.

Lemma shrinks_trans st1 st2 st3 :
  shrinks st1 st2 → shrinks st2 st3 → shrinks st1 st3.
Proof.
  intros (H1 & H2 & H3) (H4 & H5 & H6). repeat split; [| |congruence]; eauto.
Qed.

Lemma testData_children_delete p key st :
  testData (children_delete p key st) = testData st.
Proof.
  unfold children_delete, upd_children.
  destruct (heap st !! p) as [pit|]; [|done]. by destruct (ti_children pit).
Qed.

Lemma fileItems_children_delete p key st :
  fileItems (children_delete p key st) = fileItems st.
Proof.
  unfold children_delete, upd_children.
  destruct (heap st !! p) as [pit|]; [|done]. by destruct (ti_children pit).
Qed.

Lemma testItemsByFile_children_delete p key st :
  testItemsByFile (children_delete p key st) = testItemsByFile st.
Proof.
  unfold children_delete, upd_children.
  destruct (heap st !! p) as [pit|]; [|done]. by destruct (ti_children pit).
Qed.

Lemma getTestData_detach item it p st r :
  getTestData (detach item it p st) r = getTestData st r.
Proof.
  unfold detach, getTestData.
  destruct (testData _ !! item) as [[]|]; cbn;
    by rewrite testData_children_delete.
Qed.

Lemma detach_shrinks item it p st : shrinks st (detach item it p st).
Proof.
  unfold shrinks. split; [|split].
  - intros k v. unfold detach.
    destruct (getTestData _ item) as [[]|]; cbn;
      rewrite ?fileItems_children_delete; try done.
    intros H. by apply lookup_delete_Some in H as [_ H].
  - intros k v. unfold detach.
    destruct (getTestData _ item) as [[]|]; cbn;
      rewrite ?testItemsByFile_children_delete; try done.
    intros H. by apply lookup_delete_Some in H as [_ H].
  - unfold detach.
    destruct (getTestData _ item) as [[]|]; cbn;
      by rewrite testData_children_delete.
Qed.

(** What [detach] does to the index maps when the item is a file node. *)
Lemma detach_file item it p st d :
  getTestData st item = Some (TestFile d) →
  testItemsByFile (detach item it p st) = delete (filepath d) (testItemsByFile st)
  ∧ fileItems (detach item it p st) = delete (ti_id it) (fileItems st).
Proof.
  intros Hd. unfold detach.
  replace (getTestData
             (with_flatTestItems
                (delete (ti_id it) (flatTestItems (children_delete p (ti_id it) st)))
                (children_delete p (ti_id it) st)) item)
    with (Some (TestFile d)).
  - cbn. by rewrite testItemsByFile_children_delete, fileItems_children_delete.
  - unfold getTestData in *. cbn. by rewrite testData_children_delete.
Qed.

(** With the ancestors within reach of [fuel] the climb returns. *)
Lemma recursiveDelete_returns fuel st item chain :
  ancestors fuel st item = Some chain →
  ∃ st', recursiveDelete fuel item st = Some st' ∧ shrinks st st'.
Proof.
  revert st item chain.
  induction fuel as [|fuel IH]; intros st item chain Hanc; [done|].
  cbn in Hanc. cbn [recursiveDelete].
  destruct (heap st !! item) as [it|] eqn:Hit; [|done].
  destruct (ti_parent it) as [p|] eqn:Hp.
  2:{ exists st. split; [done|apply shrinks_refl]. }
  destruct (ancestors fuel st p) as [rest|] eqn:Hrest; [|done].
  destruct (Nat.eqb _ 0).
  - destruct (IH (detach item it p st) p rest) as (st' & Hrun & Hs).
    { rewrite (ancestors_ext _ _ st); [done|]. intros r. apply shape_detach. }
    exists st'. split; [done|].
    eapply shrinks_trans; [apply detach_shrinks|done].
  - eexists. split; [done|]. apply detach_shrinks.
Qed.

(** *** Folders and files *)

(** What [children.add] and the writes to single items leave alone. *)
Ltac frame :=
  unfold children_add, upd_children, upd, register, with_heap, with_next,
    with_testData, with_controllerItems; cbn;
  repeat (case_match; cbn); done.

Lemma children_add_frame p c st :
  fileItems (children_add p c st) = fileItems st
  ∧ testItemsByFile (children_add p c st) = testItemsByFile st
  ∧ folderItems (children_add p c st) = folderItems st
  ∧ flatTestItems (children_add p c st) = flatTestItems st
  ∧ testData (children_add p c st) = testData st
  ∧ next (children_add p c st) = next st.
Proof. repeat split; frame. Qed.

Lemma face_upd r f st x :
  (∀ it, face (f it) = face it) →
  face <$> heap (upd r f st) !! x = face <$> heap st !! x.
Proof.
  intros Hf. rewrite heap_upd. case_decide; [|done].
  destruct (heap st !! x); cbn; [|done]. by rewrite Hf.
Qed.

Lemma face_map_own f it : face (map_own f it) = face it.
Proof. unfold map_own. by destruct (ti_children it). Qed.


Lemma face_upd_children p f st x :
  face <$> heap (upd_children p f st) !! x = face <$> heap st !! x.
Proof.
  rewrite heap_upd_children. case_decide; [|done].
  destruct (heap st !! x); cbn; [|done]. by rewrite face_map_own.
Qed.

Lemma face_children_add p c st x :
  face <$> heap (children_add p c st) !! x = face <$> heap st !! x.
Proof.
  unfold children_add. destruct (heap st !! c) as [cit|]; [|done].
  rewrite face_upd_children. by apply face_upd.
Qed.

Lemma heap_register r d st : heap (register r d st) = heap st.
Proof. done. Qed.

Lemma heap_createTestItem id label uri st :
  heap (createTestItem id label uri st).2
  = <[next st := mkTestItem id label uri (OwnChildren ∅) None [] None None
                   None false false]> (heap st).
Proof. done. Qed.

(** *** Collection: one node *)

Ltac same_heap :=
  apply map_eq; intros ?x; rewrite !lookup_insert;
  repeat case_decide; subst; congruence.

Lemma upd_eq r f st it :
  heap st !! r = Some it →
  upd r f st = with_heap (<[r := f it]> (heap st)) st.
Proof.
  intros Hr. unfold upd. f_equal. apply map_eq. intros x.
  rewrite lookup_alter, lookup_insert.
  case_decide; [|done]. by rewrite Hr.
Qed.

Lemma owner_own st p pit :
  heap st !! p = Some pit → is_own pit = true → owner st p = Some p.
Proof.
  intros Hp Ho. unfold owner. rewrite Hp. unfold is_own in Ho.
  by destruct (ti_children pit).
Qed.

Lemma upd_children_eq p f st pit :
  heap st !! p = Some pit → is_own pit = true →
  upd_children p f st = with_heap (<[p := map_own f pit]> (heap st)) st.
Proof.
  intros Hp Ho. unfold upd_children. rewrite Hp. unfold is_own in Ho.
  destruct (ti_children pit) eqn:Hc; [|done]. by apply upd_eq.
Qed.

Lemma children_add_eq p c st pit cit :
  heap st !! p = Some pit → heap st !! c = Some cit → p ≠ c →
  is_own pit = true →
  children_add p c st
  = with_heap (<[p := map_own (insert (ti_id cit) c) pit]>
                 (<[c := set_parent (Some p) cit]> (heap st))) st.
Proof.
  intros Hp Hc Hne Ho. unfold children_add. rewrite Hc.
  rewrite (owner_own _ _ _ Hp Ho).
  rewrite (upd_eq _ _ _ _ Hc).
  erewrite upd_children_eq; [done| |done].
  cbn. by rewrite lookup_insert_ne.
Qed.

Lemma refresh_steps tag fd p pit t r rit st :
  heap st !! p = Some pit → heap st !! r = Some rit → p ≠ r →
  is_own pit = true →
  (let st := upd r (set_tags (dedupe (tags_of st p ++ [tag]))) st in
   let st := upd r (set_error None) st in
   let st := upd r (set_label (task_name t)) st in
   let st :=
     match task_location t with
     | Some location =>
         let position := task_position location in
         upd r (set_range (Some (mkRange position position))) st
     | None => upd r (set_sortText (Some (task_id t))) st
     end in
   let st :=
     if (task_type t =? "suite")%string
     then register r (TestSuite p fd) st
     else if ((task_type t =? "test") || (task_type t =? "custom"))%string
     then register r (TestCase p fd) st
     else st in
   let st := with_flatTestItems (<[task_id t := r]> (flatTestItems st)) st in
   let st := children_add p r st in
   match result_errors (task_result t) with
   | Some errors => upd r (set_error (Some (joined_stacks errors))) st
   | None => st
   end)
  = refreshed tag fd p pit t r rit (next st) st.
Proof.
  intros Hp Hr Hne Ho. cbn zeta.
  assert (Htags : tags_of st p = ti_tags pit) by (unfold tags_of; by rewrite Hp).
  rewrite Htags.
  rewrite (upd_eq r _ st rit Hr).
  erewrite (upd_eq r (set_error None)); [|cbn; by rewrite lookup_insert_eq].
  erewrite (upd_eq r (set_label _)); [|cbn; by rewrite lookup_insert_eq].
  cbn [heap with_heap]. rewrite !insert_insert_eq.
  set (it3 := set_label _ _).
  set (it4 := match task_location t with
              | Some location =>
                  set_range (Some (mkRange (task_position location)
                                      (task_position location))) it3
              | None => set_sortText (Some (task_id t)) it3
              end).
  set (st3 := with_heap (<[r := it3]> (heap st)) _).
  assert (H4 : match task_location t with
               | Some location =>
                   upd r (set_range (Some (mkRange (task_position location)
                                             (task_position location)))) st3
               | None => upd r (set_sortText (Some (task_id t))) st3
               end = with_heap (<[r := it4]> (heap st)) st).
  { unfold it4. destruct (task_location t).
    - erewrite upd_eq; [|unfold st3; cbn; by rewrite lookup_insert_eq].
      unfold st3. cbn. by rewrite insert_insert_eq.
    - erewrite upd_eq; [|unfold st3; cbn; by rewrite lookup_insert_eq].
      unfold st3. cbn. by rewrite insert_insert_eq. }
  rewrite H4. clear H4 st3.
  set (st4 := with_heap (<[r := it4]> (heap st)) st).
  set (st5 := if (task_type t =? "suite")%string
              then register r (TestSuite p fd) st4
              else if ((task_type t =? "test") || (task_type t =? "custom"))%string
                   then register r (TestCase p fd) st4 else st4).
  assert (H5 : st5 = with_testData
                       (match task_data fd p t with
                        | Some d => <[r := d]> (testData st)
                        | None => testData st
                        end) st4).
  { unfold st5, task_data.
    destruct (task_type t =? "suite")%string; [done|].
    destruct ((task_type t =? "test") || (task_type t =? "custom"))%string;
      [done|]. by destruct st. }
  rewrite H5. clear H5 st5.
  set (st6 := with_flatTestItems _ _).
  assert (Hp6 : heap st6 !! p = Some pit)
    by (unfold st6, st4; cbn; by rewrite lookup_insert_ne).
  assert (Hr6 : heap st6 !! r = Some it4)
    by (unfold st6, st4; cbn; by rewrite lookup_insert_eq).
  rewrite (children_add_eq p r st6 pit it4 Hp6 Hr6 Hne Ho).
  assert (Hid : ti_id it4 = ti_id rit).
  { unfold it4, it3. by destruct (task_location t). }
  rewrite Hid.
  assert (Hfinal : settle tag (ti_tags pit) (Some p) t rit
                   = match result_errors (task_result t) with
                     | Some errors =>
                         set_error (Some (joined_stacks errors))
                           (set_parent (Some p) it4)
                     | None => set_parent (Some p) it4
                     end).
  { unfold settle, it4, it3. by destruct (task_location t). }
  unfold refreshed. rewrite Hfinal.
  destruct (result_errors (task_result t)) as [errors|].
  - erewrite upd_eq;
      [|cbn; rewrite lookup_insert_ne by done; by rewrite lookup_insert_eq].
    unfold st6, st4, with_heap, with_flatTestItems, with_testData. cbn.
    f_equal. same_heap.
  - unfold st6, st4, with_heap, with_flatTestItems, with_testData. cbn.
    f_equal. same_heap.
Qed.

Lemma Task_nested_ind (P : Task → Prop) :
  (∀ t, (∀ ts, task_tasks t = Some ts → Forall P ts) → P t) →
  ∀ t, P t.
Proof.
  intros H. fix IH 1. intros [i n ty m l res sub]. apply H. cbn.
  destruct sub as [ts|]; [|intros ts' [=]].
  assert (Hall : Forall P ts).
  { induction ts as [|x xs IHxs]; constructor; [apply IH|apply IHxs]. }
  intros ts' [= <-]. exact Hall.
Qed.

Lemma collectTask_unfold tag fd p t st :
  collectTask tag fd p t st
  = let '(r, st1) := collectNode tag fd p t st in
    match task_tasks t with
    | Some ts => collectTasks tag fd ts r st1
    | None => st1
    end.
Proof.
  destruct t as [i n ty m l res sub]. cbn [collectTask task_tasks].
  destruct (collectNode _ _ _ _ _) as [r st1].
  destruct sub as [ts|]; [|done].
  unfold collectTasks, collectLoop. f_equal.
  generalize st1. induction ts as [|x xs IH]; intros s; [done|].
  cbn [foldl]. apply IH.
Qed.

Lemma collectNode_reused tag fd p pit t r rit st :
  flatTestItems st !! task_id t = Some r →
  heap st !! p = Some pit → heap st !! r = Some rit → p ≠ r →
  is_own pit = true →
  collectNode tag fd p t st
  = (r, refreshed tag fd p pit t r rit (next st) st).
Proof.
  intros Hflat Hp Hr Hne Ho. unfold collectNode. rewrite Hflat.
  f_equal. by apply refresh_steps.
Qed.

Lemma collectNode_new tag fd p pit t st :
  flatTestItems st !! task_id t = None →
  heap st !! p = Some pit → heap st !! next st = None →
  is_own pit = true →
  collectNode tag fd p t st
  = (next st,
     refreshed tag fd p pit t (next st) (fresh_item pit t) (S (next st)) st).
Proof.
  intros Hflat Hp Hn Ho. unfold collectNode. rewrite Hflat.
  cbn [createTestItem]. f_equal.
  assert (Hne : p ≠ next st) by congruence.
  assert (Huri : uri_of st p = ti_uri pit) by (unfold uri_of; by rewrite Hp).
  rewrite Huri. fold (fresh_item pit t).
  set (st0 := with_next _ _).
  transitivity (refreshed tag fd p pit t (next st) (fresh_item pit t)
                  (next st0) st0).
  - apply refresh_steps; [| |done|done].
    + unfold st0. cbn. by rewrite lookup_insert_ne.
    + unfold st0. cbn. by rewrite lookup_insert_eq.
  - unfold refreshed, st0. cbn. f_equal. same_heap.
Qed.

(** *** Collection: reports and the states that fit them *)

Lemma ids_forest_cons t ts : ids_forest (t :: ts) = ids_task t ++ ids_forest ts.
Proof. unfold ids_forest, ids_task, all_tasks. cbn. by rewrite map_app. Qed.

Lemma ids_task_unfold t :
  ids_task t
  = task_id t :: match task_tasks t with
                 | Some sub => ids_forest sub
                 | None => []
                 end.
Proof.
  unfold ids_task, ids_forest, all_tasks. destruct t as [i n ty m l r [sub|]]; done.
Qed.

Lemma ids_forest_top ts k : k ∈ map task_id ts → k ∈ ids_forest ts.
Proof.
  induction ts as [|t ts IH]; [done|].
  rewrite ids_forest_cons, ids_task_unfold. cbn [map].
  intros [->|H]%elem_of_cons; [left|]. right. apply elem_of_app. right. by apply IH.
Qed.

Lemma heap_wf_lookup st x it : heap_wf st → heap st !! x = Some it → x < next st.
Proof. intros Hwf Hx. by apply (Hwf x it). Qed.

Lemma heap_wf_next st : heap_wf st → heap st !! next st = None.
Proof.
  intros Hwf. destruct (heap st !! next st) eqn:E; [|done].
  apply Hwf in E. lia.
Qed.

Lemma reusable_Some st k r :
  reusable st k = true → flatTestItems st !! k = Some r →
  ∃ it, heap st !! r = Some it ∧ ti_id it = k ∧ is_own it = true.
Proof.
  unfold reusable. intros H Hr. rewrite Hr in H.
  destruct (heap st !! r) as [it|]; [|done].
  apply andb_true_iff in H as [Hid Ho]. apply String.eqb_eq in Hid. eauto.
Qed.

Lemma reusable_intro st k :
  (∀ r, flatTestItems st !! k = Some r →
        ∃ it, heap st !! r = Some it ∧ ti_id it = k ∧ is_own it = true) →
  reusable st k = true.
Proof.
  intros H. unfold reusable. destruct (flatTestItems st !! k) as [r|]; [|done].
  destruct (H r eq_refl) as (it & -> & Hid & Ho).
  apply andb_true_iff. split; [by apply String.eqb_eq|done].
Qed.

Lemma is_own_set_children c it :
  is_own (set_children c it) = match c with OwnChildren _ => true | _ => false end.
Proof. done. Qed.

Lemma Evolves_refl st p ids : heap_wf st → Evolves st st p ids.
Proof.
  intros Hwf. split; try done.
  - intros k r Hr. by left.
  - intros x it Hx. eauto.
  - intros pit Hp. exists (ti_children pit). rewrite Hp. by destruct pit.
Qed.

Lemma Evolves_weaken st st' p ids ids' :
  (∀ k, k ∈ ids → k ∈ ids') → Evolves st st' p ids → Evolves st st' p ids'.
Proof.
  intros Hsub [H1 H2 H3 H4 H5 H6 H7 H7' H8]. split; try done.
  - intros k Hk. apply H3. intros Hin. apply Hk. by apply Hsub.
  - intros x Hx Hun Hp. apply H6; [done| |done].
    intros k Hk. apply Hun. by apply Hsub.
Qed.

Lemma Evolves_trans st st1 st2 p ids :
  Evolves st st1 p ids → Evolves st1 st2 p ids → Evolves st st2 p ids.
Proof.
  intros [A1 A2 A3 A4 A5 A6 A7 A7' A8] [B1 B2 B3 B4 B5 B6 B7 B7' B8]. split.
  - lia.
  - done.
  - intros k Hk. by rewrite B3, A3.
  - intros k r Hr. destruct (B4 k r Hr) as [Hr1|Hr1]; [|right; lia].
    destruct (A4 k r Hr1); [by left|by right].
  - intros x it Hx. destruct (A5 x it Hx) as (it1 & Hx1 & Hid1 & Ho1).
    destruct (B5 x it1 Hx1) as (it2 & Hx2 & Hid2 & Ho2).
    exists it2. split; [done|]. split; congruence.
  - intros x Hx Hun Hp. destruct (A6 x Hx Hun Hp) as [Ha Hd].
    destruct (B6 x) as [Hb He]; [lia| |done|].
    + intros k Hk Hc. destruct (A4 k x Hc) as [Hc'|Hc']; [|lia].
      by apply (Hun k).
    + split; congruence.
  - intros pit Hp. destruct (A7 pit Hp) as (c1 & Hp1).
    destruct (B7 _ Hp1) as (c2 & Hp2). exists c2. by rewrite Hp2.
  - congruence.
  - destruct A8 as (?&?&?&?&?&?), B8 as (?&?&?&?&?&?).
    repeat split; congruence.
Qed.

(** An evolution under [r] seen from another item [p]. *)
Lemma Evolves_reparent st st' r p ids kt :
  Evolves st st' r ids → flatTestItems st !! kt = Some r → kt ∈ ids →
  p ≠ r → p < next st → (∀ k, k ∈ ids → flatTestItems st !! k ≠ Some p) →
  Evolves st st' p ids.
Proof.
  intros [A1 A2 A3 A4 A5 A6 A7 A7' A8] Hkt Hin Hne Hlt Hun. split; try done.
  - intros x Hx Hunx Hxp. apply A6; [done|done|].
    intros ->. by apply (Hunx kt).
  - intros pit Hp. destruct (A6 p Hlt Hun Hne) as [Hh _].
    exists (ti_children pit). rewrite Hh, Hp. by destruct pit.
  - by destruct (A6 p Hlt Hun Hne) as [_ Hd].
Qed.

Lemma ready_app_l st p ids1 ids2 : ready st p (ids1 ++ ids2) → ready st p ids1.
Proof.
  intros (Hnd & Hwf & (pit & Hp & Ho & Hid) & Hall).
  apply NoDup_app in Hnd as (Hnd & _ & _).
  apply Forall_app in Hall as [Hall _].
  split; [done|]. split; [done|]. split; [|done].
  exists pit. split; [done|]. split; [done|].
  intros Hin. apply Hid. apply elem_of_app. by left.
Qed.

Lemma ready_after st st1 p ids1 ids2 :
  ready st p (ids1 ++ ids2) → Evolves st st1 p ids1 → ready st1 p ids2.
Proof.
  intros (Hnd & Hwf & (pit & Hp & Ho & Hid) & Hall) [A1 A2 A3 A4 A5 A6 A7 A7' A8].
  apply NoDup_app in Hnd as (_ & Hdis & Hnd).
  apply Forall_app in Hall as [_ Hall].
  split; [done|]. split; [done|]. split.
  - destruct (A5 p pit Hp) as (pit' & Hp' & Hid' & Ho').
    exists pit'. split; [done|]. split; [congruence|]. rewrite Hid'.
    intros Hin. apply Hid. apply elem_of_app. by right.
  - rewrite Forall_forall in Hall. apply Forall_forall. intros k Hk.
    apply reusable_intro. intros r Hr. rewrite A3 in Hr.
    2:{ intros Hin. by apply (Hdis k). }
    destruct (reusable_Some st k r (Hall k Hk) Hr) as (it & Hit & Hidk & Hok).
    destruct (A5 r it Hit) as (it' & Hit' & Hidk' & Hok').
    exists it'. split; [done|]. split; congruence.
Qed.

Lemma settle_idem tag T P t it :
  settle tag T P t (settle tag T P t it) = settle tag T P t it.
Proof.
  unfold settle.
  destruct (task_location t), (result_errors (task_result t)); reflexivity.
Qed.

Lemma settle_kind tag T P t it :
  ti_id (settle tag T P t it) = ti_id it
  ∧ is_own (settle tag T P t it) = is_own it.
Proof.
  unfold settle.
  by destruct (task_location t), (result_errors (task_result t)).
Qed.

Lemma map_own_kind f it :
  ti_id (map_own f it) = ti_id it ∧ is_own (map_own f it) = is_own it
  ∧ ti_tags (map_own f it) = ti_tags it.
Proof.
  unfold map_own, is_own.
  destruct (ti_children it) eqn:E; cbn; rewrite ?E; done.
Qed.

Lemma map_own_set_children f it :
  is_own it = true → ∃ c, map_own f it = set_children c it.
Proof.
  unfold map_own, is_own. destruct (ti_children it); [|done]. eauto.
Qed.

Lemma children_of_own st r it :
  heap st !! r = Some it → is_own it = true →
  ∃ m, ti_children it = OwnChildren m ∧ children_of st r = m.
Proof.
  intros Hr Ho. unfold children_of. rewrite Hr. unfold is_own in Ho.
  destruct (ti_children it) as [m|]; [|done]. by exists m.
Qed.

Lemma settle_kind_eq tag T P t it :
  ti_id it = task_id t → is_own it = true →
  ti_id (settle tag T P t it) = task_id t ∧ is_own (settle tag T P t it) = true.
Proof. intros <- <-. apply settle_kind. Qed.

(** The state after one node. *)
Lemma refreshed_spec tag fd p pit t r rit nxt st :
  heap_wf st → heap st !! p = Some pit → is_own pit = true → p ≠ r →
  ti_id rit = task_id t → is_own rit = true →
  next st ≤ nxt → r < nxt →
  (heap st !! r = Some rit ∧ flatTestItems st !! task_id t = Some r)
  ∨ (r = next st ∧ flatTestItems st !! task_id t = None) →
  let st1 := refreshed tag fd p pit t r rit nxt st in
  node_settled tag fd st1 p t r
  ∧ Evolves st st1 p [task_id t]
  ∧ (∀ k, k ≠ task_id t → children_of st1 p !! k = children_of st p !! k).
Proof.
  intros Hwf Hp Hop Hne Hid Hor Hnxt Hr Hcase. cbn zeta.
  assert (Hplt : p < next st) by (by eapply heap_wf_lookup).
  assert (Hrnone : ∀ x it, heap st !! x = Some it → x ≠ r ∨ heap st !! r = Some rit).
  { intros x it Hx. destruct Hcase as [[Hr' _]|[-> _]]; [by right|left].
    intros ->. rewrite heap_wf_next in Hx; done. }
  destruct (children_of_own st p pit Hp Hop) as (m & Hm & Hcm).
  assert (Hp1 : heap (refreshed tag fd p pit t r rit nxt st) !! p
                = Some (set_children (OwnChildren (<[task_id t := r]> m)) pit)).
  { unfold refreshed. cbn. rewrite lookup_insert_eq.
    unfold map_own. by rewrite Hm, Hid. }
  assert (Hr1 : heap (refreshed tag fd p pit t r rit nxt st) !! r
                = Some (settle tag (ti_tags pit) (Some p) t rit)).
  { unfold refreshed. cbn. rewrite lookup_insert_ne by done.
    by rewrite lookup_insert_eq. }
  assert (Hx1 : ∀ x, x ≠ p → x ≠ r →
                     heap (refreshed tag fd p pit t r rit nxt st) !! x
                     = heap st !! x).
  { intros x Hxp Hxr. unfold refreshed. cbn.
    by rewrite !lookup_insert_ne. }
  assert (Hc1 : children_of (refreshed tag fd p pit t r rit nxt st) p
                = <[task_id t := r]> m).
  { unfold children_of. by rewrite Hp1. }
  split; [|split].
  - split; [|split; [|split; [|split; [|split]]]].
    + unfold refreshed. cbn. by rewrite lookup_insert_eq.
    + by rewrite Hc1, lookup_insert_eq.
    + done.
    + eexists. split; [exact Hp1|done].
    + eexists. split; [exact Hr1|]. split; [|apply settle_kind_eq].
      * unfold tags_of. rewrite Hp1. cbn. apply settle_idem.
      * done.
      * done.
    + intros d Hd. unfold refreshed. cbn. rewrite Hd. by rewrite lookup_insert_eq.
  - split.
    + unfold refreshed. cbn. lia.
    + unfold heap_wf, refreshed. cbn.
      apply map_Forall_insert_2; [lia|]. apply map_Forall_insert_2; [lia|].
      intros x it Hx. apply Hwf in Hx. cbn in *. lia.
    + intros k Hk. unfold refreshed. cbn. rewrite lookup_insert_ne; [done|].
      intros <-. apply Hk. left.
    + intros k r' Hr'. unfold refreshed in Hr'. cbn in Hr'.
      destruct (decide (task_id t = k)) as [<-|Hk].
      * rewrite lookup_insert_eq in Hr'. injection Hr' as <-.
        destruct Hcase as [[_ Hf]|[-> _]]; [by left|by right].
      * rewrite lookup_insert_ne in Hr' by done. by left.
    + intros x it Hx. destruct (decide (x = p)) as [->|Hxp].
      { rewrite Hp in Hx. injection Hx as <-. eexists. split; [exact Hp1|done]. }
      destruct (decide (x = r)) as [->|Hxr].
      { destruct (Hrnone _ _ Hx) as [?|Hr']; [done|].
        rewrite Hx in Hr'. injection Hr' as ->.
        eexists. split; [exact Hr1|apply settle_kind]. }
      rewrite Hx1 by done. eauto.
    + intros x Hx Hun Hxp.
      assert (Hxr : x ≠ r).
      { intros ->. destruct Hcase as [[_ Hf]|[-> _]]; [|lia].
        apply (Hun (task_id t)); [left|done]. }
      split; [by apply Hx1|].
      unfold refreshed. cbn. destruct (task_data fd p t); [|done].
      by rewrite lookup_insert_ne.
    + intros pit' Hp'. rewrite Hp in Hp'. injection Hp' as <-. eauto.
    + unfold refreshed. cbn. destruct (task_data fd p t); [|done].
      by rewrite lookup_insert_ne.
    + done.
  - intros k Hk. rewrite Hc1, Hcm. by rewrite lookup_insert_ne.
Qed.

Lemma node_step tag fd p t st ids :
  ready st p (task_id t :: ids) →
  ∃ r st1,
    collectNode tag fd p t st = (r, st1)
    ∧ node_settled tag fd st1 p t r
    ∧ Evolves st st1 p [task_id t]
    ∧ (∀ k, k ≠ task_id t → children_of st1 p !! k = children_of st p !! k).
Proof.
  intros (Hnd & Hwf & (pit & Hp & Hop & Hidp) & Hall).
  apply Forall_cons in Hall as [Hreuse _].
  assert (Hidp' : ti_id pit ≠ task_id t).
  { intros Heq. apply Hidp. rewrite Heq. left. }
  destruct (flatTestItems st !! task_id t) as [r|] eqn:Hflat.
  - destruct (reusable_Some _ _ _ Hreuse Hflat) as (rit & Hr & Hid & Hor).
    assert (Hne : p ≠ r) by (intros ->; congruence).
    exists r, (refreshed tag fd p pit t r rit (next st) st).
    split; [by apply collectNode_reused|].
    apply refreshed_spec; try done.
    + by eapply heap_wf_lookup.
    + by left.
  - assert (Hne : p ≠ next st).
    { intros Heq. rewrite Heq in Hp. by rewrite heap_wf_next in Hp. }
    exists (next st), (refreshed tag fd p pit t (next st) (fresh_item pit t)
                         (S (next st)) st).
    split; [apply collectNode_new; try done; by apply heap_wf_next|].
    apply refreshed_spec; try done; [lia|lia|by right].
Qed.

(** *** Collection: the closing loop *)

Lemma prune_eq r ids st rit :
  heap st !! r = Some rit → is_own rit = true →
  prune r ids st
  = with_heap (<[r := map_own (filter (λ kv, kv.1 ∈ ids)) rit]> (heap st)) st.
Proof. intros Hr Ho. unfold prune. by apply upd_children_eq. Qed.

Lemma prune_children r ids st rit :
  heap st !! r = Some rit → is_own rit = true →
  children_of (prune r ids st) r
  = filter (λ kv, kv.1 ∈ ids) (children_of st r).
Proof.
  intros Hr Ho. unfold prune. rewrite children_of_upd_children; eauto.
Qed.

Lemma prune_Evolves r ids st rit ids' :
  heap_wf st → heap st !! r = Some rit → is_own rit = true →
  Evolves st (prune r ids st) r ids'.
Proof.
  intros Hwf Hr Ho. rewrite (prune_eq _ _ _ _ Hr Ho).
  destruct (map_own_set_children (filter (λ kv, kv.1 ∈ ids)) rit Ho) as [c Hc].
  split; try done.
  - unfold heap_wf. cbn. apply map_Forall_insert_2; [|done].
    by eapply heap_wf_lookup.
  - intros k r' Hr'. by left.
  - intros x it Hx. cbn. destruct (decide (x = r)) as [->|Hne].
    + rewrite lookup_insert_eq. rewrite Hx in Hr. injection Hr as ->.
      eexists. split; [done|]. by destruct (map_own_kind (filter (λ kv, kv.1 ∈ ids)) rit) as (?&?&?).
    + rewrite lookup_insert_ne by done. eauto.
  - intros x Hx Hun Hne. cbn. by rewrite lookup_insert_ne.
  - intros pit Hp. rewrite Hr in Hp. injection Hp as <-. cbn.
    rewrite lookup_insert_eq. exists c. by rewrite Hc.
Qed.

(** *** Collection: what a settled task rests on *)

(** Every task of a settled report has its node, with its id. *)
Lemma settled_nodes tag fd st p t :
  settled tag fd st p t →
  ∀ k, k ∈ ids_task t →
       ∃ r it, flatTestItems st !! k = Some r ∧ heap st !! r = Some it
               ∧ ti_id it = k ∧ is_own it = true.
Proof.
  revert p. induction t as [t IH] using Task_nested_ind. intros p Hs k Hk.
  inversion Hs as [p' t' r Hnode Hsub]; subst.
  rewrite ids_task_unfold in Hk. apply elem_of_cons in Hk as [->|Hk].
  - destruct Hnode as (Hf & _ & _ & _ & (it & Hit & _ & Hid & Ho) & _). eauto 10.
  - destruct (task_tasks t) as [ts|] eqn:Hts; [|by apply elem_of_nil in Hk].
    destruct (Hsub ts eq_refl) as [_ Hall]. specialize (IH ts eq_refl).
    clear Hsub Hs Hts.
    induction ts as [|x xs IHxs]; [by apply elem_of_nil in Hk|].
    rewrite ids_forest_cons in Hk. apply Forall_cons in Hall as [Hx Hxs].
    apply Forall_cons in IH as [IHx IHrest].
    apply elem_of_app in Hk as [Hk|Hk]; [by eapply IHx|by apply IHxs].
Qed.

(** A settled task stays settled while its nodes, its index entries and
    what it reads of its parent stay as they are. *)
Lemma settled_frame tag fd st st2 p t :
  settled tag fd st p t →
  (∀ k r, k ∈ ids_task t → flatTestItems st !! k = Some r →
          flatTestItems st2 !! k = Some r
          ∧ heap st2 !! r = heap st !! r
          ∧ testData st2 !! r = testData st !! r) →
  (∀ pit, heap st !! p = Some pit →
          ∃ c, heap st2 !! p = Some (set_children c pit)
               ∧ is_own (set_children c pit) = is_own pit) →
  children_of st2 p !! task_id t = children_of st p !! task_id t →
  settled tag fd st2 p t.
Proof.
  revert p. induction t as [t IH] using Task_nested_ind.
  intros p Hs Hnodes Hparent Hchild.
  inversion Hs as [p' t' r Hnode Hsub]; subst.
  destruct Hnode as (Hf & Hc & Hne & (pit & Hp & Hop) & (it & Hit & Hset & Hid & Ho) & Hd).
  destruct (Hnodes (task_id t) r) as (Hf2 & Hh2 & Hd2); [|done|].
  { rewrite ids_task_unfold. left. }
  destruct (Hparent pit Hp) as (c & Hp2 & Hop2).
  apply (settled_node _ _ _ p t r).
  - split; [done|]. split; [congruence|]. split; [done|].
    split; [exists (set_children c pit); split; [done|congruence]|].
    split.
    + exists it. split; [congruence|]. split; [|done].
      unfold tags_of in *. rewrite Hp2. rewrite Hp in Hset. exact Hset.
    + intros d Hdd. rewrite Hd2. by apply Hd.
  - intros ts Hts. destruct (Hsub ts Hts) as [Hdom Hall].
    assert (Hcr : children_of st2 r = children_of st r).
    { unfold children_of. rewrite Hh2, Hit.
      unfold is_own in Ho. by destruct (ti_children it). }
    split; [by rewrite Hcr|].
    specialize (IH ts Hts).
    assert (Hsubids : ∀ k, k ∈ ids_forest ts → k ∈ ids_task t).
    { intros k Hk. rewrite ids_task_unfold, Hts. by right. }
    clear Hsub Hs Hdom Hts.
    induction ts as [|x xs IHxs]; [done|].
    apply Forall_cons in Hall as [Hx Hxs]. apply Forall_cons in IH as [IHx IHrest].
    constructor.
    + apply IHx; [done| | |by rewrite Hcr].
      * intros k r' Hk Hr'. apply Hnodes; [|done].
        apply Hsubids. rewrite ids_forest_cons. apply elem_of_app. by left.
      * intros rit Hr'. rewrite Hit in Hr'. injection Hr' as <-.
        exists (ti_children it). rewrite Hh2, Hit. by destruct it.
    + apply IHxs; [done|done|].
      intros k Hk. apply Hsubids. rewrite ids_forest_cons.
      apply elem_of_app. by right.
Qed.

(** *** Collection: the induction over the report *)

Lemma ready_parent st p r ids it :
  ready st p ids → heap st !! r = Some it → is_own it = true →
  ti_id it ∉ ids → ready st r ids.
Proof.
  intros (Hnd & Hwf & _ & Hall) Hr Ho Hid.
  split; [done|]. split; [done|]. split; [eauto|done].
Qed.

(** Under a fitting state no reported id names the parent, and the node a
    reported id names, if any, carries that id. *)
Lemma ready_not_parent st p ids k :
  ready st p ids → k ∈ ids → flatTestItems st !! k ≠ Some p.
Proof.
  intros (_ & _ & (pit & Hp & _ & Hid) & Hall) Hk Hf.
  rewrite Forall_forall in Hall.
  destruct (reusable_Some _ _ _ (Hall k Hk) Hf) as (it & Hit & Hidk & _).
  rewrite Hp in Hit. injection Hit as <-. congruence.
Qed.

Lemma ready_node_id st p ids k r it :
  ready st p ids → k ∈ ids → flatTestItems st !! k = Some r →
  heap st !! r = Some it → ti_id it = k.
Proof.
  intros (_ & _ & _ & Hall) Hk Hf Hr. rewrite Forall_forall in Hall.
  destruct (reusable_Some _ _ _ (Hall k Hk) Hf) as (it' & Hit & Hidk & _).
  congruence.
Qed.

Lemma Evolves_parent_own st st' p ids pit :
  Evolves st st' p ids → heap st !! p = Some pit →
  ∃ c, heap st' !! p = Some (set_children c pit)
       ∧ is_own (set_children c pit) = is_own pit.
Proof.
  intros E Hp. destruct (ev_parent _ _ _ _ E pit Hp) as (c & Hc).
  destruct (ev_kind _ _ _ _ E p pit Hp) as (it' & Hit' & _ & Ho).
  exists c. split; [done|]. congruence.
Qed.

Lemma Evolves_children st st' p ids pit :
  Evolves st st' p ids → heap st !! p = Some pit →
  ∀ q qit, q ≠ p → heap st !! q = Some qit → is_own qit = true →
           heap st' !! q = heap st !! q →
           children_of st' q = children_of st q.
Proof.
  intros E Hp q qit Hne Hq Ho Hsame. unfold children_of. rewrite Hsame, Hq.
  unfold is_own in Ho. by destruct (ti_children qit).
Qed.

(** A settled task under [p] stays settled through an evolution that
    names none of its ids, given the children of [p] at the task's id. *)
Lemma settled_through tag fd st st' p t ids :
  settled tag fd st p t → heap_wf st →
  ready st p ids → (∀ k, k ∈ ids_task t → k ∉ ids) →
  (∀ pit, heap st !! p = Some pit → ti_id pit ∉ ids_task t) →
  Evolves st st' p ids →
  children_of st' p !! task_id t = children_of st p !! task_id t →
  settled tag fd st' p t.
Proof.
  intros Hs Hwf Hready Hdis Hpid E Hchild.
  apply (settled_frame tag fd st st' p t Hs); [| |done].
  - intros k r Hk Hr.
    destruct (settled_nodes _ _ _ _ _ Hs k Hk) as (r' & it & Hr' & Hit & Hid & Ho).
    rewrite Hr in Hr'. injection Hr' as <-.
    split; [by rewrite (ev_flat _ _ _ _ E k (Hdis k Hk))|].
    apply (ev_frame _ _ _ _ E).
    + by eapply heap_wf_lookup.
    + intros k2 Hk2 Hf2.
      pose proof (ready_node_id _ _ _ _ _ _ Hready Hk2 Hf2 Hit) as Heq.
      apply (Hdis k Hk). congruence.
    + intros ->. apply (Hpid it Hit). by rewrite Hid.
  - intros pit Hp. by eapply Evolves_parent_own.
Qed.

Lemma loop_from_tasks ts : Forall settles_task ts → settles_loop ts.
Proof.
  induction ts as [|t ts IH]; intros Hall tag fd p st Hready; cbn zeta.
  - cbn. split; [done|]. split; [|done].
    apply Evolves_refl. by destruct Hready as (_ & ? & _).
  - apply Forall_cons in Hall as [Ht Hts]. specialize (IH Hts).
    rewrite ids_forest_cons in Hready.
    destruct (Ht tag fd p st (ready_app_l _ _ _ _ Hready)) as (Hs1 & E1 & Hk1).
    cbn zeta in *. unfold collectLoop. cbn [foldl].
    set (st1 := collectTask tag fd p t st) in *.
    pose proof (ready_after _ _ _ _ _ Hready E1) as Hready1.
    destruct (IH tag fd p st1 Hready1) as (Hs2 & E2 & Hk2). cbn zeta in *.
    fold (collectLoop tag fd p ts st1).
    set (st' := collectLoop tag fd p ts st1) in *.
    destruct Hready as (Hnd & Hwf & (pit & Hp & Hop & Hidp) & Hreuse).
    apply NoDup_app in Hnd as (Hnd1 & Hdis & Hnd2).
    split; [|split].
    + constructor; [|done].
      apply (settled_through tag fd st1 st' p t (ids_forest ts)); try done.
      * apply (ev_wf _ _ _ _ E1).
      * intros pit1 Hp1 Hin.
        destruct (ev_kind _ _ _ _ E1 p pit Hp) as (pit1' & Hp1' & Hid1 & _).
        rewrite Hp1 in Hp1'. injection Hp1' as <-.
        apply Hidp. rewrite <- Hid1. apply elem_of_app. by left.
      * apply Hk2. intros Hin. apply (Hdis (task_id t)).
        -- rewrite ids_task_unfold. left.
        -- by apply ids_forest_top.
    + rewrite ids_forest_cons. eapply Evolves_trans.
      * eapply Evolves_weaken; [|exact E1]. intros k Hk. apply elem_of_app. by left.
      * eapply Evolves_weaken; [|exact E2]. intros k Hk. apply elem_of_app. by right.
    + intros k Hk. cbn [map] in Hk. rewrite Hk2, Hk1; [done| |].
      * intros ->. apply Hk. left.
      * intros Hin. apply Hk. by right.
Qed.

Lemma tasks_from_loop ts : settles_loop ts → settles_tasks ts.
Proof.
  intros Hloop tag fd p st Hready. cbn zeta. unfold collectTasks.
  destruct (Hloop tag fd p st Hready) as (Hs & E & C). cbn zeta in *.
  set (st2 := collectLoop tag fd p ts st) in *.
  pose proof Hready as (Hnd & Hwf & (pit & Hp & Hop & Hidp) & Hreuse).
  destruct (Evolves_parent_own _ _ _ _ _ E Hp) as (c & Hp2 & Hop2).
  assert (Hown2 : is_own (set_children c pit) = true) by congruence.
  pose proof (λ ids', prune_Evolves p (map task_id ts) st2 _ ids'
                       (ev_wf _ _ _ _ E) Hp2 Hown2) as Epr.
  pose proof (prune_children p (map task_id ts) st2 _ Hp2 Hown2) as Hch.
  set (st' := prune p (map task_id ts) st2) in *.
  assert (Hready2 : ready st2 p []).
  { split; [constructor|]. split; [apply (ev_wf _ _ _ _ E)|].
    split; [|constructor]. exists (set_children c pit).
    split; [done|]. split; [done|]. intros Hin. by apply elem_of_nil in Hin. }
  assert (Hkeep : ∀ t, t ∈ ts →
            children_of st' p !! task_id t = children_of st2 p !! task_id t).
  { intros t Ht. rewrite Hch.
    destruct (children_of st2 p !! task_id t) as [r|] eqn:Hr.
    - apply map_lookup_filter_Some. split; [done|]. cbn.
      apply list_elem_of_fmap. eauto.
    - apply map_lookup_filter_None. by left. }
  split; [|split].
  - rewrite Forall_forall in Hs. apply Forall_forall. intros t Ht.
    apply (settled_through tag fd st2 st' p t []); try done.
    + by apply Hs.
    + apply (ev_wf _ _ _ _ E).
    + intros k _ Hin. by apply elem_of_nil in Hin.
    + intros pit2 Hp2' Hin. rewrite Hp2 in Hp2'. injection Hp2' as <-.
      apply Hidp. cbn.
      apply list_elem_of_lookup in Ht as [i Hi].
      clear -Hin Hi. revert i Hi. induction ts as [|x xs IHxs]; intros i Hi; [done|].
      rewrite ids_forest_cons. apply elem_of_app. destruct i as [|i]; cbn in Hi.
      * left. by injection Hi as ->.
      * right. by eapply IHxs.
    + by apply Hkeep.
  - apply set_eq. intros k. rewrite elem_of_dom, elem_of_list_to_set, Hch.
    split.
    + intros [r Hr]. apply map_lookup_filter_Some in Hr as [_ Hr]. done.
    + intros Hk. apply list_elem_of_fmap in Hk as (t & -> & Ht).
      rewrite Forall_forall in Hs. specialize (Hs t Ht).
      inversion Hs as [p' t' r (_ & Hc & _) _]; subst.
      exists r. apply map_lookup_filter_Some. split; [done|]. cbn.
      apply list_elem_of_fmap. eauto.
  - eapply Evolves_trans; [exact E|apply Epr].
Qed.

Lemma settle_set_children tag T P t c it :
  settle tag T P t (set_children c it) = set_children c (settle tag T P t it).
Proof.
  unfold settle.
  destruct (task_location t), (result_errors (task_result t)); reflexivity.
Qed.

Lemma task_from_tasks t :
  (∀ ts, task_tasks t = Some ts → settles_tasks ts) → settles_task t.
Proof.
  intros Hsub tag fd p st Hready. cbn zeta.
  rewrite ids_task_unfold in Hready.
  destruct (node_step tag fd p t st _ Hready)
    as (r & st1 & Hrun & Hnode & E1 & Hk1).
  rewrite collectTask_unfold, Hrun.
  destruct (task_tasks t) as [ts|] eqn:Hts.
  2:{ rewrite ids_task_unfold, Hts. split; [|split; [done|done]].
      apply (settled_node _ _ _ p t r Hnode). intros ts. by rewrite Hts. }
  pose proof Hnode as (Hf & Hc & Hne & (pit1 & Hp1 & Hop1)
                       & (it1 & Hit1 & Hset1 & Hid1 & Ho1) & Hd1).
  assert (Hready1 : ready st1 p (ids_forest ts))
    by exact (ready_after st st1 p [task_id t] (ids_forest ts) Hready E1).
  assert (Hnotin : task_id t ∉ ids_forest ts).
  { destruct Hready as (Hnd & _). by apply NoDup_cons in Hnd as [? _]. }
  assert (Hreadyr : ready st1 r (ids_forest ts)).
  { apply (ready_parent st1 p r _ it1); try done. by rewrite Hid1. }
  destruct (Hsub ts eq_refl tag fd r st1 Hreadyr) as (Hs & Hdom & E2).
  cbn zeta in *. set (st' := collectTasks tag fd ts r st1) in *.
  assert (Hplt : p < next st1).
  { eapply heap_wf_lookup; [|done]. apply (ev_wf _ _ _ _ E1). }
  assert (Hpun : ∀ k, k ∈ ids_forest ts → flatTestItems st1 !! k ≠ Some p).
  { intros k Hk. by eapply ready_not_parent. }
  destruct (ev_frame _ _ _ _ E2 p Hplt Hpun Hne) as [Hph Hpd].
  assert (Hpc : children_of st' p = children_of st1 p).
  { unfold children_of. rewrite Hph, Hp1.
    unfold is_own in Hop1. by destruct (ti_children pit1). }
  destruct (Evolves_parent_own _ _ _ _ _ E2 Hit1) as (c & Hr' & Hor').
  split; [|split].
  - apply (settled_node _ _ _ p t r).
    + split; [|split; [|split; [done|split; [|split]]]].
      * by rewrite (ev_flat _ _ _ _ E2).
      * by rewrite Hpc.
      * exists pit1. split; [congruence|done].
      * exists (set_children c it1). split; [done|].
        split; [|split; [done|congruence]].
        unfold tags_of in *. rewrite Hph. rewrite settle_set_children.
        by rewrite Hset1.
      * intros d Hd. rewrite (ev_parent_data _ _ _ _ E2). by apply Hd1.
    + intros ts' Hts'. rewrite Hts in Hts'. injection Hts' as <-. done.
  - rewrite ids_task_unfold, Hts. eapply Evolves_trans.
    + eapply Evolves_weaken; [|exact E1].
      intros k Hk. apply list_elem_of_singleton in Hk as ->. left.
    + apply (Evolves_reparent st1 st' r p _ (task_id t)); try done.
      * eapply Evolves_weaken; [|exact E2]. intros k Hk. by right.
      * left.
      * intros k [->|Hk]%elem_of_cons; [congruence|by apply Hpun].
  - intros k Hk. rewrite Hpc. by apply Hk1.
Qed.

(** [collectTasks] settles every report that fits the state. *)
Lemma collectTask_settles t : settles_task t.
Proof.
  induction t as [t IH] using Task_nested_ind.
  apply task_from_tasks. intros ts Hts.
  apply tasks_from_loop, loop_from_tasks. by apply IH.
Qed.

Lemma collectTasks_settles ts : settles_tasks ts.
Proof.
  apply tasks_from_loop, loop_from_tasks.
  apply Forall_forall. intros t _. apply collectTask_settles.
Qed.

(** *** Collection: a settled report is a fixed point *)





(** *** Collection: what a settled report shows *)



(** *** Collection: sequences of calls *)





Lemma all_tasks_elem ts x : x ∈ all_tasks ts → ∃ t, t ∈ ts ∧ x ∈ subtasks t.
Proof.
  unfold all_tasks. induction ts as [|t ts IH]; cbn;
    [intros H; by apply elem_of_nil in H|].
  intros [H|H]%elem_of_app.
  - exists t. split; [left|done].
  - destruct (IH H) as (y & Hy & Hx). exists y. split; [by right|done].
Qed.


Section Folders.

Variables normalize dirname basename : string → string.

Abbreviation getOrCreateFolderTestItem :=
  (getOrCreateFolderTestItem normalize dirname basename).
Abbreviation getOrCreateFileTestItem :=
  (getOrCreateFileTestItem normalize dirname basename).

(** A folder lookup leaves the file indices alone and ends with the folder
    registered under the path it was asked for. *)
Lemma getOrCreateFolderTestItem_frame fuel api folder st p stp :
  getOrCreateFolderTestItem fuel api folder st = Some (p, stp) →
  fileItems stp = fileItems st
  ∧ testItemsByFile stp = testItemsByFile st
  ∧ folderItems stp !! folder = Some p.
Proof.
  revert folder st p stp. induction fuel as [|fuel IH]; intros folder st p stp.
  - cbn. destruct (folderItems st !! folder) as [cached|] eqn:Hc; [|done].
    intros [= <- <-]. done.
  - cbn. destruct (folderItems st !! folder) as [cached|] eqn:Hc.
    { intros [= <- <-]. done. }
    destruct (TestTree.getOrCreateFolderTestItem _ _ _ fuel api (dirname folder) st)
      as [[pp stpp]|] eqn:Hrec; [|done].
    destruct (IH _ _ _ _ Hrec) as (H1 & H2 & _).
    intros [= <- <-]. cbn.
    destruct (children_add_frame pp (next stpp)
                (upd (next stpp) (set_tags [api_tag api])
                   (_createFolderItem normalize basename (Uri_file folder)
                      (Some pp) stpp).2)) as (F1 & F2 & F3 & _).
    unfold _createFolderItem in *. cbn in *.
    rewrite F1, F2. split; [done|]. split; [done|].
    by rewrite lookup_insert_eq.
Qed.

(** A cached folder is answered whatever the fuel. *)
Lemma getOrCreateFolderTestItem_cached fuel api folder st p :
  folderItems st !! folder = Some p →
  getOrCreateFolderTestItem fuel api folder st
  = Some (p, upd p (merge_tag (api_tag api)) st).
Proof. intros H. destruct fuel; cbn; by rewrite H. Qed.


(** The creation branch of [getOrCreateFileTestItem]. *)
Lemma getOrCreateFileTestItem_fresh fuel api project file st p stp :
  fileItems st !! (normalize file ++ project)%string = None →
  getOrCreateFolderTestItem fuel api (dirname file) st = Some (p, stp) →
  ∃ st1,
    getOrCreateFileTestItem fuel api project file st = Some (next stp, st1)
    ∧ fileItems st1
      = <[(normalize file ++ project)%string := next stp]> (fileItems st)
    ∧ testItemsByFile st1
      = <[normalize file :=
            default [] (testItemsByFile st !! normalize file) ++ [next stp]]>
          (testItemsByFile st)
    ∧ folderItems st1 = folderItems stp
    ∧ next st1 = S (next stp)
    ∧ face <$> heap st1 !! next stp
      = Some ((normalize file ++ project)%string,
              file_label basename project file)
    ∧ getTestData st1 (next stp)
      = Some (TestFile (mkTestFileData p (normalize file) api project))
    ∧ (∀ x, x ≠ next stp → face <$> heap st1 !! x = face <$> heap stp !! x)
    ∧ (∀ x, x ≠ next stp → getTestData st1 x = getTestData stp x).
Proof.
  intros Hfresh Hfolder.
  destruct (getOrCreateFolderTestItem_frame _ _ _ _ _ _ Hfolder) as (Hfi & Hby & _).
  unfold TestTree.getOrCreateFileTestItem. rewrite Hfresh, Hfolder.
  cbn [createTestItem].
  set (a := next stp).
  set (stc := register a _ (upd a _ (upd a _ (with_next (S a) _)))).
  destruct (children_add_frame p a stc) as (F1 & F2 & F3 & F4 & F5 & F6).
  eexists. split; [reflexivity|]. cbn.
  rewrite ?F1, ?F2, ?F3, ?F5, ?F6. cbn. rewrite ?Hfi, ?Hby.
  split; [done|]. split; [done|]. split; [done|]. split; [done|].
  assert (Hface : ∀ x, face <$> heap (children_add p a stc) !! x
                       = face <$> (<[a := mkTestItem (normalize file ++ project)
                                           (file_label basename project file)
                                           (Uri_file file) (OwnChildren ∅) None []
                                           None None None false false]> (heap stp)) !! x).
  { intros x. rewrite face_children_add. unfold stc.
    rewrite heap_register, !face_upd by done. done. }
  split; [|split; [|split]].
  - by rewrite Hface, lookup_insert_eq.
  - unfold getTestData. cbn [testData with_testItemsByFile with_fileItems].
    rewrite F5. unfold stc. cbn [testData register with_testData].
    by rewrite lookup_insert_eq.
  - intros x Hx. by rewrite Hface, lookup_insert_ne.
  - intros x Hx. unfold getTestData.
    cbn [testData with_testItemsByFile with_fileItems].
    rewrite F5. unfold stc. cbn [testData register with_testData].
    by rewrite lookup_insert_ne.
Qed.


End Folders.

Section Deletion.

Variables normalize dirname basename : string → string.

(** What the watcher does for a file node that has a parent item, whose
    ancestors are each a child of the next: its callback for the path
    returns, having deleted the node from its parent's children and then
    each ancestor that was left childless from its own parent's, up to the
    first ancestor that has children left or has no parent; that one and
    those above it stay where they were.  The node is gone from the index
    maps of file nodes too. *)
Theorem watcher_prunes_file_node (fuel : nat) (st : State) (item : ref)
    (it : TestItem) (d : TestFileData) (parent : ref) (rest : list ref)
    (file : Uri) :
  heap st !! item = Some it →
  getTestData st item = Some (TestFile d) →
  ancestors fuel st item = Some (parent :: rest) →
  linked st item (parent :: rest) →
  testItemsByFile st !! normalize (fsPath file) = Some [item] →
  ∃ st' deleted kept,
    onDidDelete normalize fuel file st = Some st'
    ∧ Pruned st item (parent :: rest) st' deleted kept
    ∧ item ∈ deleted
    ∧ children_of st' parent !! ti_id it = None
    ∧ fileItems st' !! ti_id it = None
    ∧ testItemsByFile st' !! filepath d = None.
Proof.
  intros Hit Hd Hanc Hlink Hby.
  destruct (recursiveDelete_climb fuel st item _ Hanc Hlink)
    as (st' & deleted & kept & Hrun & HP & _).
  exists st', deleted, kept. split; [|split; [done|]].
  { unfold onDidDelete. rewrite Hby. cbn. by rewrite Hrun. }
  assert (Hin : item ∈ deleted) by (by apply (pruned_node _ _ _ _ _ _ HP)).
  split; [done|]. split.
  { apply (pruned_gone _ _ _ _ _ _ HP 0 item parent); [|done|done|].
    - destruct deleted; [by apply elem_of_nil in Hin|cbn; lia].
    - unfold id_of. by rewrite Hit. }
  destruct fuel as [|fuel]; [done|]. cbn [recursiveDelete] in Hrun.
  cbn in Hanc. rewrite Hit in Hanc, Hrun.
  destruct (ti_parent it) as [p|] eqn:Hp; [|done].
  destruct (ancestors fuel st p) as [l|] eqn:Hl; [|done].
  cbn in Hanc. injection Hanc as -> ->.
  destruct (detach_file item it parent st d Hd) as [Hby' Hfi'].
  assert (Hs : shrinks (detach item it parent st) st').
  { destruct (Nat.eqb _ 0).
    - destruct (recursiveDelete_returns fuel (detach item it parent st) parent rest)
        as (st'' & Hrun' & Hs).
      { rewrite (ancestors_ext _ _ st); [done|]. intros r. apply shape_detach. }
      congruence.
    - injection Hrun as <-. apply shrinks_refl. }
  destruct Hs as (Hs1 & Hs2 & _). split.
  - destruct (fileItems st' !! ti_id it) eqn:E; [|done].
    apply Hs1 in E. rewrite Hfi', lookup_delete_eq in E. done.
  - destruct (testItemsByFile st' !! filepath d) eqn:E; [|done].
    apply Hs2 in E. rewrite Hby', lookup_delete_eq in E. done.
Qed.

(** C10.  [recursiveDelete] of a file node that has a parent deletes the
    whole entry of the node's path in [testItemsByFile], so right after it
    [getFileTestItems] answers the empty list for that path.  This is so
    even when another file node (another id) of the same path is still a
    child of the same parent: that one stays in the tree, in [fileItems]
    and in the side table. *)
Theorem recursiveDelete_drops_path_entry (fuel : nat) (st : State)
    (item : ref) (it : TestItem) (parent : ref) (d : TestFileData)
    (chain : list ref) :
  heap st !! item = Some it →
  ti_parent it = Some parent →
  getTestData st item = Some (TestFile d) →
  ancestors fuel st item = Some chain →
  ∃ st',
    recursiveDelete fuel item st = Some st'
    ∧ testItemsByFile st' !! filepath d = None
    ∧ (∀ path, normalize path = filepath d →
               getFileTestItems normalize path st' = [])
    ∧ (∀ other oit od,
         heap st !! other = Some oit →
         getTestData st other = Some (TestFile od) →
         filepath od = filepath d →
         ti_id oit ≠ ti_id it →
         fileItems st !! ti_id oit = Some other →
         children_of st parent !! ti_id oit = Some other →
         fileItems st' !! ti_id oit = Some other
         ∧ children_of st' parent !! ti_id oit = Some other
         ∧ getTestData st' other = Some (TestFile od)).
Proof.
  intros Hit Hp Hd Hanc.
  destruct (recursiveDelete_returns fuel st item chain Hanc) as (st' & Hrun & _).
  exists st'. split; [done|].
  destruct fuel as [|fuel]; [done|]. cbn [recursiveDelete] in Hrun.
  cbn in Hanc. rewrite Hit in Hanc, Hrun. rewrite Hp in Hanc, Hrun.
  destruct (ancestors fuel st parent) as [rest|] eqn:Hrest; [|done].
  destruct (detach_file item it parent st d Hd) as [Hby' Hfi'].
  set (st1 := detach item it parent st) in *.
  assert (Hnone : testItemsByFile st' !! filepath d = None).
  { assert (Hs : shrinks st1 st').
    { destruct (Nat.eqb _ 0).
      - destruct (recursiveDelete_returns fuel st1 parent rest)
          as (st'' & Hrun' & Hs).
        { rewrite (ancestors_ext _ _ st); [done|]. intros r. apply shape_detach. }
        congruence.
      - injection Hrun as <-. apply shrinks_refl. }
    destruct Hs as (_ & Hs2 & _).
    destruct (testItemsByFile st' !! filepath d) eqn:E; [|done].
    apply Hs2 in E. rewrite Hby', lookup_delete_eq in E. done. }
  split; [done|]. split.
  { intros path Hpath. unfold getFileTestItems. by rewrite Hpath, Hnone. }
  intros other oit od Hother Hod Hsame Hid Hfile Hchild.
  assert (Hchild1 : children_of st1 parent !! ti_id oit = Some other).
  { unfold st1. rewrite children_of_detach.
    by rewrite children_delete_other_key. }
  assert (Hsize : Nat.eqb (children_size st1 parent) 0 = false).
  { apply Nat.eqb_neq. unfold children_size. intros Hz.
    apply map_size_empty_inv in Hz. by rewrite Hz, lookup_empty in Hchild1. }
  rewrite Hsize in Hrun. injection Hrun as <-.
  split; [|split; [done|]].
  - rewrite Hfi'. by rewrite lookup_delete_ne.
  - unfold st1. by rewrite getTestData_detach.
Qed.



End Deletion.

End TreeFacts.

(** * Further properties of the runner's texts *)

Module TextFacts.
Import Host Vitest TestTreeData TestTree RunLifecycle RunnerText TextSpec.

Local Open Scope list_scope.
Local Open Scope nat_scope.

Lemma formatFrom_line_feeds after_cr s i :
  String.get i (formatFrom after_cr s) = Some LF →
  (i = 0 ∧ after_cr = true)
  ∨ ∃ j, i = S j ∧ String.get j (formatFrom after_cr s) = Some CR.
Proof.
  revert after_cr i. induction s as [|c s IH]; intros b i; cbn; [done|].
  destruct (Ascii.eqb c LF && negb b) eqn:E.
  - destruct i as [|[|i]]; cbn; [done| |].
    + intros _. right. by exists 0.
    + intros H. apply IH in H as [[_ [=]]|(j & -> & Hj)].
      right. exists (S (S j)). done.
  - destruct i as [|i]; cbn.
    + intros [= ->]. left. split; [done|].
      rewrite Ascii.eqb_refl in E. by destruct b.
    + intros H. apply IH in H as [[-> Hc]|(j & -> & Hj)].
      * right. exists 0. split; [done|]. cbn. apply Ascii.eqb_eq in Hc. by rewrite Hc.
      * right. exists (S j). done.
Qed.

Lemma strip_cr_formatFrom after_cr s :
  strip_cr (formatFrom after_cr s) = strip_cr s.
Proof.
  revert after_cr. induction s as [|c s IH]; intros b; cbn; [done|].
  destruct (Ascii.eqb c LF && negb b) eqn:E; cbn.
  - apply andb_true_iff in E as [Hc _]. apply Ascii.eqb_eq in Hc. subst c.
    cbn. by rewrite IH.
  - rewrite IH. done.
Qed.

Lemma formatFrom_again after_cr s :
  formatFrom after_cr (formatFrom after_cr s) = formatFrom after_cr s.
Proof.
  revert after_cr. induction s as [|c s IH]; intros b; cbn; [done|].
  destruct (Ascii.eqb c LF && negb b) eqn:E; cbn.
  - apply andb_true_iff in E as [_ Hb]. destruct b; [done|].
    change (String CR (String LF (formatFrom false (formatFrom false s)))
            = String CR (String LF (formatFrom false s))).
    by rewrite IH.
  - rewrite E. by rewrite IH.
Qed.

(** X1.  In the text [formatTestOutput] returns, every line feed comes
    right after a carriage return, and apart from carriage returns the text
    is the one given. *)
Theorem formatTestOutput_line_ends (output : string) :
  crlf_only (formatTestOutput output)
  ∧ strip_cr (formatTestOutput output) = strip_cr output.
Proof.
  split; [|apply strip_cr_formatFrom].
  intros i Hi. apply formatFrom_line_feeds in Hi as [[_ [=]]|H]. exact H.
Qed.

(** X2.  [formatTestOutput] changes nothing in a text it has returned, and
    nothing in a text whose line feeds all follow a carriage return. *)
Theorem formatTestOutput_idempotent (output : string) :
  formatTestOutput (formatTestOutput output) = formatTestOutput output
  ∧ (crlf_only output → formatTestOutput output = output).
Proof.
  split; [apply formatFrom_again|].
  unfold formatTestOutput. intros H.
  assert (G : ∀ s b, (∀ i, String.get i s = Some LF →
                           (i = 0 ∧ b = true)
                           ∨ ∃ j, i = S j ∧ String.get j s = Some CR) →
                     formatFrom b s = s).
  { clear. induction s as [|c s IH]; intros b H; cbn; [done|].
    destruct (Ascii.eqb c LF && negb b) eqn:E.
    - apply andb_true_iff in E as [Hc Hb]. apply Ascii.eqb_eq in Hc. subst c.
      destruct (H 0 eq_refl) as [[_ ->]|(j & [=] & _)]. done.
    - f_equal. apply IH. intros i Hi.
      destruct (H (S i) Hi) as [[[=] _]|(j & [= <-] & Hj)].
      destruct i as [|i]; [|right; eauto].
      left. split; [done|]. cbn in Hj. injection Hj as ->. done. }
  apply G. intros i Hi. right. by apply H.
Qed.

End TextFacts.

(** * Further properties of the runner: paths, marks and task updates *)

Module EventFacts.
Import Host Vitest TestTreeData TestTree TestRunner RunLifecycle.
Import RunnerText RunnerEvents RunnerSpec EventSpec.

Local Open Scope list_scope.
Local Open Scope nat_scope.

(** [Array.from(new Set(l))] *)
Lemma dedupe_from_elem {A} `{EqDecision A} (seen l : list A) x :
  x ∈ dedupe_from seen l ↔ x ∈ l ∧ x ∉ seen.
Proof.
  revert seen. induction l as [|y l IH]; intros seen; cbn.
  - split; [by intros ?%elem_of_nil|by intros [?%elem_of_nil _]].
  - case_bool_decide as Hy.
    + rewrite IH, elem_of_cons. split; [tauto|].
      intros [[->|Hx] Hn]; [done|tauto].
    + rewrite elem_of_cons, IH, !elem_of_cons. split.
      * intros [->|(Hx & Hn)]; [tauto|]. split; [tauto|]. intros Hs. apply Hn. by right.
      * intros [[->|Hx] Hn]; [by left|].
        destruct (decide (x = y)) as [->|Hne]; [by left|]. right. split; [done|].
        intros [?|?]; done.
Qed.

Lemma dedupe_from_NoDup {A} `{EqDecision A} (seen l : list A) :
  NoDup (dedupe_from seen l).
Proof.
  revert seen. induction l as [|y l IH]; intros seen; cbn; [constructor|].
  case_bool_decide as Hy; [apply IH|]. constructor; [|apply IH].
  rewrite dedupe_from_elem. intros [_ Hn]. apply Hn. by left.
Qed.

Lemma dedupe_elem {A} `{EqDecision A} (l : list A) x : x ∈ dedupe l ↔ x ∈ l.
Proof.
  unfold dedupe. rewrite dedupe_from_elem. split; [tauto|].
  intros Hx. split; [done|]. by intros ?%elem_of_nil.
Qed.

Lemma ends_with_slash_app (p : string) : ends_with_slash (p ++ "/") = true.
Proof.
  induction p as [|c p IH]; [reflexivity|].
  change (ends_with_slash (String c (p ++ "/")) = true).
  destruct (p ++ "/")%string eqn:E; [by destruct p|]. exact IH.
Qed.

Section Paths.

Variable normalize : string → string.

(** X3.  [getTestFiles] lists each path once and never the empty string;
    its paths are the non-empty ones that the items give; and the path of a
    folder item is there with its closing slash, which is the mark by which
    [startTestRun] takes a path for a folder. *)
Theorem getTestFiles_paths (tests : list ref) (st : State) :
  NoDup (getTestFiles normalize tests st)
  ∧ (∀ p, p ∈ getTestFiles normalize tests st
          ↔ p ≠ ""%string ∧ ∃ test, test ∈ tests ∧ p = test_path normalize st test)
  ∧ (∀ test parent,
       test ∈ tests → getTestData st test = Some (TestFolder parent) →
       (normalize (fsPath (uri_of st test)) ++ "/")%string
         ∈ getTestFiles normalize tests st
       ∧ ends_with_slash (normalize (fsPath (uri_of st test)) ++ "/") = true).
Proof.
  assert (Hchar : ∀ p, p ∈ getTestFiles normalize tests st
          ↔ p ≠ ""%string ∧ ∃ test, test ∈ tests ∧ p = test_path normalize st test).
  { intros p. unfold getTestFiles.
    rewrite dedupe_elem, list_elem_of_filter, list_elem_of_fmap.
    split; intros [Hp (test & H1 & H2)]; (split; [done|]); exists test; done. }
  split; [apply dedupe_from_NoDup|]. split; [exact Hchar|].
  intros test parent Hin Hd. split; [|apply ends_with_slash_app].
  apply Hchar. split.
  - by destruct (normalize (fsPath (uri_of st test))).
  - exists test. split; [done|]. unfold test_path. by rewrite Hd.
Qed.

End Paths.

Section Handlers.

Variable stripAnsi : string → string.
Variable path_sep : string.

Abbreviation markResult := (markResult stripAnsi path_sep).
Abbreviation markTestCase := (markTestCase stripAnsi path_sep).
Abbreviation onTaskUpdate := (onTaskUpdate stripAnsi path_sep).

(** What [markResult] does at most: it writes no index and no side table,
    and makes at most one call, about the item and only if it is a test
    case. *)
Lemma markResult_effect test result w :
  flatTestItems (tree (markResult test result w)) = flatTestItems (tree w)
  ∧ testData (tree (markResult test result w)) = testData (tree w)
  ∧ ∃ new, calls (markResult test result w) = calls w ++ new
           ∧ length new ≤ 1
           ∧ ∀ c, c ∈ new →
                  call_target c = Some test
                  ∧ is_test_case (tree w) test = true.
Proof.
  unfold TestRunner.markResult, is_test_case.
  destruct (getTestData (tree w) test) as [d|] eqn:Hd; cbn [from_option].
  2:{ cbn [negb]. split; [|split].
      - unfold markSuite. repeat case_match; done.
      - unfold markSuite. repeat case_match; done.
      - exists []. rewrite app_nil_r. split; [|split; [cbn; lia|by intros c ?%elem_of_nil]].
        unfold markSuite. repeat case_match; done. }
  destruct (isTestCase d) eqn:Hk; cbn [negb].
  - assert (Hone : ∀ c, call_target c = Some test →
              ∃ new, calls (call c w) = calls w ++ new ∧ length new ≤ 1
                     ∧ ∀ c', c' ∈ new → call_target c' = Some test ∧ true = true).
    { intros c Hc. exists [c]. split; [done|]. split; [cbn; lia|].
      by intros c' ->%list_elem_of_singleton. }
    assert (Hnone : ∃ new, calls w = calls w ++ new ∧ length new ≤ 1
                     ∧ ∀ c', c' ∈ new → call_target c' = Some test ∧ true = true).
    { exists []. rewrite app_nil_r. split; [done|]. split; [cbn; lia|].
      by intros c' ?%elem_of_nil. }
    destruct result as [r|]; [|split; [done|split; [done|by apply Hone]]].
    unfold TestRunner.markTestCase.
    destruct (heap (tree w) !! test) as [it|]; [|done].
    repeat case_match; (split; [done|split; [done|]]);
      try (by apply Hone); exact Hnone.
  - split; [|split].
    + unfold markSuite. repeat case_match; done.
    + unfold markSuite. repeat case_match; done.
    + exists []. rewrite app_nil_r. split; [|split; [cbn; lia|by intros c ?%elem_of_nil]].
      unfold markSuite. repeat case_match; done.
Qed.

(** X4.  For a node registered as a test case, [markResult] leaves the
    tree as it is and makes at most one call on the run, about that node;
    with no result the call is [started]. *)
Theorem markResult_test_case (test : ref) (result : option TaskResult)
    (w : World) :
  is_test_case (tree w) test = true →
  let w' := markResult test result w in
  tree w' = tree w
  ∧ (∃ new, calls w' = calls w ++ new ∧ length new ≤ 1
            ∧ ∀ c, c ∈ new → call_target c = Some test)
  ∧ (result = None → calls w' = calls w ++ [Started test]).
Proof.
  intros Hk. cbn zeta.
  destruct (markResult_effect test result w) as (_ & _ & new & Hnew & Hlen & Hall).
  split; [|split].
  - unfold TestRunner.markResult, is_test_case in *.
    destruct (getTestData (tree w) test) as [d|]; [|done]. cbn in Hk. rewrite Hk.
    cbn [negb]. destruct result as [r|]; [|done].
    unfold TestRunner.markTestCase. repeat case_match; done.
  - exists new. split; [done|]. split; [done|]. intros c Hc. by apply Hall.
  - intros ->. unfold TestRunner.markResult, is_test_case in *.
    destruct (getTestData (tree w) test) as [d|]; [|done]. cbn in Hk. by rewrite Hk.
Qed.

Lemma onTaskUpdate_cons testRun pack packs w :
  onTaskUpdate testRun (pack :: packs) w
  = onTaskUpdate testRun packs
      (match getTestItemByTaskId pack.1 (tree w) with
       | None => log_error ("Cannot find task during onTaskUpdate " ++ pack.1) w
       | Some test => if testRun then markResult test pack.2 w else w
       end).
Proof. reflexivity. Qed.

(** X5.  While no run is open, task updates mark nothing: the listener
    makes no call and leaves the tree as it is; it gives [log.error] one
    line for each pack whose id names no item, in order. *)
Theorem onTaskUpdate_without_run (packs : list (string * option TaskResult))
    (w : World) :
  let w' := onTaskUpdate false packs w in
  calls w' = calls w
  ∧ tree w' = tree w
  ∧ logged_errors w'
    = logged_errors w
      ++ map (λ id, ("Cannot find task during onTaskUpdate " ++ id)%string)
             (unknown_ids (tree w) packs).
Proof.
  cbn zeta. revert w. induction packs as [|pack packs IH]; intros w.
  - cbn. by rewrite app_nil_r.
  - rewrite onTaskUpdate_cons. unfold unknown_ids, getTestItemByTaskId.
    rewrite filter_cons.
    destruct (flatTestItems (tree w) !! pack.1) as [test|] eqn:E.
    + rewrite decide_False by done. apply IH.
    + rewrite decide_True by done.
      destruct (IH (log_error ("Cannot find task during onTaskUpdate " ++ pack.1) w))
        as (H1 & H2 & H3).
      split; [exact H1|]. split; [exact H2|]. rewrite H3. cbn.
      by rewrite <- app_assoc.
Qed.


(** X7.  Whenever a failure message carries a location, the location is in
    the test item's own file and is a position of numbers, none of them
    NaN; without an error there is no location. *)
Theorem message_location_in_own_file (testItem : TestItem)
    (error : option TestError) (loc : Location) :
  tm_location (testMessageForTestError stripAnsi path_sep testItem error)
  = Some loc →
  fsPath (loc_uri loc) = fsPath (ti_uri testItem)
  ∧ (∃ L C, loc_range loc = mkPosition (Num L) (Num C))
  ∧ error ≠ None.
Proof.
  destruct error as [error|]; [|done]. unfold testMessageForTestError.
  rewrite (RunnerFacts.parseLocationFromStacks_find path_sep).
  destruct (List.find _ _) as [f|] eqn:Hf; cbn.
  2:{ by destruct (has_diff error) as [[? ?]|]. }
  apply find_some in Hf as [_ Hm]. unfold frame_matches in Hm.
  apply andb_true_iff in Hm as [Hm Hc]. apply andb_true_iff in Hm as [Hp Hl].
  apply String.eqb_eq in Hp.
  intros Hloc.
  assert (loc = mkLocation (Uri_file (replace_slashes path_sep (ps_file f)))
                  (mkPosition (pred_number (ps_line f)) (pred_number (ps_column f)))).
  { destruct (has_diff error) as [[? ?]|]; cbn in Hloc; congruence. }
  subst loc. cbn. split; [done|]. split; [|done].
  destruct (ps_line f), (ps_column f); try done. eauto.
Qed.

End Handlers.

End EventFacts.

(** * Further properties of the run life cycle *)

Module SignalFacts.
Import RunLifecycle RunLifecycleSpec SignalSpec.

Local Open Scope list_scope.
Local Open Scope nat_scope.

Lemma orphaned_same rn rn' d :
  signals rn' = signals rn → testRunDefer rn' = testRunDefer rn →
  orphaned rn d → orphaned rn' d.
Proof. unfold orphaned, resolved. intros -> ->. done. Qed.

Lemma resolved_resolve rn c d :
  resolved (resolve c rn) d
  = if decide (c = d) then bool_decide (d < length (signals rn))
    else resolved rn d.
Proof.
  unfold resolved, resolve. cbn. case_decide as E.
  - subst. destruct (decide (d < length (signals rn))) as [Hlt|Hge].
    + rewrite list_lookup_insert_eq by done. cbn. by rewrite bool_decide_eq_true_2.
    + rewrite list_insert_ge by lia. rewrite lookup_ge_None_2 by lia.
      cbn. by rewrite bool_decide_eq_false_2.
  - by rewrite list_lookup_insert_ne.
Qed.

Lemma signals_end rn :
  signals (endTestRun rn)
  = match testRunDefer rn with
    | Some c => <[c := true]> (signals rn)
    | None => signals rn
    end
  ∧ testRunDefer (endTestRun rn) = None
  ∧ signals (dispose rn) = signals (endTestRun rn)
  ∧ testRunDefer (dispose rn) = None.
Proof.
  unfold endTestRun, dispose.
  destruct (testRun rn); cbn; destruct (testRunDefer rn); cbn; done.
Qed.

Lemma defer_end rn : testRunDefer (endTestRun rn) = None.
Proof. apply signals_end. Qed.

Lemma defer_dispose rn : testRunDefer (dispose rn) = None.
Proof. apply signals_end. Qed.

Lemma orphaned_end rn d :
  orphaned rn d → orphaned (endTestRun rn) d ∧ orphaned (dispose rn) d.
Proof.
  intros (Hlt & Hres & Hcur).
  destruct (signals_end rn) as (Hs & Hd & Hs' & Hd').
  assert (G : ∀ rn', signals rn' = signals (endTestRun rn) →
                     testRunDefer rn' = None → orphaned rn' d).
  { intros rn' E1 E2. unfold orphaned, resolved in *. rewrite E1, E2, Hs.
    destruct (testRunDefer rn) as [c|]; [|done].
    rewrite length_insert. split; [done|]. split; [|done].
    rewrite list_lookup_insert_ne; [done|]. congruence. }
  split; apply G; done.
Qed.

Lemma orphaned_newDefer rn d : orphaned rn d → orphaned (newDefer rn) d.
Proof.
  intros (Hlt & Hres & Hcur). unfold orphaned, resolved, newDefer in *. cbn.
  rewrite length_app. cbn. split; [lia|]. split.
  - by rewrite lookup_app_l.
  - intros [= E]. lia.
Qed.

Section Lifecycle.

Variable getTestFilesInFolder : string → list string.
Variable included : Request → string → bool.

Abbreviation openRun := (openRun getTestFilesInFolder included).
Abbreviation startTestRun := (startTestRun getTestFilesInFolder included).
Abbreviation step := (step getTestFilesInFolder included).
Abbreviation exec := (exec getTestFilesInFolder included).

Lemma openRun_signals files request rn :
  signals (openRun files request rn) = signals rn
  ∧ testRunDefer (openRun files request rn) = testRunDefer rn.
Proof.
  unfold RunLifecycle.openRun.
  match goal with |- context [foldl ?f ?r files] =>
    pose proof (RunLifecycleFacts.openRun_loop getTestFilesInFolder included
                  request (length (runs rn)) files r) as Hl;
    cbn zeta in Hl end.
  destruct Hl as (_ & H2 & H3 & _). rewrite H2, H3. done.
Qed.

Lemma startTestRun_signals files primary rn :
  signals (startTestRun files primary rn) = signals rn
  ∧ testRunDefer (startTestRun files primary rn) = testRunDefer rn.
Proof.
  unfold RunLifecycle.startTestRun.
  destruct (match primary with
            | Some r => Some r
            | None => match nonContinuousRequest rn with
                      | Some r => Some r
                      | None => createContinuousRequest rn
                      end
            end) as [request|]; [|done].
  destruct (testRun rn); [done|]. apply openRun_signals.
Qed.

Lemma orphaned_step e rn rn' d :
  orphaned rn d → step e rn = Some rn' → orphaned rn' d.
Proof.
  intros Ho Hstep. destruct e; cbn in Hstep; simplify_eq.
  - destruct collecting; [done|].
    destruct (startTestRun_signals files None rn) as [H1 H2].
    by apply (orphaned_same rn).
  - unfold runTestItems. cbn.
    destruct (testRunDefer rn) eqn:E.
    + eapply orphaned_same; [| |exact Ho]; [done|by cbn].
    + apply orphaned_newDefer. eapply orphaned_same; [| |exact Ho]; done.
  - eapply orphaned_same; [| |exact Ho]; done.
  - eapply orphaned_same; [| |exact Ho]; done.
  - set (rn1 := with_continuousRequests _ rn).
    assert (Ho1 : orphaned rn1 d) by (eapply orphaned_same; [| |exact Ho]; done).
    change (filter (λ r : nat, r ≠ request) (continuousRequests rn))
      with (continuousRequests rn1).
    destruct (continuousRequests rn1); [by apply orphaned_end|done].
  - apply (orphaned_same (endTestRun rn)); [done|done|by apply orphaned_end].
  - destruct (testRun rn); [|done].
    destruct collecting; [by apply orphaned_end|].
    eapply orphaned_same; [| |exact Ho]; done.
  - by apply orphaned_end.
  - destruct (parked rn !! k) as [p|]; [|done].
    destruct (settled rn p); [|done]. simplify_eq.
    set (rn1 := with_parked _ rn).
    assert (Ho1 : orphaned rn1 d) by (eapply orphaned_same; [| |exact Ho]; done).
    destruct p as [signal files request|signal request|].
    + unfold startTestRun_resumed.
      destruct (openRun_signals files request (endTestRun rn1)) as [H1 H2].
      apply (orphaned_same (endTestRun rn1)); [done|done|by apply orphaned_end].
    + by apply orphaned_newDefer.
    + by apply orphaned_end.
Qed.

(** X8.  A completion signal that is unresolved and no longer the
    runner's current one stays so whatever happens next: nothing resolves
    it, and a call parked on it can never resume. *)
Theorem orphaned_signal_never_resolves (events : list Event) (rn rn' : Runner)
    (d : DeferId) :
  orphaned rn d →
  exec events rn = Some rn' →
  orphaned rn' d
  ∧ ∀ k p, parked rn' !! k = Some p → awaited p = Some d →
           step (Resume k) rn' = None.
Proof.
  intros Ho Hrun.
  assert (Ho' : orphaned rn' d).
  { revert rn Ho Hrun. induction events as [|e events IH]; intros rn Ho Hrun.
    - cbn in Hrun. by simplify_eq.
    - cbn in Hrun. destruct (step e rn) as [rn1|] eqn:Hs; [|done].
      eapply IH; [|done]. by eapply orphaned_step. }
  split; [done|]. intros k p Hp Ha. cbn. rewrite Hp.
  destruct Ho' as (_ & Hres & _).
  destruct p as [[s|] files request|s request|]; cbn in Ha; simplify_eq;
    cbn; by rewrite Hres.
Qed.

Lemma signals_wf_step e rn rn' :
  signals_wf rn → step e rn = Some rn' → signals_wf rn'.
Proof.
  assert (Hsame : ∀ a b, signals b = signals a → testRunDefer b = testRunDefer a →
                         signals_wf a → signals_wf b).
  { intros a b E1 E2 H d. rewrite E1, E2. apply H. }
  assert (Hnone : ∀ b, testRunDefer b = None → signals_wf b).
  { intros b E d. by rewrite E. }
  assert (Hnew : ∀ a, signals_wf (newDefer a)).
  { intros a d. unfold newDefer. cbn. intros [= <-]. rewrite length_app. cbn. lia. }
  intros Hwf Hstep. destruct e; cbn in Hstep; simplify_eq.
  - destruct collecting; [done|].
    destruct (startTestRun_signals files None rn) as [H1 H2].
    by apply (Hsame rn).
  - unfold runTestItems. cbn. destruct (testRunDefer rn) eqn:E; [|apply Hnew].
    apply (Hsame rn); [done|by cbn|done].
  - by apply (Hsame rn).
  - by apply (Hsame rn).
  - set (rn1 := with_continuousRequests _ rn).
    change (filter (λ r : nat, r ≠ request) (continuousRequests rn))
      with (continuousRequests rn1).
    destruct (continuousRequests rn1); [|by apply (Hsame rn)].
    apply Hnone; first [apply defer_end|by cbn].
  - apply Hnone; first [apply defer_end|by cbn].
  - destruct (testRun rn); [|done].
    destruct collecting; [apply Hnone; first [apply defer_end|by cbn]|by apply (Hsame rn)].
  - apply Hnone; first [apply defer_dispose|by cbn].
  - destruct (parked rn !! k) as [p|]; [|done].
    destruct (settled rn p); [|done]. simplify_eq.
    destruct p as [signal files request|signal request|].
    + unfold startTestRun_resumed. apply Hnone.
      destruct (openRun_signals files request
                  (endTestRun (with_parked (delete k (parked rn)) rn))) as [_ ->].
      apply defer_end.
    + apply Hnew.
    + apply Hnone; first [apply defer_end|by cbn].
Qed.

Lemma signals_wf_exec events rn rn' :
  signals_wf rn → exec events rn = Some rn' → signals_wf rn'.
Proof.
  revert rn. induction events as [|e events IH]; intros rn Hwf Hrun; cbn in Hrun.
  - by simplify_eq.
  - destruct (step e rn) as [rn1|] eqn:Hs; [|done].
    eapply IH; [|done]. by eapply signals_wf_step.
Qed.

(** X9.  In every state the event loop can reach, [endTestRun] and the
    disposer leave no run open, forget the run and the signal, and resolve
    the signal that was current, so that every call parked on it can
    resume. *)
Theorem endTestRun_leaves_nothing_open (events : list Event) (rn : Runner) :
  exec events init = Some rn →
  ∀ rn', rn' = endTestRun rn ∨ rn' = dispose rn →
    open_runs rn' = []
    ∧ testRun rn' = None ∧ testRunDefer rn' = None
    ∧ (∀ d, testRunDefer rn = Some d → resolved rn' d = true)
    ∧ (∀ p, p ∈ parked rn → awaited p = testRunDefer rn → settled rn' p = true).
Proof.
  intros Hrun rn' Hrn'.
  pose proof (RunLifecycleFacts.exec_Exclusive getTestFilesInFolder included
                events init rn RunLifecycleFacts.Exclusive_init Hrun) as Hex.
  assert (Hwf : signals_wf rn).
  { eapply signals_wf_exec; [|exact Hrun]. intros d. done. }
  destruct (signals_end rn) as (Hs & Hd & Hs' & Hd').
  assert (Hex' : Exclusive rn' ∧ testRun rn' = None).
  { destruct Hrn' as [->| ->].
    - split; [by apply RunLifecycleFacts.endTestRun_Exclusive|].
      by destruct (RunLifecycleFacts.endTestRun_spec rn Hex) as (? & _).
    - split; [by apply RunLifecycleFacts.dispose_Exclusive|].
      unfold dispose. destruct (testRun rn); cbn; by destruct (testRunDefer rn). }
  destruct Hex' as [Hex' Hnone].
  assert (Hsig : signals rn' = signals (endTestRun rn) ∧ testRunDefer rn' = None).
  { destruct Hrn' as [->| ->]; done. }
  destruct Hsig as [Hsig Hdef].
  assert (Hres : ∀ d, testRunDefer rn = Some d → resolved rn' d = true).
  { intros d Hcur. unfold resolved. rewrite Hsig, Hs, Hcur.
    rewrite list_lookup_insert_eq; [done|]. by apply Hwf. }
  split.
  { destruct (open_runs rn') as [|i l] eqn:E; [done|].
    assert (Hi : i ∈ open_runs rn') by (rewrite E; left).
    apply (RunLifecycleFacts.Exclusive_open_runs rn' i Hex') in Hi. congruence. }
  split; [done|]. split; [done|]. split; [done|].
  intros p Hp Ha.
  destruct p as [[s|] files request|s request|]; cbn in *; try done;
    apply Hres; done.
Qed.










End Lifecycle.

End SignalFacts.

(** * Further properties of the tree: collection *)

Module CollectFacts.
Import Host Vitest TestTreeData TestTree TreeSpec.

Local Open Scope list_scope.
Local Open Scope nat_scope.

(** The fields of a refreshed item. *)
Lemma settle_fields tag parentTags parent t it :
  let it' := settle tag parentTags parent t it in
  ti_label it' = task_name t
  ∧ ti_parent it' = parent
  ∧ ti_tags it' = dedupe (parentTags ++ [tag])
  ∧ ti_error it' = joined_stacks <$> result_errors (task_result t)
  ∧ (task_location t = None → ti_sortText it' = Some (task_id t)).
Proof.
  cbn zeta. unfold settle.
  destruct (task_location t), (result_errors (task_result t)); done.
Qed.

(** Every task of a settled report has its node, under some parent. *)
Lemma settled_all tag fd st t :
  ∀ p, settled tag fd st p t →
  ∀ x, x ∈ subtasks t → ∃ q r, node_settled tag fd st q x r.
Proof.
  induction t as [t IH] using TreeFacts.Task_nested_ind. intros p Hs x Hx.
  inversion Hs as [p' t' r Hnode Hsub]; subst.
  assert (Hx' : x = t ∨ ∃ ts, task_tasks t = Some ts ∧ x ∈ all_tasks ts).
  { destruct t as [i n ty m l res [ts|]]; cbn in Hx.
    - apply elem_of_cons in Hx as [->|Hx]; [by left|]. right. eauto.
    - apply list_elem_of_singleton in Hx. by left. }
  destruct Hx' as [->|(ts & Hts & Hin)]; [eauto|].
  destruct (Hsub ts Hts) as [_ Hall]. specialize (IH ts Hts).
  clear Hsub Hs Hts Hx Hnode.
  induction ts as [|y ys IHys]; [by apply elem_of_nil in Hin|].
  apply Forall_cons in Hall as [Hy Hys]. apply Forall_cons in IH as [IHy IHrest].
  unfold all_tasks in Hin. cbn in Hin. apply elem_of_app in Hin as [Hin|Hin].
  - by eapply IHy.
  - by apply IHys.
Qed.

Lemma settled_top tag fd st p t :
  settled tag fd st p t → ∃ r, node_settled tag fd st p t r.
Proof. inversion 1; subst. eauto. Qed.

(** The node of every reported task after [collectTasks]. *)
Lemma collected_node tag fd tasks p st x :
  ready st p (ids_forest tasks) →
  x ∈ all_tasks tasks →
  ∃ q r, node_settled tag fd (collectTasks tag fd tasks p st) q x r
         ∧ (x ∈ tasks → q = p).
Proof.
  intros Hready Hx.
  destruct (TreeFacts.collectTasks_settles tasks tag fd p st Hready) as (Hs & _ & _).
  cbn zeta in Hs. rewrite Forall_forall in Hs.
  destruct (TreeFacts.all_tasks_elem _ _ Hx) as (t & Ht & Hxt).
  destruct (settled_all _ _ _ _ _ (Hs t Ht) x Hxt) as (q & r & Hr).
  exists q, r. split; [done|]. intros Hin.
  destruct (settled_top _ _ _ _ _ (Hs x Hin)) as (r' & Hr').
  destruct Hr as (Hf & _ & _ & _ & (it & Hit & Hset & _) & _).
  destruct Hr' as (Hf' & _ & _ & _ & (it' & Hit' & Hset' & _) & _).
  rewrite Hf in Hf'. injection Hf' as <-. rewrite Hit in Hit'. injection Hit' as <-.
  destruct (settle_fields tag (tags_of (collectTasks tag fd tasks p st) q)
              (Some q) x it) as (_ & Hq & _).
  destruct (settle_fields tag (tags_of (collectTasks tag fd tasks p st) p)
              (Some p) x it) as (_ & Hp & _).
  rewrite Hset in Hq. rewrite Hset' in Hp. congruence.
Qed.

(** X11.  After [collectTasks], every task of the report, at any depth,
    is found by its id: [getTestItemByTaskId] gives a node with the task's
    id and name, which is the child, under that id, of the node it has as its
    parent (the node given to [collectTasks] for a top-level task), and which
    is registered as a suite or a test case of the file as the task's type
    says. *)
Theorem collected_tasks_are_found (tag : TestTag) (fd : TestFileData)
    (tasks : list Task) (p : ref) (st : State) (x : Task) :
  ready st p (ids_forest tasks) →
  x ∈ all_tasks tasks →
  let st' := collectTasks tag fd tasks p st in
  ∃ q r it,
    getTestItemByTaskId (task_id x) st' = Some r
    ∧ heap st' !! r = Some it
    ∧ ti_id it = task_id x ∧ ti_label it = task_name x
    ∧ ti_parent it = Some q
    ∧ children_of st' q !! task_id x = Some r
    ∧ (x ∈ tasks → q = p)
    ∧ (task_type x = "suite"%string →
         getTestData st' r = Some (TestSuite q fd))
    ∧ (task_type x = "test"%string ∨ task_type x = "custom"%string →
         getTestData st' r = Some (TestCase q fd)).
Proof.
  intros Hready Hx. cbn zeta.
  destruct (collected_node tag fd tasks p st x Hready Hx)
    as (q & r & (Hf & Hc & _ & _ & (it & Hit & Hset & Hid & _) & Hd) & Hq).
  destruct (settle_fields tag (tags_of (collectTasks tag fd tasks p st) q)
              (Some q) x it) as (Hl & Hp & _).
  rewrite Hset in Hl, Hp.
  exists q, r, it. repeat split; try done.
  - intros Ht. apply Hd. unfold task_data. by rewrite Ht.
  - intros Ht. apply Hd. unfold task_data.
    destruct Ht as [-> | ->]; reflexivity.
Qed.

(** X12.  After [collectTasks], the tags of the node of every reported
    task are those of its parent node followed by the tag given, each once:
    the node carries the tag, carries every tag of its parent, and no tag
    twice. *)
Theorem collected_tags (tag : TestTag) (fd : TestFileData)
    (tasks : list Task) (p : ref) (st : State) (x : Task) :
  ready st p (ids_forest tasks) →
  x ∈ all_tasks tasks →
  let st' := collectTasks tag fd tasks p st in
  ∃ q r it,
    flatTestItems st' !! task_id x = Some r
    ∧ heap st' !! r = Some it
    ∧ ti_parent it = Some q
    ∧ ti_tags it = dedupe (tags_of st' q ++ [tag])
    ∧ NoDup (ti_tags it)
    ∧ tag ∈ ti_tags it
    ∧ ∀ g, g ∈ tags_of st' q → g ∈ ti_tags it.
Proof.
  intros Hready Hx. cbn zeta.
  destruct (collected_node tag fd tasks p st x Hready Hx)
    as (q & r & (Hf & _ & _ & _ & (it & Hit & Hset & _) & _) & _).
  destruct (settle_fields tag (tags_of (collectTasks tag fd tasks p st) q)
              (Some q) x it) as (_ & Hp & Ht & _).
  rewrite Hset in Hp, Ht.
  exists q, r, it. split; [done|]. split; [done|]. split; [done|].
  split; [done|]. rewrite Ht. split; [apply EventFacts.dedupe_from_NoDup|].
  split.
  - apply EventFacts.dedupe_elem, elem_of_app. right. left.
  - intros g Hg. apply EventFacts.dedupe_elem, elem_of_app. by left.
Qed.

(** X13.  After [collectTasks], the [error] of the node of every reported
    task is the joined stacks of the errors of its result when the result
    has the [errors] field, and is cleared otherwise, whatever it was
    before; a task without location gets its id as [sortText]. *)
Theorem collected_errors (tag : TestTag) (fd : TestFileData)
    (tasks : list Task) (p : ref) (st : State) (x : Task) :
  ready st p (ids_forest tasks) →
  x ∈ all_tasks tasks →
  let st' := collectTasks tag fd tasks p st in
  ∃ r it,
    flatTestItems st' !! task_id x = Some r
    ∧ heap st' !! r = Some it
    ∧ ti_error it = joined_stacks <$> result_errors (task_result x)
    ∧ (task_location x = None → ti_sortText it = Some (task_id x)).
Proof.
  intros Hready Hx. cbn zeta.
  destruct (collected_node tag fd tasks p st x Hready Hx)
    as (q & r & (Hf & _ & _ & _ & (it & Hit & Hset & _) & _) & _).
  destruct (settle_fields tag (tags_of (collectTasks tag fd tasks p st) q)
              (Some q) x it) as (_ & _ & _ & He & Hs).
  rewrite Hset in He, Hs. exists r, it. done.
Qed.

(** X14.  [collectTasks] never takes an entry out of [flatTestItems]: an
    id that the report does not name is looked up as before, so a task that
    has left the report is gone from the children of the node but is still
    found by [getTestItemByTaskId]. *)
Theorem collectTasks_keeps_index (tag : TestTag) (fd : TestFileData)
    (tasks : list Task) (p : ref) (st : State) :
  ready st p (ids_forest tasks) →
  let st' := collectTasks tag fd tasks p st in
  (∀ k, k ∉ ids_forest tasks →
        getTestItemByTaskId k st' = getTestItemByTaskId k st)
  ∧ (∀ k, k ∉ map task_id tasks → children_of st' p !! k = None).
Proof.
  intros Hready. cbn zeta.
  destruct (TreeFacts.collectTasks_settles tasks tag fd p st Hready) as (_ & Hdom & E).
  cbn zeta in *. split.
  - intros k Hk. unfold getTestItemByTaskId. by apply (ev_flat _ _ _ _ E).
  - intros k Hk. apply not_elem_of_dom. rewrite Hdom.
    by rewrite elem_of_list_to_set.
Qed.

(** X15.  [collectTasks] on one node leaves the rest of the tree alone:
    the maps of files and folders, [controller.items], and every item that
    is neither the node nor named by an id of the report. *)
Theorem collectTasks_frame (tag : TestTag) (fd : TestFileData)
    (tasks : list Task) (p : ref) (st : State) :
  ready st p (ids_forest tasks) →
  let st' := collectTasks tag fd tasks p st in
  fileItems st' = fileItems st
  ∧ folderItems st' = folderItems st
  ∧ testItemsByFile st' = testItemsByFile st
  ∧ controllerItems st' = controllerItems st
  ∧ ∀ x : ref, x < next st → x ≠ p →
      (∀ k, k ∈ ids_forest tasks → flatTestItems st !! k ≠ Some x) →
      heap st' !! x = heap st !! x ∧ getTestData st' x = getTestData st x.
Proof.
  intros Hready. cbn zeta.
  destruct (TreeFacts.collectTasks_settles tasks tag fd p st Hready) as (_ & _ & E).
  cbn zeta in *.
  destruct (ev_rest _ _ _ _ E) as (H1 & H2 & H3 & H4 & _).
  repeat split; try done; by apply (ev_frame _ _ _ _ E).
Qed.

End CollectFacts.

(** * Further properties of the tree: files, folders and watchers *)

Module FileFacts.
Import Host Vitest TestTreeData TestTree TreeSpec.

Local Open Scope list_scope.
Local Open Scope nat_scope.

Lemma watchers_children_add p c st :
  watcherByFolder (children_add p c st) = watcherByFolder st.
Proof.
  unfold children_add, upd_children, upd. repeat (case_match; cbn); done.
Qed.

Section Paths.

Variables normalize dirname basename : string → string.

Abbreviation getOrCreateFolderTestItem :=
  (getOrCreateFolderTestItem normalize dirname basename).
Abbreviation getOrCreateFileTestItem :=
  (getOrCreateFileTestItem normalize dirname basename).
Abbreviation discover_loop := (discover_loop normalize dirname basename).
Abbreviation discoverAllTestFiles :=
  (discoverAllTestFiles normalize dirname basename).
Abbreviation watchTestFilesInWorkspace :=
  (watchTestFilesInWorkspace normalize dirname basename).

(** The folder climb adds folders and takes nothing away. *)
Lemma getOrCreateFolderTestItem_mono fuel api folder st p stp :
  getOrCreateFolderTestItem fuel api folder st = Some (p, stp) →
  (∀ k v, folderItems st !! k = Some v → folderItems stp !! k = Some v)
  ∧ watcherByFolder stp = watcherByFolder st
  ∧ next st ≤ next stp.
Proof.
  revert folder st p stp. induction fuel as [|fuel IH]; intros folder st p stp.
  - cbn. destruct (folderItems st !! folder) as [cached|] eqn:Hc; [|done].
    intros [= <- <-]. done.
  - cbn. destruct (folderItems st !! folder) as [cached|] eqn:Hc.
    { intros [= <- <-]. done. }
    destruct (TestTree.getOrCreateFolderTestItem _ _ _ fuel api (dirname folder) st)
      as [[pp stpp]|] eqn:Hrec; [|done].
    destruct (IH _ _ _ _ Hrec) as (H1 & H2 & H3).
    intros [= <- <-]. cbn.
    destruct (TreeFacts.children_add_frame pp (next stpp)
                (upd (next stpp) (set_tags [api_tag api])
                   (_createFolderItem normalize basename (Uri_file folder)
                      (Some pp) stpp).2)) as (_ & _ & F3 & _ & _ & F6).
    rewrite watchers_children_add.
    unfold _createFolderItem in *. cbn in *. rewrite F3, F6. cbn.
    split; [|split; [done|lia]].
    intros k v Hk. rewrite lookup_insert_ne; [by apply H1|]. congruence.
Qed.

(** Asking for a file node adds entries and takes nothing away. *)
Lemma getOrCreateFileTestItem_mono fuel api project file st r st1 :
  getOrCreateFileTestItem fuel api project file st = Some (r, st1) →
  fileItems st1 !! (normalize file ++ project)%string = Some r
  ∧ (∀ k v, fileItems st !! k = Some v → fileItems st1 !! k = Some v)
  ∧ (∀ k v, folderItems st !! k = Some v → folderItems st1 !! k = Some v)
  ∧ (∀ path x, x ∈ default [] (testItemsByFile st !! path) →
               x ∈ default [] (testItemsByFile st1 !! path))
  ∧ watcherByFolder st1 = watcherByFolder st.
Proof.
  intros Hrun.
  destruct (fileItems st !! (normalize file ++ project)%string) as [cached|] eqn:Hc.
  { unfold TestTree.getOrCreateFileTestItem in Hrun. rewrite Hc in Hrun.
    injection Hrun as <- <-. done. }
  destruct (getOrCreateFolderTestItem fuel api (dirname file) st)
    as [[p stp]|] eqn:Hfolder.
  2:{ unfold TestTree.getOrCreateFileTestItem in Hrun.
      by rewrite Hc, Hfolder in Hrun. }
  destruct (getOrCreateFolderTestItem_mono _ _ _ _ _ _ Hfolder) as (M1 & M2 & _).
  assert (Hw : watcherByFolder st1 = watcherByFolder stp).
  { unfold TestTree.getOrCreateFileTestItem in Hrun. rewrite Hc, Hfolder in Hrun.
    cbn in Hrun. injection Hrun as <- <-. cbn. by rewrite watchers_children_add. }
  destruct (TreeFacts.getOrCreateFileTestItem_fresh normalize dirname basename
              fuel api project file st p stp Hc Hfolder)
    as (st1' & Hrun' & Hfi & Hby & Hfo & _).
  rewrite Hrun in Hrun'. injection Hrun' as -> <-.
  rewrite Hfi, Hby, Hfo. split; [by rewrite lookup_insert_eq|].
  split; [|split; [done|split; [|congruence]]].
  - intros k v Hk. rewrite lookup_insert_ne; [done|]. congruence.
  - intros path x Hx. destruct (decide (path = normalize file)) as [->|Hne].
    + rewrite lookup_insert_eq. cbn. apply elem_of_app. by left.
    + by rewrite lookup_insert_ne.
Qed.

Lemma discover_loop_mono fuel api files st st' :
  discover_loop fuel api files st = Some st' →
  (∀ project file, (project, file) ∈ files →
     is_Some (fileItems st' !! (normalize file ++ project)%string))
  ∧ (∀ k v, fileItems st !! k = Some v → fileItems st' !! k = Some v)
  ∧ (∀ k v, folderItems st !! k = Some v → folderItems st' !! k = Some v)
  ∧ (∀ path x, x ∈ default [] (testItemsByFile st !! path) →
               x ∈ default [] (testItemsByFile st' !! path))
  ∧ watcherByFolder st' = watcherByFolder st.
Proof.
  revert st. induction files as [|[project file] files IH]; intros st Hrun.
  - cbn in Hrun. injection Hrun as <-. split; [|done].
    intros project file Hin. by apply elem_of_nil in Hin.
  - cbn in Hrun.
    destruct (TestTree.getOrCreateFileTestItem _ _ _ fuel api project file st)
      as [[r st1]|] eqn:Hone; [|done].
    destruct (getOrCreateFileTestItem_mono _ _ _ _ _ _ _ Hone)
      as (A1 & A2 & A3 & A4 & A5).
    destruct (IH st1 Hrun) as (B1 & B2 & B3 & B4 & B5).
    split; [|split; [|split; [|split]]]; eauto; [|congruence].
    intros pr f [Heq|Hin]%elem_of_cons; [|by apply B1].
    injection Heq as -> ->. eauto.
Qed.

Lemma discover_loop_cached fuel api files st :
  (∀ project file, (project, file) ∈ files →
     is_Some (fileItems st !! (normalize file ++ project)%string)) →
  discover_loop fuel api files st = Some st.
Proof.
  induction files as [|[project file] files IH]; intros Hall; [done|].
  cbn. unfold TestTree.getOrCreateFileTestItem.
  destruct (Hall project file) as [cached ->]; [left|].
  apply IH. intros pr f Hin. apply Hall. by right.
Qed.

(** X16.  When [discoverAllTestFiles] returns, every listed file has a
    node under its key in [fileItems]; the nodes of files and folders known
    before are still the ones registered, and each path still lists the nodes
    it listed. *)
Theorem discoverAllTestFiles_covers (fuel : nat) (api : VitestFolderAPI)
    (files : list (string * string)) (st st' : State) :
  discoverAllTestFiles fuel api files st = Some st' →
  (∀ project file, (project, file) ∈ files →
     ∃ r, fileItems st' !! (normalize file ++ project)%string = Some r)
  ∧ (∀ k v, fileItems st !! k = Some v → fileItems st' !! k = Some v)
  ∧ (∀ k v, folderItems st !! k = Some v → folderItems st' !! k = Some v)
  ∧ (∀ path x, x ∈ getFileTestItems normalize path st →
               x ∈ getFileTestItems normalize path st').
Proof.
  unfold TestTree.discoverAllTestFiles. intros Hrun.
  apply discover_loop_mono in Hrun as (H1 & H2 & H3 & H4 & _).
  split; [exact H1|].
  assert (Hsame : ∀ s : State,
            fileItems (match folderItems s !! normalize (fsPath (api_workspaceFolder api)) with
                       | Some f => upd f (set_busy false) s | None => s end)
            = fileItems s
            ∧ folderItems (match folderItems s !! normalize (fsPath (api_workspaceFolder api)) with
                       | Some f => upd f (set_busy false) s | None => s end)
              = folderItems s
            ∧ testItemsByFile (match folderItems s !! normalize (fsPath (api_workspaceFolder api)) with
                       | Some f => upd f (set_busy false) s | None => s end)
              = testItemsByFile s).
  { intros s. by destruct (folderItems s !! _). }
  destruct (Hsame st) as (E1 & E2 & E3). rewrite E1 in H2. rewrite E2 in H3.
  rewrite E3 in H4. split; [exact H2|]. split; [exact H3|].
  intros path x. unfold getFileTestItems. apply H4.
Qed.

(** X17.  Discovering the same files once more creates nothing: the call
    returns the state it was given, in which only the busy flag of the
    workspace folder is cleared again. *)
Theorem discoverAllTestFiles_again (fuel : nat) (api : VitestFolderAPI)
    (files : list (string * string)) (st st' : State) :
  discoverAllTestFiles fuel api files st = Some st' →
  discoverAllTestFiles fuel api files st'
  = Some match folderItems st' !! normalize (fsPath (api_workspaceFolder api)) with
         | Some folderItem => upd folderItem (set_busy false) st'
         | None => st'
         end.
Proof.
  unfold TestTree.discoverAllTestFiles. intros Hrun.
  apply discover_loop_mono in Hrun as (H1 & _).
  apply discover_loop_cached. intros project file Hin.
  destruct (H1 project file Hin) as [r Hr].
  exists r. by destruct (folderItems st' !! _).
Qed.

(** X18.  For a folder that is registered, [getOrCreateFolderTestItem]
    returns its node and creates nothing; it appends the tag to the node's
    tags unless it is among them, so that afterwards the node carries the
    tag, keeps the tags it had, and has none twice if it had none twice; a
    second call changes nothing. *)
Theorem getOrCreateFolderTestItem_merges_tag (fuel : nat) (api : VitestFolderAPI)
    (folder : string) (st : State) (p : ref) (it : TestItem) :
  folderItems st !! folder = Some p →
  heap st !! p = Some it →
  ∃ st1 it1,
    getOrCreateFolderTestItem fuel api folder st = Some (p, st1)
    ∧ heap st1 !! p = Some it1
    ∧ api_tag api ∈ ti_tags it1
    ∧ (∀ g, g ∈ ti_tags it → g ∈ ti_tags it1)
    ∧ (NoDup (ti_tags it) → NoDup (ti_tags it1))
    ∧ next st1 = next st ∧ folderItems st1 = folderItems st
    ∧ (∀ x, x ≠ p → heap st1 !! x = heap st !! x)
    ∧ getOrCreateFolderTestItem fuel api folder st1 = Some (p, st1).
Proof.
  intros Hf Hp.
  rewrite (TreeFacts.getOrCreateFolderTestItem_cached normalize dirname basename
             fuel api folder st p Hf).
  set (st1 := upd p (merge_tag (api_tag api)) st).
  assert (Hp1 : heap st1 !! p = Some (merge_tag (api_tag api) it)).
  { unfold st1. by rewrite TreeFacts.heap_upd_eq, Hp. }
  assert (Hin : api_tag api ∈ ti_tags (merge_tag (api_tag api) it)).
  { unfold merge_tag. case_bool_decide as E; [done|]. cbn.
    apply elem_of_app. right. left. }
  exists st1, (merge_tag (api_tag api) it).
  split; [done|]. split; [done|]. split; [done|]. split; [|split; [|split; [done|split; [done|split]]]].
  - intros g Hg. unfold merge_tag. case_bool_decide; [done|]. cbn.
    apply elem_of_app. by left.
  - intros Hnd. unfold merge_tag. case_bool_decide as E; [done|]. cbn.
    apply NoDup_app. split; [done|]. split; [|apply NoDup_singleton].
    intros g Hg ->%list_elem_of_singleton. done.
  - intros x Hx. unfold st1. by rewrite TreeFacts.heap_upd_ne.
  - rewrite (TreeFacts.getOrCreateFolderTestItem_cached normalize dirname basename
               fuel api folder st1 p Hf).
    f_equal. f_equal.
    rewrite (TreeFacts.upd_eq p _ st1 _ Hp1).
    assert (Hm : merge_tag (api_tag api) (merge_tag (api_tag api) it)
                 = merge_tag (api_tag api) it).
    { unfold merge_tag at 1. by rewrite bool_decide_eq_true_2. }
    rewrite Hm. rewrite insert_id by done. by destruct st1.
Qed.

Lemma discover_watchers fuel api files st st' :
  discoverAllTestFiles fuel api files st = Some st' →
  watcherByFolder st' = watcherByFolder st.
Proof.
  unfold TestTree.discoverAllTestFiles. intros Hrun.
  apply discover_loop_mono in Hrun as (_ & _ & _ & _ & ->).
  by destruct (folderItems st !! _).
Qed.

(** X19.  [watchTestFilesInWorkspace] keeps one watcher for each workspace
    folder: when it returns the folder of the API has a watcher, a folder
    that had one gets no second one, and a list of watchers without
    repetition stays so. *)
Theorem watchTestFilesInWorkspace_once (fuel : nat) (api : VitestFolderAPI)
    (testFiles : list (string * string)) (st st' : State) :
  watchTestFilesInWorkspace fuel api testFiles st = Some st' →
  api_workspaceFolder api ∈ watcherByFolder st'
  ∧ (api_workspaceFolder api ∈ watcherByFolder st →
       watcherByFolder st' = watcherByFolder st)
  ∧ (NoDup (watcherByFolder st) → NoDup (watcherByFolder st'))
  ∧ (∀ folder, folder ∈ watcherByFolder st → folder ∈ watcherByFolder st').
Proof.
  unfold TestTree.watchTestFilesInWorkspace. intros Hrun.
  destruct (TestTree.discoverAllTestFiles _ _ _ fuel api testFiles st)
    as [st1|] eqn:Hd; [|done].
  apply discover_watchers in Hd.
  case_bool_decide as Hin; injection Hrun as <-.
  - rewrite Hd in *. done.
  - cbn. rewrite Hd in *. split; [apply elem_of_app; right; left|].
    split; [done|]. split.
    + intros Hnd. apply NoDup_app. split; [done|]. split; [|apply NoDup_singleton].
      intros g Hg ->%list_elem_of_singleton. done.
    + intros folder Hf. apply elem_of_app. by left.
Qed.

Lemma id_of_upd r f st x :
  (∀ it, ti_id (f it) = ti_id it) → id_of (upd r f st) x = id_of st x.
Proof.
  intros Hf. unfold id_of. rewrite TreeFacts.heap_upd. case_decide; [|done].
  destruct (heap st !! x); cbn; [|done]. by rewrite Hf.
Qed.

(** X20.  The node that [getOrCreateFileTestItem] returns for a file and
    a project is the one [getTestItemByTask] finds for a file task with that
    path and project name (none standing for the empty name), provided the
    path is normalized and not empty and the task's id names no item. *)
Theorem file_task_finds_file_node (fuel : nat) (api : VitestFolderAPI)
    (file : string) (projectName : option string) (id : string)
    (st st1 : State) (r : ref) :
  getOrCreateFileTestItem fuel api (default "" projectName) file st
  = Some (r, st1) →
  normalize file = file →
  file ≠ ""%string →
  flatTestItems st1 !! id = None →
  getTestItemByTask id (Some file) projectName st1 = Some r.
Proof.
  intros Hrun Hnorm Hne Hid.
  destruct (getOrCreateFileTestItem_mono _ _ _ _ _ _ _ Hrun) as (Hkey & _).
  unfold getTestItemByTask. rewrite Hid.
  destruct (String.eqb_spec file ""); [done|]. by rewrite <- Hnorm at 1.
Qed.

(** The state in which [collectFile] calls [collectTasks] fits the call. *)
Lemma collectFile_ready file st1 r :
  ready st1 r (ids_forest (file_tasks file)) →
  file_id file ∉ ids_forest (file_tasks file) →
  ready (with_flatTestItems (<[file_id file := r]> (flatTestItems (upd r (set_error None) st1)))
           (upd r (set_error None) st1))
        r (ids_forest (file_tasks file)).
Proof.
  intros (Hnd & Hwf & (pit & Hp & Hop & Hidp) & Hreuse) Hfid.
  set (st3 := with_flatTestItems _ _).
  assert (Hheap3 : heap st3 = <[r := set_error None pit]> (heap st1)).
  { unfold st3. cbn [heap with_flatTestItems].
    by rewrite (TreeFacts.upd_eq r _ st1 pit Hp). }
  split; [done|]. split; [|split].
  - unfold heap_wf. rewrite Hheap3. apply map_Forall_insert_2; [|done].
    exact (TreeFacts.heap_wf_lookup st1 r pit Hwf Hp).
  - exists (set_error None pit). rewrite Hheap3, lookup_insert_eq. done.
  - rewrite Forall_forall in Hreuse. apply Forall_forall. intros k Hk.
    apply TreeFacts.reusable_intro. intros r' Hr'. unfold st3 in Hr'. cbn in Hr'.
    rewrite lookup_insert_ne in Hr' by (intros E; by rewrite <- E in Hk).
    destruct (TreeFacts.reusable_Some st1 k r' (Hreuse k Hk) Hr')
      as (it' & Hit' & Hid' & Ho').
    exists it'. split; [|done]. rewrite Hheap3, lookup_insert_ne; [done|].
    intros <-. rewrite Hp in Hit'. injection Hit' as <-. by rewrite Hid' in Hidp.
Qed.

(** X21.  After [collectFile], the report is found by its ids: the id of
    the file names the file node, for [getTestItemByTaskId] and for
    [getTestItemByTask], and the id of every task of the report names a node
    with that id, which is not the file node. *)
Theorem collectFile_indexes_report (fuel : nat) (api : VitestFolderAPI)
    (file : File) (st st1 : State) (r : ref) (data : TestFileData) :
  getOrCreateFileTestItem fuel api (default "" (file_projectName file))
    (file_filepath file) st = Some (r, st1) →
  getTestData st1 r = Some (TestFile data) →
  ready st1 r (ids_forest (file_tasks file)) →
  file_id file ∉ ids_forest (file_tasks file) →
  ∃ st',
    collectFile normalize dirname basename fuel api file st = Some st'
    ∧ getTestItemByTaskId (file_id file) st' = Some r
    ∧ getTestItemByTask (file_id file) (Some (file_filepath file))
        (file_projectName file) st' = Some r
    ∧ ∀ x, x ∈ all_tasks (file_tasks file) →
        ∃ r', getTestItemByTaskId (task_id x) st' = Some r'
              ∧ getTestItemByTask (task_id x) None None st' = Some r'
              ∧ id_of st' r' = Some (task_id x)
              ∧ r' ≠ r.
Proof.
  intros Hget Hdata Hready Hfid.
  pose proof (collectFile_ready file st1 r Hready Hfid) as Hready3.
  unfold collectFile. rewrite Hget.
  set (st3 := with_flatTestItems _ (upd r (set_error None) st1)) in *.
  assert (Hdata3 : getTestData st3 r = Some (TestFile data)) by exact Hdata.
  rewrite Hdata3.
  destruct (TreeFacts.collectTasks_settles (file_tasks file) (api_tag api) data r
              st3 Hready3) as (_ & _ & E).
  cbn zeta in E.
  set (st4 := collectTasks (api_tag api) data (file_tasks file) r st3) in *.
  set (st5 := match result_errors (file_result file) with
              | Some errors => _ | None => _ end).
  assert (H5 : flatTestItems st5 = flatTestItems st4
               ∧ ∀ x, id_of st5 x = id_of st4 x).
  { unfold st5. destruct (result_errors (file_result file)).
    - split; [done|]. intros x. by apply id_of_upd.
    - destruct (length (file_tasks file) =? 0); [|done].
      split; [done|]. intros x. by apply id_of_upd. }
  destruct H5 as [Hflat5 Hid5].
  eexists. split; [reflexivity|].
  assert (Hfile : flatTestItems st4 !! file_id file = Some r).
  { rewrite (ev_flat _ _ _ _ E _ Hfid). unfold st3. cbn. by rewrite lookup_insert_eq. }
  split; [|split].
  - unfold getTestItemByTaskId. cbn. by rewrite Hflat5.
  - unfold getTestItemByTask. cbn. by rewrite Hflat5, Hfile.
  - intros x Hx.
    destruct (CollectFacts.collected_node (api_tag api) data (file_tasks file) r
                st3 x Hready3 Hx)
      as (q & r' & (Hf & _ & _ & _ & (it & Hit & _ & Hid & _) & _) & _).
    fold st4 in Hf, Hit.
    exists r'. unfold getTestItemByTaskId, getTestItemByTask. cbn.
    rewrite Hflat5, Hf. split; [done|]. split; [done|].
    assert (Hidr' : id_of st4 r' = Some (task_id x))
      by (unfold id_of; by rewrite Hit; cbn; rewrite Hid).
    split.
    + rewrite id_of_upd by done. by rewrite Hid5.
    + intros ->.
      destruct Hready3 as (_ & _ & (pit & Hp & _ & Hidp) & _).
      destruct (ev_kind _ _ _ _ E r pit Hp) as (pit' & Hp' & Hidp' & _).
      unfold id_of in Hidr'. rewrite Hp' in Hidr'. cbn in Hidr'.
      injection Hidr' as Hidr'. apply Hidp. rewrite <- Hidp', Hidr'.
      unfold ids_forest. apply list_elem_of_fmap. by exists x.
Qed.

End Paths.

End FileFacts.

(** * Further properties of the tree: deletion *)

Module DeleteFacts.
Import Host Vitest TestTreeData TestTree TreeSpec IndexSpec.

Local Open Scope list_scope.
Local Open Scope nat_scope.

Lemma forgets_refl st : forgets st st.
Proof. by split. Qed.

Lemma forgets_trans a b c : forgets a b → forgets b c → forgets a c.
Proof. intros [A1 A2] [B1 B2]. split; eauto. Qed.

Lemma index_children_delete p key st :
  flatTestItems (children_delete p key st) = flatTestItems st
  ∧ folderItems (children_delete p key st) = folderItems st.
Proof.
  unfold children_delete, upd_children.
  destruct (heap st !! p) as [pit|]; [|done]. by destruct (ti_children pit).
Qed.

(** What [detach] does to the maps of task ids and of folders. *)
Lemma detach_index item it p st :
  flatTestItems (detach item it p st) = delete (ti_id it) (flatTestItems st)
  ∧ folderItems (detach item it p st)
    = match getTestData st item with
      | Some (TestFolder _) => delete (ti_id it) (folderItems st)
      | _ => folderItems st
      end.
Proof.
  destruct (index_children_delete p (ti_id it) st) as [F1 F2].
  unfold detach.
  replace (getTestData
             (with_flatTestItems
                (delete (ti_id it) (flatTestItems (children_delete p (ti_id it) st)))
                (children_delete p (ti_id it) st)) item)
    with (getTestData st item)
    by (unfold getTestData; cbn; by rewrite TreeFacts.testData_children_delete).
  destruct (getTestData st item) as [[]|]; cbn; by rewrite ?F1, ?F2.
Qed.

Lemma detach_forgets item it p st : forgets st (detach item it p st).
Proof.
  unfold forgets. destruct (detach_index item it p st) as [-> ->]. split.
  - intros k v H. by apply lookup_delete_Some in H as [_ H].
  - intros k v. destruct (getTestData st item) as [[]|]; try done.
    intros H. by apply lookup_delete_Some in H as [_ H].
Qed.

Lemma recursiveDelete_forgets fuel item st st' :
  recursiveDelete fuel item st = Some st' → forgets st st'.
Proof.
  revert item st. induction fuel as [|fuel IH]; intros item st; [done|].
  cbn [recursiveDelete].
  destruct (heap st !! item) as [it|]; [|intros [= <-]; apply forgets_refl].
  destruct (ti_parent it) as [p|]; [|intros [= <-]; apply forgets_refl].
  destruct (Nat.eqb _ 0).
  - intros H. eapply forgets_trans; [apply detach_forgets|by eapply IH].
  - intros [= <-]. apply detach_forgets.
Qed.

(** The entries of the item itself are gone when [recursiveDelete] returns. *)
Lemma recursiveDelete_item fuel item it parent st st' :
  heap st !! item = Some it → ti_parent it = Some parent →
  recursiveDelete fuel item st = Some st' →
  flatTestItems st' !! ti_id it = None
  ∧ (∀ d, getTestData st item = Some (TestFolder d) →
          folderItems st' !! ti_id it = None).
Proof.
  intros Hit Hp. destruct fuel as [|fuel]; [done|]. cbn [recursiveDelete].
  rewrite Hit, Hp.
  set (st1 := detach item it parent st).
  assert (H1 : flatTestItems st1 !! ti_id it = None
               ∧ (∀ d, getTestData st item = Some (TestFolder d) →
                       folderItems st1 !! ti_id it = None)).
  { unfold st1. destruct (detach_index item it parent st) as [-> ->].
    split; [apply lookup_delete_eq|]. intros d ->. apply lookup_delete_eq. }
  assert (G : ∀ st2, forgets st1 st2 →
            flatTestItems st2 !! ti_id it = None
            ∧ (∀ d, getTestData st item = Some (TestFolder d) →
                    folderItems st2 !! ti_id it = None)).
  { intros st2 [F1 F2]. destruct H1 as [A B]. split.
    - destruct (flatTestItems st2 !! ti_id it) eqn:E; [|done].
      apply F1 in E. congruence.
    - intros d Hd. destruct (folderItems st2 !! ti_id it) eqn:E; [|done].
      apply F2 in E. rewrite (B d Hd) in E. done. }
  destruct (Nat.eqb _ 0).
  - intros H. apply G. by eapply recursiveDelete_forgets.
  - intros [= <-]. apply G, forgets_refl.
Qed.

(** X22.  [recursiveDelete] of an item that has a parent returns, having
    taken the item's id out of [flatTestItems] and, for a folder, out of
    [folderItems]; it adds no entry to either map.  When the item was the
    only child of a folder that itself has a parent, the folder's id is
    taken out of both maps as well. *)
Theorem recursiveDelete_forgets_nodes (fuel : nat) (st : State) (item : ref)
    (it : TestItem) (parent : ref) (chain : list ref) :
  heap st !! item = Some it →
  ti_parent it = Some parent →
  ancestors fuel st item = Some chain →
  ∃ st',
    recursiveDelete fuel item st = Some st'
    ∧ getTestItemByTaskId (ti_id it) st' = None
    ∧ (∀ d, getTestData st item = Some (TestFolder d) →
            folderItems st' !! ti_id it = None)
    ∧ forgets st st'
    ∧ (∀ pit grandparent d,
         heap st !! parent = Some pit →
         ti_parent pit = Some grandparent →
         getTestData st parent = Some (TestFolder d) →
         children_of st parent = {[ti_id it := item]} →
         folderItems st' !! ti_id pit = None
         ∧ getTestItemByTaskId (ti_id pit) st' = None).
Proof.
  intros Hit Hp Hanc.
  destruct (TreeFacts.recursiveDelete_returns fuel st item chain Hanc)
    as (st' & Hrun & _).
  exists st'. split; [done|].
  destruct (recursiveDelete_item fuel item it parent st st' Hit Hp Hrun) as [A B].
  split; [exact A|]. split; [exact B|].
  split; [by eapply recursiveDelete_forgets|].
  intros pit gp d Hpit Hgp Hd Hone.
  destruct fuel as [|fuel]; [done|]. cbn [recursiveDelete] in Hrun.
  rewrite Hit, Hp in Hrun.
  set (st1 := detach item it parent st) in *.
  assert (Hsize : children_size st1 parent = 0).
  { unfold children_size, st1. rewrite TreeFacts.children_of_detach.
    unfold children_delete.
    rewrite TreeFacts.children_of_upd_children by done.
    rewrite Hone, delete_singleton_eq. apply map_size_empty. }
  rewrite Hsize in Hrun. cbn in Hrun.
  pose proof (TreeFacts.shape_detach item it parent st parent) as Hshape.
  apply TreeFacts.shape_heap in Hshape. fold st1 in Hshape. rewrite Hpit in Hshape.
  destruct (heap st1 !! parent) as [pit1|] eqn:Hpit1; [|done].
  destruct Hshape as [Hid1 Hpar1].
  assert (Hd1 : getTestData st1 parent = Some (TestFolder d))
    by (unfold st1; by rewrite TreeFacts.getTestData_detach).
  destruct (recursiveDelete_item fuel parent pit1 gp st1 st' Hpit1
              ltac:(congruence) Hrun) as [A1 B1].
  rewrite Hid1 in A1. split; [|exact A1].
  rewrite <- Hid1. by apply (B1 d).
Qed.

End DeleteFacts.

(** * Further properties of the tree: where new nodes are put *)

Module LinkFacts.
Import Host Vitest TestTreeData TestTree TreeSpec IndexSpec.

Local Open Scope list_scope.
Local Open Scope nat_scope.



Section Paths.

Variables normalize dirname basename : string → string.

Abbreviation getOrCreateFolderTestItem :=
  (getOrCreateFolderTestItem normalize dirname basename).
Abbreviation getOrCreateFileTestItem :=
  (getOrCreateFileTestItem normalize dirname basename).





End Paths.

End LinkFacts.

(** * Further properties of the tree: [reset] *)

Module ResetFacts.
Import Host Vitest TestTreeData TestTree TreeSpec IndexSpec ResetSpec.

Local Open Scope list_scope.
Local Open Scope nat_scope.

Section Paths.

Variables normalize basename : string → string.

(** The state [reset] reaches for a single workspace folder. *)
Lemma reset_single_state (x : Uri) (st : State) (lit : TestItem) :
  heap st !! loaderItem st = Some lit →
  heap st !! next st = None →
  reset normalize basename [x] st
  = mkState
      (<[loaderItem st := set_parent None (set_busy true lit)]>
         (<[next st := mkTestItem (Uri_toString x) "<root>" x ControllerItems
                         None [] None None None false false]> (heap st)))
      (S (next st))
      (<[next st := TestFolder None]> (testData st))
      {[ti_id lit := loaderItem st]}
      (loaderItem st) ∅ ∅ {[normalize (fsPath x) := next st]} ∅ [].
Proof.
  intros Hl Hn.
  assert (Hne : loaderItem st ≠ next st) by congruence.
  set (root := mkTestItem (Uri_toString x) "<root>" x ControllerItems
                 None [] None None None false false).
  set (stR := mkState
                (<[next st := root]> (alter (set_busy true) (loaderItem st) (heap st)))
                (S (next st)) (<[next st := TestFolder None]> (testData st))
                (controllerItems st) (loaderItem st) ∅ ∅
                {[normalize (fsPath x) := next st]} ∅ []).
  assert (E : reset normalize basename [x] st
              = children_replace (next st) [loaderItem st] stR) by reflexivity.
  rewrite E. unfold children_replace.
  assert (Hlo : heap stR !! loaderItem st = Some (set_busy true lit)).
  { unfold stR. cbn [heap]. rewrite lookup_insert_ne by done.
    by rewrite lookup_alter_eq, Hl. }
  assert (Hro : heap stR !! next st = Some root).
  { unfold stR. cbn [heap]. apply lookup_insert_eq. }
  assert (Hown : owner stR (next st) = None).
  { unfold owner. by rewrite Hro. }
  cbn [omap list_omap foldl]. rewrite Hlo, Hown. cbn [fmap option_fmap option_map].
  unfold upd_children.
  rewrite TreeFacts.heap_upd_ne by done. rewrite Hro. cbn [ti_children root].
  unfold upd, with_controllerItems, with_heap. cbn. f_equal.
  apply map_eq. intros k. rewrite lookup_alter.
  case_decide as Hk.
  - subst. rewrite lookup_insert_eq, lookup_insert_ne by done.
    by rewrite lookup_alter_eq, Hl.
  - destruct (decide (k = next st)) as [->|Hk2].
    + rewrite lookup_insert_eq, lookup_insert_ne by done.
      by rewrite lookup_insert_eq.
    + rewrite !lookup_insert_ne by done. by rewrite lookup_alter_ne.
Qed.

(** X25.  After [reset] with a single workspace folder nothing is
    remembered of files, tests and watchers; the folder has an inline root,
    registered under its normalized path, whose children are the
    controller's items; and these hold the loader item only, which is busy
    and has no parent. *)
Theorem reset_single_folder (x : Uri) (st : State) (lit : TestItem) :
  heap st !! loaderItem st = Some lit →
  heap st !! next st = None →
  let st' := reset normalize basename [x] st in
  getAllFileItems st' = []
  ∧ (∀ path, getFileTestItems normalize path st' = [])
  ∧ (∀ id, getTestItemByTaskId id st' = None)
  ∧ watcherByFolder st' = []
  ∧ folderItems st' = {[normalize (fsPath x) := next st]}
  ∧ getTestData st' (next st) = Some (TestFolder None)
  ∧ children_of st' (next st) = controllerItems st'
  ∧ controllerItems st' = {[ti_id lit := loaderItem st]}
  ∧ heap st' !! loaderItem st = Some (set_parent None (set_busy true lit)).
Proof.
  intros Hl Hn. cbn zeta. rewrite (reset_single_state x st lit Hl Hn).
  assert (Hne : loaderItem st ≠ next st) by congruence.
  split; [done|]. split; [done|]. split; [done|]. split; [done|]. split; [done|].
  split; [unfold getTestData; cbn; apply lookup_insert_eq|].
  split.
  { unfold children_of. cbn. rewrite lookup_insert_ne by done.
    by rewrite lookup_insert_eq. }
  split; [done|]. cbn. apply lookup_insert_eq.
Qed.

Abbreviation reset_folder := (reset_folder normalize basename).

Lemma reset_many (workspaceFolders : list Uri) (st : State) :
  length workspaceFolders ≠ 1 →
  reset normalize basename workspaceFolders st
  = let '(items, s) :=
      foldl reset_folder
        ([], upd (loaderItem st) (set_busy true)
               (with_watcherByFolder []
                  (with_flatTestItems ∅
                     (with_fileItems ∅
                        (with_testItemsByFile ∅ (with_folderItems ∅ st))))))
        workspaceFolders in
    controller_replace items s.
Proof.
  intros Hlen. destruct workspaceFolders as [|x [|y l]]; [reflexivity|done|reflexivity].
Qed.

(** [item.children.replace([])] and [item.busy = true] on a live item
    with children of its own. *)
Lemma reset_touch item it s :
  heap s !! item = Some it → is_own it = true →
  upd item (set_busy true) (children_replace item [] s)
  = with_heap (<[item := set_busy true (set_children (OwnChildren ∅) it)]> (heap s)) s.
Proof.
  intros Hit Ho. unfold children_replace. cbn [omap list_omap foldl].
  rewrite (TreeFacts.upd_children_eq item _ s it Hit Ho).
  erewrite TreeFacts.upd_eq; [|cbn; apply lookup_insert_eq].
  unfold with_heap. cbn. f_equal.
  - rewrite insert_insert_eq. f_equal. unfold map_own, is_own in *.
    by destruct (ti_children it).
Qed.

Lemma reset_folder_inv acc s x acc' s' :
  reset_inv acc s →
  reset_folder (acc, s) x = (acc', s') →
  reset_inv acc' s'
  ∧ is_Some (folderItems s' !! normalize (fsPath x))
  ∧ (∀ k r, folderItems s !! k = Some r → folderItems s' !! k = Some r).
Proof.
  intros (Hwf & F1 & F2 & F3 & F4 & Hfold & Hacc) Hstep.
  unfold ResetSpec.reset_folder, getOrCreateWorkspaceFolderItem in Hstep.
  set (key := normalize (fsPath x)) in *.
  destruct (folderItems s !! key) as [r|] eqn:Hc.
  - destruct (Hfold key r Hc) as (Hin & it & Hit & Hid & Hbusy & Hch).
    assert (Ho : is_own it = true) by (unfold is_own; by rewrite Hch).
    rewrite (reset_touch r it s Hit Ho) in Hstep. injection Hstep as <- <-.
    assert (Hsame : set_busy true (set_children (OwnChildren ∅) it) = it).
    { destruct it. cbn in *. by subst. }
    rewrite Hsame. rewrite insert_id by done.
    assert (E : with_heap (heap s) s = s) by (by destruct s). rewrite E.
    split; [|split; [by rewrite Hc|done]].
    split; [done|]. do 4 (split; [done|]). split.
    + intros k r' Hk. destruct (Hfold k r' Hk) as (? & ?). split; [|done].
      apply elem_of_app. by left.
    + intros r' [Hr'| ->%list_elem_of_singleton]%elem_of_app; [by apply Hacc|eauto].
  - set (n := next s) in *.
    set (new := set_canResolveChildren false
                  (mkTestItem key (basename key) x (OwnChildren ∅) None [] None
                     None None false false)).
    set (s0 := with_folderItems (<[key := n]> (folderItems s))
                 (upd n (set_canResolveChildren false)
                    (register n (TestFolder None)
                       (createTestItem key (basename key) x s).2))).
    assert (Hn0 : heap s0 !! n = Some new).
    { unfold s0. cbn [heap with_folderItems]. rewrite TreeFacts.heap_upd_eq.
      cbn. by rewrite lookup_insert_eq. }
    assert (Hstep' : (acc ++ [n],
                      upd n (set_busy true) (children_replace n [] s0))
                     = (acc', s')) by exact Hstep.
    rewrite (reset_touch n new s0 Hn0 eq_refl) in Hstep'.
    injection Hstep' as <- <-. clear Hstep.
    assert (Hother : ∀ y, y ≠ n → heap s0 !! y = heap s !! y).
    { intros y Hy. unfold s0. cbn [heap with_folderItems].
      rewrite TreeFacts.heap_upd_ne by done. cbn. by rewrite lookup_insert_ne. }
    split; [|split].
    + split.
      { intros y it Hy. cbn in Hy |- *.
        destruct (decide (y = n)) as [->|Hyn]; [unfold n; lia|].
        rewrite lookup_insert_ne in Hy by done.
        assert (Hy' : heap s0 !! y = Some it) by exact Hy.
        rewrite Hother in Hy' by done. apply Hwf in Hy'. unfold n. lia. }
      do 4 (split; [done|]). split.
      * intros k r Hk. cbn in Hk.
        destruct (decide (k = key)) as [->|Hkk].
        -- rewrite lookup_insert_eq in Hk. injection Hk as <-.
           split; [apply elem_of_app; right; left|].
           eexists. split; [cbn; apply lookup_insert_eq|]. done.
        -- rewrite lookup_insert_ne in Hk by done.
           destruct (Hfold k r Hk) as (Hin & it & Hit & Hnode).
           split; [apply elem_of_app; by left|].
           exists it. split; [|done].
           assert (Hrn : r ≠ n).
           { intros ->. apply Hwf in Hit. unfold n in Hit. lia. }
           cbn. rewrite lookup_insert_ne by done.
           change (heap s0 !! r = Some it). by rewrite Hother.
      * intros r [Hr| ->%list_elem_of_singleton]%elem_of_app.
        -- destruct (Hacc r Hr) as [k Hk]. exists k. cbn.
           rewrite lookup_insert_ne; [done|]. congruence.
        -- exists key. cbn. apply lookup_insert_eq.
    + cbn. rewrite lookup_insert_eq. eauto.
    + intros k r Hk. cbn. rewrite lookup_insert_ne; [done|]. congruence.
Qed.

Lemma reset_fold_inv xs acc s acc' s' :
  reset_inv acc s →
  foldl reset_folder (acc, s) xs = (acc', s') →
  reset_inv acc' s'
  ∧ (∀ x, x ∈ xs → is_Some (folderItems s' !! normalize (fsPath x))).
Proof.
  revert acc s. induction xs as [|x xs IH]; intros acc s Hinv Hrun.
  - cbn in Hrun. injection Hrun as <- <-. split; [done|].
    intros x Hx. by apply elem_of_nil in Hx.
  - cbn [foldl] in Hrun.
    destruct (reset_folder (acc, s) x) as [acc1 s1] eqn:Hstep.
    destruct (reset_folder_inv acc s x acc1 s1 Hinv Hstep) as (Hinv1 & [r Hx] & Hmono).
    destruct (IH acc1 s1 Hinv1 Hrun) as (Hinv' & Hall).
    split; [done|]. intros y [-> |Hy]%elem_of_cons; [|by apply Hall].
    clear IH Hall Hinv' Hstep Hmono. revert acc1 s1 Hrun Hinv1 Hx.
    induction xs as [|z zs IHz]; intros acc1 s1 Hrun Hinv1 Hx.
    + cbn in Hrun. injection Hrun as <- <-. eauto.
    + cbn [foldl] in Hrun.
      destruct (reset_folder (acc1, s1) z) as [acc2 s2] eqn:Hstep2.
      destruct (reset_folder_inv acc1 s1 z acc2 s2 Hinv1 Hstep2) as (Hinv2 & _ & Hmono2).
      eapply IHz; [done|done|]. by apply Hmono2.
Qed.

(** Writing one field of each item of a list, with a write that does
    nothing when done twice. *)
Lemma heap_foldl_upd (f : TestItem → TestItem) items s y :
  (∀ it, f (f it) = f it) →
  heap (foldl (λ s c, upd c f s) s items) !! y
  = if decide (y ∈ items) then f <$> heap s !! y else heap s !! y.
Proof.
  intros Hf. revert s. induction items as [|c items IH]; intros s.
  - cbn. by rewrite decide_False by (by intros ?%elem_of_nil).
  - cbn [foldl]. rewrite IH. rewrite TreeFacts.heap_upd.
    destruct (decide (y = c)) as [->|Hyc].
    + rewrite (decide_True (P := c ∈ c :: items)) by left.
      case_decide; [|done]. destruct (heap s !! c); cbn; [|done]. by rewrite Hf.
    + case_decide as Hin.
      * rewrite decide_True by (by right). done.
      * rewrite decide_False; [done|]. by intros [?|?]%elem_of_cons.
Qed.

(** X26.  After [reset] with no or with several workspace folders nothing
    is remembered of files, tests and watchers; every workspace folder has a
    node registered under its normalized path, which is a top-level item of
    the controller under that id, busy, without children and without parent;
    and the controller holds nothing else. *)
Theorem reset_many_folders (workspaceFolders : list Uri) (st : State) :
  heap_wf st →
  length workspaceFolders ≠ 1 →
  let st' := reset normalize basename workspaceFolders st in
  getAllFileItems st' = []
  ∧ (∀ path, getFileTestItems normalize path st' = [])
  ∧ (∀ id, getTestItemByTaskId id st' = None)
  ∧ watcherByFolder st' = []
  ∧ (∀ x, x ∈ workspaceFolders →
       ∃ r it,
         folderItems st' !! normalize (fsPath x) = Some r
         ∧ controllerItems st' !! normalize (fsPath x) = Some r
         ∧ heap st' !! r = Some it
         ∧ ti_id it = normalize (fsPath x)
         ∧ ti_busy it = true
         ∧ ti_parent it = None
         ∧ children_of st' r = ∅)
  ∧ (∀ k r, controllerItems st' !! k = Some r → folderItems st' !! k = Some r).
Proof.
  intros Hwf Hlen. cbn zeta. rewrite (reset_many workspaceFolders st Hlen).
  set (st0 := upd (loaderItem st) (set_busy true) _).
  assert (Hinv0 : reset_inv [] st0).
  { split.
    - intros y it Hy. unfold st0 in Hy. rewrite TreeFacts.heap_upd in Hy.
      cbn in Hy. change (y < next st).
      case_decide; [|by apply (Hwf y it)].
      destruct (heap st !! y) as [it0|] eqn:E; [|done]. by apply (Hwf y it0).
    - do 4 (split; [done|]). split.
      + intros k r Hk. unfold st0 in Hk. cbn in Hk. by rewrite lookup_empty in Hk.
      + intros r Hr. by apply elem_of_nil in Hr. }
  destruct (foldl reset_folder ([], st0) workspaceFolders) as [items s] eqn:Hrun.
  destruct (reset_fold_inv workspaceFolders [] st0 items s Hinv0 Hrun)
    as ((Hwfs & F1 & F2 & F3 & F4 & Hfold & Hacc) & Hall).
  unfold controller_replace.
  set (entries := omap (λ c, (λ it, (ti_id it, c)) <$> heap s !! c) items).
  set (sF := foldl (λ s c, upd c (set_parent None) s) s items).
  assert (HsF : fileItems sF = fileItems s ∧ flatTestItems sF = flatTestItems s
                ∧ testItemsByFile sF = testItemsByFile s
                ∧ watcherByFolder sF = watcherByFolder s
                ∧ folderItems sF = folderItems s).
  { unfold sF. clear. revert s. induction items as [|c items IH]; intros s; [done|].
    cbn [foldl]. destruct (IH (upd c (set_parent None) s)) as (-> & -> & -> & -> & ->).
    done. }
  destruct HsF as (G1 & G2 & G3 & G4 & G5).
  assert (Hent : ∀ k r, (k, r) ∈ entries ↔ r ∈ items ∧ folderItems s !! k = Some r).
  { intros k r. unfold entries. rewrite list_elem_of_omap. split.
    - intros (c & Hc & Hk). destruct (heap s !! c) as [it|] eqn:Hit; [|done].
      cbn in Hk. injection Hk as <- <-. split; [done|].
      destruct (Hacc c Hc) as [k Hk].
      destruct (Hfold k c Hk) as (_ & it' & Hit' & Hid & _).
      rewrite Hit in Hit'. injection Hit' as <-. by rewrite Hid.
    - intros [Hin Hk]. exists r. split; [done|].
      destruct (Hfold k r Hk) as (_ & it & Hit & Hid & _).
      rewrite Hit. cbn. by rewrite Hid. }
  split; [cbn; unfold getAllFileItems; cbn; by rewrite G1, F1|].
  split; [intros path; unfold getFileTestItems; cbn; by rewrite G3, F3|].
  split; [intros id; unfold getTestItemByTaskId; cbn; by rewrite G2, F2|].
  split; [cbn; by rewrite G4|].
  split.
  - intros x Hx. destruct (Hall x Hx) as [r Hr].
    destruct (Hfold _ r Hr) as (Hin & it & Hit & Hid & Hbusy & Hch).
    exists r, (set_parent None it).
    split; [cbn; by rewrite G5|].
    split.
    { cbn. apply elem_of_list_to_map_1'; [|by apply Hent].
      intros y Hy. apply Hent in Hy as [_ Hy]. congruence. }
    assert (HrF : heap sF !! r = Some (set_parent None it)).
    { unfold sF. rewrite heap_foldl_upd by done.
      rewrite decide_True by done. by rewrite Hit. }
    split; [exact HrF|]. repeat (split; [done|]).
    unfold children_of. cbn [heap with_controllerItems]. rewrite HrF. cbn.
    by rewrite Hch.
  - intros k r Hk. cbn in Hk. apply elem_of_list_to_map_2 in Hk.
    apply Hent in Hk as [_ Hk]. cbn. by rewrite G5.
Qed.

End Paths.
End ResetFacts.

(** * The theorems at work on examples *)

Module Scenarios.
Import Host Vitest TestTreeData TestTree TestRunner RunLifecycle.
Import RunnerSpec TreeSpec Examples.

Local Open Scope list_scope.
Local Open Scope nat_scope.

Ltac decided :=
  match goal with
  | |- ?P => apply (bool_decide_eq_true_1 P); vm_compute; reflexivity
  end.








(** C6.  The watcher does not delete the node of every deleted file.  A
    file right in the folder of a single-folder workspace has a file node
    listed for its path, but the node is an item of [controller.items] (the
    children of the inline root) and so has no parent: the deletion callback
    returns at [if (!item.parent) return] and leaves the node among the
    children of the root and in every map, where the node of a file in a
    sub-folder is deleted. *)
Lemma root_level_file_node_survives :
  getFileTestItems normalize root_file rooted = [2]
  ∧ getTestData rooted 2 = Some (TestFile root_data)
  ∧ parent_of rooted 2 = None
  ∧ (∀ fuel,
       onDidDelete normalize (S fuel) (mkUri root_file) rooted = Some rooted)
  ∧ children_of rooted 1 !! root_file = Some 2
  ∧ fileItems rooted !! root_file = Some 2
  ∧ testItemsByFile rooted !! root_file = Some [2].
Proof.
  split; [by vm_compute|]. split; [by vm_compute|]. split; [by vm_compute|].
  split; [|split; [by vm_compute|split; by vm_compute]].
  intros fuel.
  assert (E : testItemsByFile rooted !! normalize (fsPath (mkUri root_file))
              = Some [2]) by (vm_compute; reflexivity).
  assert (E2 : heap rooted !! 2 = Some (item_of rooted 2))
    by (vm_compute; reflexivity).
  unfold onDidDelete. rewrite E. cbn [deleteEach recursiveDelete].
  rewrite E2. reflexivity.
Qed.

Lemma watcher_prunes_file_node_witness :
  ∃ st',
    onDidDelete normalize 5 (mkUri nested_file) nested = Some st'
    ∧ children_of st' 3 !! nested_file = None
    ∧ children_of st' 1 !! "/ws/src"%string = None
    ∧ fileItems st' !! nested_file = None
    ∧ testItemsByFile st' !! nested_file = None.
Proof.
  destruct (TreeFacts.watcher_prunes_file_node normalize 5 nested 4
              (item_of nested 4) (mkTestFileData 3 nested_file api "")
              3 [1] (mkUri nested_file))
    as (st' & deleted & kept & Hrun & Hpr & Hin & Hc & Hf & Ht).
  - vm_compute. reflexivity.
  - vm_compute. reflexivity.
  - vm_compute. reflexivity.
  - split; [|split; [|exact I]].
    + exists (item_of nested 4). split; vm_compute; reflexivity.
    + exists (item_of nested 3). split; vm_compute; reflexivity.
  - vm_compute. reflexivity.
  - exists st'. split; [exact Hrun|]. split; [exact Hc|]. split; [|by split].
    assert (E : Some st' = onDidDelete normalize 5 (mkUri nested_file) nested)
      by (by rewrite Hrun).
    vm_compute in E. injection E as ->. vm_compute. reflexivity.
Defined.

Lemma markResult_not_test_case_witness :
  calls (markResult stripAnsi "/" 3 (Some failed) world) = []
  ∧ ti_error <$> heap (tree (markResult stripAnsi "/" 3 (Some failed) world)) !! 3
    = Some (Some "AssertionError: expected 1 to be 2"%string).
Proof.
  destruct (RunnerFacts.markResult_not_test_case stripAnsi "/" 3 (Some failed)
              world) as (Hc & _ & _ & _ & He).
  - vm_compute. reflexivity.
  - split; [exact Hc|].
    apply (He (item_of collected 3)). vm_compute. reflexivity.
Defined.



Lemma recursiveDelete_drops_path_entry_witness :
  ∃ st',
    recursiveDelete 5 4 nested_twice = Some st'
    ∧ getFileTestItems normalize nested_file st' = []
    ∧ fileItems st' !! "/ws/src/a.test.jsunit"%string = Some 5
    ∧ children_of st' 3 !! "/ws/src/a.test.jsunit"%string = Some 5.
Proof.
  destruct (TreeFacts.recursiveDelete_drops_path_entry normalize 5 nested_twice
              4 (item_of nested_twice 4) 3
              (mkTestFileData 3 nested_file api "") [3; 1])
    as (st' & Hrun & _ & Hget & Hother).
  - vm_compute. reflexivity.
  - vm_compute. reflexivity.
  - vm_compute. reflexivity.
  - vm_compute. reflexivity.
  - destruct (Hother 5 (item_of nested_twice 5)
                (mkTestFileData 3 nested_file api "unit"))
      as (Hf & Hc & _); try (vm_compute; reflexivity).
    + vm_compute. discriminate.
    + exists st'. split; [exact Hrun|]. split; [by apply Hget|].
      split; [exact Hf|exact Hc].
Defined.

End Scenarios.

(** * The further theorems at work on examples *)

Module MoreScenarios.
Import Host Vitest TestTreeData TestTree TestRunner RunLifecycle.
Import RunnerText RunnerEvents RunnerSpec TreeSpec.
Import TextSpec EventSpec SignalSpec IndexSpec ResetSpec.
Import Examples MoreExamples.

Local Open Scope list_scope.
Local Open Scope nat_scope.

Ltac decided :=
  match goal with
  | |- ?P => apply (bool_decide_eq_true_1 P); vm_compute; reflexivity
  end.

(** The store fits a collection under the node [p]. *)
Ltac ready_here st p :=
  split; [decided|];
  split; [unfold heap_wf; decided|];
  split; [exists (item_of st p); split; [vm_compute; reflexivity|];
          split; [reflexivity|decided]|];
  decided.


Lemma markResult_test_case_witness :
  tree (markResult stripAnsi "/" 5 (Some failed) world) = tree world.
Proof.
  destruct (EventFacts.markResult_test_case stripAnsi "/" 5 (Some failed) world)
    as (H & _); [vm_compute; reflexivity|exact H].
Defined.

Lemma message_location_in_own_file_witness :
  fsPath (loc_uri (mkLocation (mkUri root_file) (mkPosition (Num 9) (Num 2))))
  = fsPath (ti_uri (item_of collected 5)).
Proof.
  destruct (EventFacts.message_location_in_own_file stripAnsi "/"
              (item_of collected 5) (Some failure)
              (mkLocation (mkUri root_file) (mkPosition (Num 9) (Num 2))))
    as (H & _); [vm_compute; reflexivity|exact H].
Defined.

Lemma orphaned_signal_never_resolves_witness :
  orphaned stuck 1
  ∧ parked later !! 0 = Some (StartAwait (Some 1) [nested_file] (UserRequest 2))
  ∧ step files_in all_included (Resume 0) later = None.
Proof.
  assert (Ho : orphaned stuck 1).
  { split; [vm_compute; lia|]. split; [vm_compute; reflexivity|].
    vm_compute. discriminate. }
  assert (E : exec files_in all_included afterwards stuck = Some later)
    by (vm_compute; reflexivity).
  assert (Hp : parked later !! 0
               = Some (StartAwait (Some 1) [nested_file] (UserRequest 2)))
    by (vm_compute; reflexivity).
  split; [exact Ho|]. split; [exact Hp|].
  destruct (SignalFacts.orphaned_signal_never_resolves files_in all_included
              afterwards stuck later 1 Ho E) as [_ H].
  exact (H 0 _ Hp eq_refl).
Defined.

Lemma endTestRun_leaves_nothing_open_witness :
  open_runs (endTestRun waiting) = [].
Proof.
  assert (E : exec files_in all_included events init = Some waiting)
    by (vm_compute; reflexivity).
  destruct (SignalFacts.endTestRun_leaves_nothing_open files_in all_included
              events waiting E (endTestRun waiting)) as (H & _);
    [by left|exact H].
Defined.


Lemma collected_tasks_are_found_witness :
  ∃ q r it,
    getTestItemByTaskId "t2" once = Some r
    ∧ heap once !! r = Some it
    ∧ ti_label it = "multiplies"%string
    ∧ ti_parent it = Some q
    ∧ getTestData once r = Some (TestCase q root_data).
Proof.
  destruct (CollectFacts.collected_tasks_are_found (api_tag api) root_data
              first_report 2 rooted product_test)
    as (q & r & it & H1 & H2 & _ & H4 & H5 & _ & _ & _ & H9).
  - ready_here rooted 2.
  - vm_compute. right. right. left.
  - exists q, r, it. split; [exact H1|]. split; [exact H2|]. split; [exact H4|].
    split; [exact H5|]. apply H9. by left.
Defined.

Lemma collected_tags_witness :
  ∃ r it,
    flatTestItems once !! "t1"%string = Some r
    ∧ heap once !! r = Some it
    ∧ NoDup (ti_tags it) ∧ api_tag api ∈ ti_tags it.
Proof.
  destruct (CollectFacts.collected_tags (api_tag api) root_data
              first_report 2 rooted sum_test)
    as (q & r & it & H1 & H2 & _ & _ & H5 & H6 & _).
  - ready_here rooted 2.
  - vm_compute. right. left.
  - exists r, it. split; [exact H1|]. split; [exact H2|]. split; [exact H5|exact H6].
Defined.

Lemma collected_errors_witness :
  ∃ r it,
    flatTestItems once !! "t2"%string = Some r
    ∧ heap once !! r = Some it
    ∧ ti_error it = Some "AssertionError: expected 1 to be 2"%string
    ∧ ti_sortText it = Some "t2"%string.
Proof.
  destruct (CollectFacts.collected_errors (api_tag api) root_data
              first_report 2 rooted product_test)
    as (r & it & H1 & H2 & H3 & H4).
  - ready_here rooted 2.
  - vm_compute. right. right. left.
  - exists r, it. split; [exact H1|]. split; [exact H2|]. split; [exact H3|].
    by apply H4.
Defined.

Lemma collectTasks_keeps_index_witness :
  getTestItemByTaskId "t2"
    (collectTasks (api_tag api) root_data second_report 2 once)
  = Some 5
  ∧ children_of (collectTasks (api_tag api) root_data second_report 2 once) 3
    !! "t2"%string = None.
Proof.
  destruct (CollectFacts.collectTasks_keeps_index (api_tag api) root_data
              second_report 2 once) as [H _].
  - ready_here once 2.
  - split; [|vm_compute; reflexivity].
    rewrite H; [vm_compute; reflexivity|decided].
Defined.

Lemma collectTasks_frame_witness :
  fileItems once = fileItems rooted
  ∧ heap once !! 1 = heap rooted !! 1.
Proof.
  destruct (CollectFacts.collectTasks_frame (api_tag api) root_data
              first_report 2 rooted) as (H1 & _ & _ & _ & H5).
  - ready_here rooted 2.
  - split; [exact H1|]. apply H5; [vm_compute; lia|lia|].
    intros k _. vm_compute. discriminate.
Defined.

Lemma discoverAllTestFiles_covers_witness :
  ∃ r, fileItems discovered !! "/ws/src/a.test.jsunit"%string = Some r.
Proof.
  destruct (FileFacts.discoverAllTestFiles_covers normalize dirname basename 5
              api found single discovered) as (H & _).
  - vm_compute. reflexivity.
  - apply (H "unit"%string nested_file). right. left.
Defined.

Lemma discoverAllTestFiles_again_witness :
  discoverAllTestFiles normalize dirname basename 5 api found discovered
  = Some match folderItems discovered !! normalize (fsPath (api_workspaceFolder api)) with
         | Some folderItem => upd folderItem (set_busy false) discovered
         | None => discovered
         end.
Proof.
  apply (FileFacts.discoverAllTestFiles_again normalize dirname basename 5 api
           found single discovered).
  vm_compute. reflexivity.
Defined.

Lemma getOrCreateFolderTestItem_merges_tag_witness :
  ∃ st1 it1,
    getOrCreateFolderTestItem normalize dirname basename 5 api "/ws" single
    = Some (1, st1)
    ∧ heap st1 !! 1 = Some it1
    ∧ api_tag api ∈ ti_tags it1.
Proof.
  destruct (FileFacts.getOrCreateFolderTestItem_merges_tag normalize dirname
              basename 5 api "/ws" single 1 (item_of single 1))
    as (st1 & it1 & H1 & H2 & H3 & _).
  - vm_compute. reflexivity.
  - vm_compute. reflexivity.
  - exists st1, it1. split; [exact H1|]. split; [exact H2|exact H3].
Defined.

Lemma watchTestFilesInWorkspace_once_witness :
  api_workspaceFolder api ∈ watcherByFolder watched.
Proof.
  destruct (FileFacts.watchTestFilesInWorkspace_once normalize dirname basename
              5 api found single watched) as (H & _).
  - vm_compute. reflexivity.
  - exact H.
Defined.

Lemma file_task_finds_file_node_witness :
  getTestItemByTask "f1" (Some root_file) None rooted = Some 2.
Proof.
  apply (FileFacts.file_task_finds_file_node normalize dirname basename 5 api
           root_file None "f1" single rooted 2).
  - vm_compute. reflexivity.
  - reflexivity.
  - discriminate.
  - vm_compute. reflexivity.
Defined.

Lemma collectFile_indexes_report_witness :
  ∃ st',
    collectFile normalize dirname basename 5 api report single = Some st'
    ∧ getTestItemByTaskId "f1" st' = Some 2.
Proof.
  destruct (FileFacts.collectFile_indexes_report normalize dirname basename 5
              api report single rooted 2 root_data) as (st' & H1 & H2 & _).
  - vm_compute. reflexivity.
  - vm_compute. reflexivity.
  - ready_here rooted 2.
  - decided.
  - exists st'. split; [exact H1|exact H2].
Defined.

Lemma recursiveDelete_forgets_nodes_witness :
  ∃ st',
    recursiveDelete 5 4 nested = Some st'
    ∧ folderItems st' !! "/ws/src"%string = None.
Proof.
  destruct (DeleteFacts.recursiveDelete_forgets_nodes 5 nested 4
              (item_of nested 4) 3 [3; 1]) as (st' & H1 & _ & _ & _ & H5).
  - vm_compute. reflexivity.
  - vm_compute. reflexivity.
  - vm_compute. reflexivity.
  - exists st'. split; [exact H1|].
    destruct (H5 (item_of nested 3) 1 (Some 1)) as [H _];
      [vm_compute; reflexivity..|exact H].
Defined.



Lemma reset_single_folder_witness :
  controllerItems single = {["_resolving"%string := 0]}
  ∧ heap single !! 0 = Some (set_parent None (set_busy true (item_of fresh 0))).
Proof.
  destruct (ResetFacts.reset_single_folder normalize basename ws fresh
              (item_of fresh 0))
    as (_ & _ & _ & _ & _ & _ & _ & H8 & H9).
  - vm_compute. reflexivity.
  - vm_compute. reflexivity.
  - split; [exact H8|exact H9].
Defined.

Lemma reset_many_folders_witness :
  ∃ r it,
    folderItems multi !! "/lib"%string = Some r
    ∧ controllerItems multi !! "/lib"%string = Some r
    ∧ heap multi !! r = Some it
    ∧ ti_busy it = true
    ∧ children_of multi r = ∅.
Proof.
  destruct (ResetFacts.reset_many_folders normalize basename
              [ws; mkUri "/lib"] fresh) as (_ & _ & _ & _ & H & _).
  - unfold heap_wf. decided.
  - cbn. lia.
  - destruct (H (mkUri "/lib")) as (r & it & H1 & H2 & H3 & _ & H5 & _ & H7);
      [right; left|].
    exists r, it. split; [exact H1|]. split; [exact H2|]. split; [exact H3|].
    split; [exact H5|exact H7].
Defined.

End MoreScenarios.
